(** * The [dexsearch] chat command of config/commands.js

    A shallow embedding of the species query engine: the token loop that
    builds the [searches] predicate object, the catalog scan, the
    per-category filters, the family de-duplication and the formatting of
    the reply.  The catalog ([Tools]) and the library helpers the command
    calls are parameters of the development.

    Conventions of the embedding:
    - the lookups of [Tools] are pure functions of their argument;
    - an object is kept as the list of its own keys.  In the token
      loop, where the keys are what the user typed, a test [k in o] and
      a read [o[k]] also see the members that every object inherits
      from Object.prototype ([JS.inherited]), and a write to the key
      __proto__ stores nothing;
    - the catalog is data: the keys of [Tools.data.Pokedex], the values
      of the fields of a template and the ids of the moves name no
      member of Object.prototype, so that the filters, which index an
      object by them, read it through its own keys;
    - a reply is kept as a [Message] rather than as its text, so that the
      branch that produced it can be told from the reply;
    - the loop over the prevolutions is unbounded in the source and runs
      on fuel here; a completion of the command is a [return], a thrown
      exception, or the exhaustion of that fuel. *)

From Stdlib Require Import String Ascii List ZArith Bool Lia Arith PeanoNat.
From Stdlib Require Import Permutation DecimalString DecimalPos Sorted.
From Stdlib Require QArith.
Import ListNotations.
Open Scope string_scope.
Open Scope list_scope.

(** ** JavaScript string primitives

    Strings are sequences of one-byte characters; the primitives below are
    the ones [dexsearch] calls, on the ASCII range: a character above 127
    stands for no character of the source. *)
Module JS.

Definition isAsciiChar (c : ascii) : bool := (nat_of_ascii c <? 128)%nat.

(** The texts of the embedding proper: ASCII characters only. *)
Fixpoint isAscii (s : string) : bool :=
  match s with
  | EmptyString => true
  | String c s' => isAsciiChar c && isAscii s'
  end.

(** White space removed by [String.prototype.trim] and skipped by
    [parseInt]: TAB, LF, VT, FF, CR and SPACE. *)
Definition isWhiteSpace (c : ascii) : bool :=
  let n := nat_of_ascii c in
  ((9 <=? n)%nat && (n <=? 13)%nat) || (n =? 32)%nat.

Fixpoint trimLeft (s : string) : string :=
  match s with
  | EmptyString => EmptyString
  | String c s' => if isWhiteSpace c then trimLeft s' else s
  end.

Fixpoint trimRight (s : string) : string :=
  match s with
  | EmptyString => EmptyString
  | String c s' =>
      match trimRight s' with
      | EmptyString => if isWhiteSpace c then EmptyString else String c EmptyString
      | r => String c r
      end
  end.

(** [s.trim()] *)
Definition trim (s : string) : string := trimRight (trimLeft s).

Definition lowerChar (c : ascii) : ascii :=
  let n := nat_of_ascii c in
  if ((65 <=? n)%nat && (n <=? 90)%nat) then ascii_of_nat (n + 32) else c.

Definition upperChar (c : ascii) : ascii :=
  let n := nat_of_ascii c in
  if ((97 <=? n)%nat && (n <=? 122)%nat) then ascii_of_nat (n - 32) else c.

(** [s.toLowerCase()] *)
Fixpoint toLowerCase (s : string) : string :=
  match s with
  | EmptyString => EmptyString
  | String c s' => String (lowerChar c) (toLowerCase s')
  end.

(** [s.toUpperCase()] *)
Fixpoint toUpperCase (s : string) : string :=
  match s with
  | EmptyString => EmptyString
  | String c s' => String (upperChar c) (toUpperCase s')
  end.

(** [s.split(sep)] for a one-character separator; never empty. *)
Fixpoint split (sep : ascii) (s : string) : list string :=
  match s with
  | EmptyString => [EmptyString]
  | String c s' =>
      if Ascii.eqb c sep then EmptyString :: split sep s'
      else match split sep s' with
           | h :: t => String c h :: t
           | [] => [String c EmptyString]
           end
  end.

(** [s.slice(from)] and [s.slice(from, to)] for non-negative bounds. *)
Definition sliceFrom (from : nat) (s : string) : string :=
  substring from (String.length s - from) s.

Definition slice (from to : nat) (s : string) : string :=
  substring from (to - from) s.

(** [s.charAt(i)]: the one-character string at [i], or the empty one. *)
Definition charAt (i : nat) (s : string) : string := substring i 1 s.

(** [s.indexOf(needle)]; [None] stands for -1. *)
Definition indexOf (needle s : string) : option nat := index 0 needle s.

Definition digitValue (radix : Z) (c : ascii) : option Z :=
  let n := Z.of_nat (nat_of_ascii c) in
  let v := if ((48 <=? n) && (n <=? 57))%Z then Some (n - 48)%Z
           else if ((97 <=? n) && (n <=? 122))%Z then Some (n - 87)%Z
           else if ((65 <=? n) && (n <=? 90))%Z then Some (n - 55)%Z
           else None in
  match v with
  | Some d => if (d <? radix)%Z then Some d else None
  | None => None
  end.

(** The longest prefix of digits of the radix; [None] when there is none. *)
Fixpoint digits (radix : Z) (acc : option Z) (s : string) : option Z :=
  match s with
  | EmptyString => acc
  | String c s' =>
      match digitValue radix c with
      | Some d =>
          digits radix
            (Some (match acc with Some a => a * radix + d | None => d end)%Z) s'
      | None => acc
      end
  end.

(** [parseInt(s)] without a radix argument; [None] stands for NaN.  The
    value is the exact integer, which is what the comparisons of the
    command need. *)
Definition parseInt (s : string) : option Z :=
  let s := trimLeft s in
  let '(sign, s) :=
    match s with
    | String "-"%char r => ((-1)%Z, r)
    | String "+"%char r => (1%Z, r)
    | _ => (1%Z, s)
    end in
  let '(radix, s) :=
    match s with
    | String "0"%char (String x r) =>
        if (Ascii.eqb x "x" || Ascii.eqb x "X")%bool then (16%Z, r) else (10%Z, s)
    | _ => (10%Z, s)
    end in
  option_map (Z.mul sign) (digits radix None s).

(** [String(n)] for an integer [n]. *)
Definition ofNumber (n : Z) : string := NilZero.string_of_int (Z.to_int n).

(** Truthiness of a string: only the empty string is falsy. *)
Definition truthy (s : string) : bool := negb (s =? "").

Fixpoint insertSorted (x : string) (l : list string) : list string :=
  match l with
  | [] => [x]
  | y :: l' => if String.leb x y then x :: l else y :: insertSorted x l'
  end.

(** [a.sort()] with the default comparison (code-unit order). *)
Definition sort (l : list string) : list string :=
  fold_right insertSorted [] l.

(** [a.indexOf(x) > -1] *)
Definition includes (x : string) (l : list string) : bool :=
  existsb (String.eqb x) l.

(** The member names of Object.prototype.  Every object made by an
    object literal inherits them: it answers [k in o] for each, and
    reads [o[k]] as a function, or as Object.prototype itself for
    __proto__. *)
Definition objectPrototype : list string :=
  ["constructor"; "__defineGetter__"; "__defineSetter__"; "hasOwnProperty";
   "__lookupGetter__"; "__lookupSetter__"; "isPrototypeOf";
   "propertyIsEnumerable"; "toString"; "valueOf"; "__proto__";
   "toLocaleString"].

Definition inherited (k : string) : bool := includes k objectPrototype.

(** [k in o] for an object whose own keys are [keys]. *)
Definition isIn (k : string) (keys : list string) : bool :=
  includes k keys || inherited k.

End JS.

(** ** Catalog data

    The records returned by [Tools.getTemplate], [Tools.getMove] and
    [Tools.getAbility], with the fields [dexsearch] reads. *)
Module Template.
Record t := {
  id : string;
  species : string;                (* display name *)
  baseSpecies : string;
  tier : string;
  types : list string;             (* types[0], types[1] *)
  evos : list string;
  prevo : string;                  (* the empty string when there is none *)
  isMega : bool;
  gen : Z;
  color : string;
  abilities : list string;         (* the values of the abilities object *)
  learnset : option (list string)  (* the move ids of the learnset, if any *)
}.
End Template.

Module Move.
Record t := { exists_ : bool; id : string; name : string }.
End Move.

Module Ability.
Record t := { exists_ : bool; name : string }.
End Ability.

(** The catalog and lookup functions of the global [Tools] object.
    [Pokedex] and [TypeChart] list the keys of [Tools.data.Pokedex] and
    [Tools.data.TypeChart] in enumeration order; [lcBanlist] is
    [Tools.data.Formats.lc.banlist]. *)
Record Tools := {
  Pokedex : list string;
  TypeChart : list string;
  lcBanlist : list string;
  getTemplate : string -> Template.t;
  getMove : string -> Move.t;
  getAbility : string -> Ability.t
}.

(** ** Predicate objects

    An object of [searches] maps a value to [true] (required) or [false]
    (excluded); a missing key reads as undefined.  Keys are kept in
    insertion order, the order in which [for (k in obj)] visits them. *)
Definition Obj := list (string * bool).

Fixpoint lookup (m : Obj) (k : string) : option bool :=
  match m with
  | [] => None
  | (k', v) :: m' => if k' =? k then Some v else lookup m' k
  end.

(** [m[k] = v] *)
Fixpoint set (m : Obj) (k : string) (v : bool) : Obj :=
  match m with
  | [] => [(k, v)]
  | (k', v') :: m' => if k' =? k then (k', v) :: m' else (k', v') :: set m' k v
  end.

(** [Object.count(m, true)]: the number of values equal to [true]. *)
Definition countTrue (m : Obj) : nat :=
  List.length (filter (fun kv => snd kv) m).

(** [k in m] for a key that is no member name of Object.prototype. *)
Definition hasKey (m : Obj) (k : string) : bool :=
  match lookup m k with Some _ => true | None => false end.

(** [m[k]] for a computed key, as the tests of the command see it: the
    stored polarity, or else an inherited member, which is truthy and
    is not [false] and so reads as [true]; otherwise undefined. *)
Definition read (m : Obj) (k : string) : option bool :=
  match lookup m k with
  | Some v => Some v
  | None => if JS.inherited k then Some true else None
  end.

(** [m[k] = v] for a computed key and a boolean [v]: the assignment to
    __proto__ calls the inherited setter, which ignores a boolean. *)
Definition store (m : Obj) (k : string) (v : bool) : Obj :=
  if k =? "__proto__" then m else set m k v.

(** A read [m[k]] used as a condition, and the test [m[k] === false]. *)
Definition isTruthy (v : option bool) : bool :=
  match v with Some true => true | _ => false end.

Definition isFalse (v : option bool) : bool :=
  match v with Some false => true | _ => false end.

Inductive Category :=
  CatAbility | CatTier | CatColor | CatGen | CatMoves | CatTypes.

(** The [searches] object: a category is present once a token created it. *)
Record Searches := {
  s_ability : option Obj;
  s_tier : option Obj;
  s_color : option Obj;
  s_gen : option Obj;
  s_moves : option Obj;
  s_types : option Obj
}.

Definition noSearches : Searches :=
  {| s_ability := None; s_tier := None; s_color := None;
     s_gen := None; s_moves := None; s_types := None |}.

Definition category (s : Searches) (c : Category) : option Obj :=
  match c with
  | CatAbility => s_ability s
  | CatTier => s_tier s
  | CatColor => s_color s
  | CatGen => s_gen s
  | CatMoves => s_moves s
  | CatTypes => s_types s
  end.

Definition setCategory (s : Searches) (c : Category) (m : Obj) : Searches :=
  match c with
  | CatAbility => {| s_ability := Some m; s_tier := s_tier s; s_color := s_color s;
                     s_gen := s_gen s; s_moves := s_moves s; s_types := s_types s |}
  | CatTier => {| s_ability := s_ability s; s_tier := Some m; s_color := s_color s;
                  s_gen := s_gen s; s_moves := s_moves s; s_types := s_types s |}
  | CatColor => {| s_ability := s_ability s; s_tier := s_tier s; s_color := Some m;
                   s_gen := s_gen s; s_moves := s_moves s; s_types := s_types s |}
  | CatGen => {| s_ability := s_ability s; s_tier := s_tier s; s_color := s_color s;
                 s_gen := Some m; s_moves := s_moves s; s_types := s_types s |}
  | CatMoves => {| s_ability := s_ability s; s_tier := s_tier s; s_color := s_color s;
                   s_gen := s_gen s; s_moves := Some m; s_types := s_types s |}
  | CatTypes => {| s_ability := s_ability s; s_tier := s_tier s; s_color := s_color s;
                   s_gen := s_gen s; s_moves := s_moves s; s_types := Some m |}
  end.

(** [Object.size(searches)] *)
Definition size (s : Searches) : nat :=
  let one (o : option Obj) := match o with Some _ => 1 | None => 0 end in
  one (s_ability s) + one (s_tier s) + one (s_color s)
  + one (s_gen s) + one (s_moves s) + one (s_types s).

(** The local variables of the token loop. *)
Record Vars := {
  searches : Searches;
  showAll : bool;
  megaSearch : option bool;   (* null, true or false *)
  feSearch : option bool
}.

Definition initialVars : Vars :=
  {| searches := noSearches; showAll := false;
     megaSearch := None; feSearch := None |}.

(** ** Replies and completions *)

(** What a conflict message is about. *)
Inductive Subject :=
| OfCategory (c : Category)
| MegaEvolutions
| FullyEvolved.

(** The texts handed to [sendReplyBox], one constructor per message. *)
Inductive Message :=
| SpecifyOneAbility            (* Specify only one ability. *)
| MaxFourMoves                 (* Specify a maximum of 4 moves. *)
| MaxTwoTypes                  (* Specify a maximum of two types. *)
| CannotBoth (what : Subject)  (* A search cannot both exclude and include ... *)
| AllCannotBroadcast           (* A search with the parameter 'all' cannot be broadcast. *)
| NotFound (target : string)   (* '...' could not be found in any of the search categories. *)
| NoSearchParameters           (* No search parameters other than 'all' were found. ... *)
| NotAKnownMove (move : Move.t)(* '...' is not a known move. *)
| NoPokemonFound               (* No Pokemon found. *)
| Listing (names : list string)           (* the names joined with a comma *)
| Sample (names : list string) (more : Z) (* ten names, and [more] more. Redo ... *).

Inductive Reply :=
| SendReplyBox (m : Message)
| ParseHelp.                   (* this.parse('/help dexsearch') *)

Inductive JsError := TypeError.

(** How a call ends: with a [return], with an exception, or, in the
    model only, by exhausting the fuel of the prevolution walk. *)
Inductive Completion :=
| Returns (r : Reply)
| Throws (e : JsError)
| NoFuel.

Inductive Outcome (A : Type) :=
| Normal (a : A)
| Abrupt (c : Completion).
Arguments Normal {A} a.
Arguments Abrupt {A} c.

Definition bind {A B : Type} (x : Outcome A) (f : A -> Outcome B) : Outcome B :=
  match x with
  | Normal a => f a
  | Abrupt c => Abrupt c
  end.

Notation "x <- e ;; k" := (bind e (fun x => k))
  (at level 61, e at next level, right associativity).

Definition reply {A : Type} (m : Message) : Outcome A :=
  Abrupt (Returns (SendReplyBox m)).

(** ** The command *)

Definition allTiers : list string :=
  ["uber"; "ou"; "uu"; "lc"; "cap"; "bl"; "bl2"; "ru"; "bl3"; "nu"].

Definition allColours : list string :=
  ["green"; "red"; "blue"; "white"; "brown"; "yellow"; "purple"; "pink";
   "gray"; "black"].

(** var output = 10 *)
Definition output : Z := 10.

(** The moves that the sketch entry of a learnset does not grant. *)
Definition notSketchable : list string :=
  ["chatter"; "struggle"; "magikarpsrevenge"].

(** The test that precedes every assignment of a polarity:
    (current && isNotSearch) || (current === false && !isNotSearch). *)
Definition clash (current : option bool) (isNotSearch : bool) : bool :=
  (isTruthy current && isNotSearch) || (isFalse current && negb isNotSearch).

(** The number of required values a category accepts, with the message
    sent when one more is requested. *)
Definition cap (c : Category) : option (nat * Message) :=
  match c with
  | CatAbility => Some (1, SpecifyOneAbility)
  | CatMoves => Some (4, MaxFourMoves)
  | CatTypes => Some (2, MaxTwoTypes)
  | CatTier | CatColor | CatGen => None
  end.

Definition capReached (c : Category) (m : Obj) (isNotSearch : bool) : option Message :=
  match cap c with
  | Some (n, msg) => if (countTrue m =? n)%nat && negb isNotSearch then Some msg else None
  | None => None
  end.

Definition withSearches (st : Vars) (s : Searches) : Vars :=
  {| searches := s; showAll := showAll st;
     megaSearch := megaSearch st; feSearch := feSearch st |}.

(** The body shared by the six category branches of the token loop:
    create the category object, check the cap (ability, moves, types),
    check the polarity conflict, store the polarity. *)
Definition addSearch (st : Vars) (c : Category) (key : string)
    (isNotSearch : bool) : Outcome Vars :=
  let m := match category (searches st) c with Some m => m | None => [] end in
  match capReached c m isNotSearch with
  | Some msg => reply msg
  | None =>
      if clash (read m key) isNotSearch then reply (CannotBoth (OfCategory c))
      else Normal (withSearches st
                     (setCategory (searches st) c (store m key (negb isNotSearch))))
  end.

Section Dexsearch.

Variable T : Tools.

(** The effect of [results.randomize()] on the array. *)
Variable randomize : list string -> list string.

(** this.broadcasting, as left by this.canBroadcast() *)
Variable broadcasting : bool.

(** One iteration of [for (var i in targets)], lines 395-473. *)
Definition processTarget (st : Vars) (raw : string) : Outcome Vars :=
  let target := JS.toLowerCase (JS.trim raw) in
  let isNotSearch := JS.slice 0 1 target =? "!" in
  let target := if isNotSearch then JS.sliceFrom 1 target else target in
  let targetAbility := getAbility T raw in
  if Ability.exists_ targetAbility then
    addSearch st CatAbility (Ability.name targetAbility) isNotSearch
  else if JS.isIn target allTiers then
    addSearch st CatTier target isNotSearch
  else if JS.isIn target allColours then
    addSearch st CatColor target isNotSearch
  else if match JS.parseInt target with
          | Some targetInt => (0 <? targetInt)%Z && (targetInt <? 7)%Z
          | None => false
          end then
    addSearch st CatGen target isNotSearch
  else if target =? "all" then
    if broadcasting then reply AllCannotBroadcast
    else Normal {| searches := searches st; showAll := true;
                   megaSearch := megaSearch st; feSearch := feSearch st |}
  else if (target =? "megas") || (target =? "mega") then
    if clash (megaSearch st) isNotSearch then reply (CannotBoth MegaEvolutions)
    else Normal {| searches := searches st; showAll := showAll st;
                   megaSearch := Some (negb isNotSearch); feSearch := feSearch st |}
  else if (target =? "fe") || (target =? "fullyevolved")
          || (target =? "nfe") || (target =? "notfullyevolved") then
    let isNotSearch :=
      if (target =? "nfe") || (target =? "notfullyevolved")
      then negb isNotSearch else isNotSearch in
    if clash (feSearch st) isNotSearch then reply (CannotBoth FullyEvolved)
    else Normal {| searches := searches st; showAll := showAll st;
                   megaSearch := megaSearch st; feSearch := Some (negb isNotSearch) |}
  else
    let targetMove := getMove T target in
    if Move.exists_ targetMove then
      addSearch st CatMoves (Move.name targetMove) isNotSearch
    else
      match JS.indexOf " type" target with
      | Some i =>
          let target :=
            (JS.toUpperCase (JS.charAt 0 target) ++ JS.slice 1 i target)%string in
          if JS.isIn target (TypeChart T) then
            addSearch st CatTypes target isNotSearch
          else reply (NotFound target)
      | None => reply (NotFound target)
      end.

(** for (var i in targets) *)
Fixpoint loop (st : Vars) (targets : list string) : Outcome Vars :=
  match targets with
  | [] => Normal st
  | raw :: rest => st' <- processTarget st raw ;; loop st' rest
  end.

(** *** The catalog scan, lines 478-487 *)

Definition Dex := list (string * Template.t).

Definition megaSearchResult (st : Vars) (template : Template.t) : bool :=
  match megaSearch st with
  | None => true
  | Some true => Template.isMega template
  | Some false => negb (Template.isMega template)
  end.

Definition feSearchResult (st : Vars) (template : Template.t) : bool :=
  match feSearch st with
  | None => true
  | Some true => (List.length (Template.evos template) =? 0)%nat
  | Some false => negb (List.length (Template.evos template) =? 0)%nat
  end.

(** searches['tier'] && searches['tier']['cap'] *)
Definition capRequested (st : Vars) : bool :=
  match s_tier (searches st) with
  | Some m => isTruthy (lookup m "cap")
  | None => false
  end.

Definition admitted (st : Vars) (template : Template.t) : bool :=
  negb (Template.tier template =? "Unreleased")
  && negb (Template.tier template =? "Illegal")
  && (negb (Template.tier template =? "CAP") || capRequested st)
  && megaSearchResult st template && feSearchResult st template.

Definition scan (st : Vars) : Dex :=
  filter (fun entry => admitted st (snd entry))
         (map (fun pokemon => (pokemon, getTemplate T pokemon)) (Pokedex T)).

(** *** The category filters, lines 489-562

    Each [keep] function is the negation of the condition under which
    the loop over [dex] deletes the entry. *)

(** searches[search][dex[mon].types[i]]; a missing slot reads as the
    key undefined. *)
Definition typeSlot (m : Obj) (template : Template.t) (i : nat) : option bool :=
  lookup m (nth i (Template.types template) "undefined").

Definition typesKeep (m : Obj) (template : Template.t) : bool :=
  if (countTrue m =? 2)%nat then
    negb (negb (isTruthy (typeSlot m template 0))
          || negb (isTruthy (typeSlot m template 1)))
  else
    negb (isFalse (typeSlot m template 0) || isFalse (typeSlot m template 1)
          || ((0 <? countTrue m)%nat
              && (negb (isTruthy (typeSlot m template 0))
                  && negb (isTruthy (typeSlot m template 1))))).

(** The white list and black list test shared by tier, gen and color,
    on the lower-cased string of the field. *)
Definition valueKeep (m : Obj) (value : string) : bool :=
  if isFalse (lookup m (JS.toLowerCase value)) then false
  else negb ((0 <? countTrue m)%nat
             && negb (isTruthy (lookup m (JS.toLowerCase value)))).

Definition isLC (template : Template.t) : bool :=
  (0 <? List.length (Template.evos template))%nat
  && negb (JS.truthy (Template.prevo template))
  && negb (JS.includes (Template.species template) (lcBanlist T)).

Definition tierKeep (m : Obj) (template : Template.t) : bool :=
  if hasKey m "lc"
     && ((isTruthy (lookup m "lc") && negb (isLC template))
         || (negb (isTruthy (lookup m "lc")) && isLC template))
  then false
  else valueKeep m (Template.tier template).

(** Object.count(dex[mon].abilities, ability) > 0 *)
Definition hasAbility (template : Template.t) (ability : string) : bool :=
  existsb (String.eqb ability) (Template.abilities template).

Definition abilityKeep (m : Obj) (template : Template.t) : bool :=
  forallb (fun kv => Bool.eqb (hasAbility template (fst kv)) (snd kv)) m.

Definition filterDex (keep : Template.t -> bool) (dex : Dex) : Dex :=
  filter (fun entry => keep (snd entry)) dex.

(** *** The moves filter, lines 541-557 *)

(** The condition of the loop of lines 550-552:
    prevoTemp.prevo && prevoTemp.learnset && !prevoTemp.learnset[move.id] *)
Definition keepsWalking (moveid : string) (prevoTemp : Template.t) : bool :=
  JS.truthy (Template.prevo prevoTemp)
  && match Template.learnset prevoTemp with
     | Some ls => negb (JS.includes moveid ls)
     | None => false
     end.

(** The loop of lines 550-552: step to the prevolution while the link
    has a prevolution, has a learnset and the learnset lacks the move.
    The loop is unbounded in the source; [fuel] bounds the number of
    times its condition is evaluated. *)
Fixpoint walk (fuel : nat) (moveid : string) (prevoTemp : Template.t)
    : option Template.t :=
  match fuel with
  | O => None
  | S fuel' =>
      if keepsWalking moveid prevoTemp
      then walk fuel' moveid (getTemplate T (Template.prevo prevoTemp))
      else Some prevoTemp
  end.

(** The value of canLearn on the learnset of the last link. *)
Definition canLearn (ls : list string) (moveid : string) : bool :=
  (JS.includes "sketch" ls && negb (JS.includes moveid notSketchable))
  || JS.includes moveid ls.

(** One iteration of [for (var i in searches[search])]: whether the
    entry is deleted on account of the move named [i]. *)
Definition checkMove (fuel : nat) (template : Template.t) (i : string)
    (polarity : bool) : Outcome bool :=
  let move := getMove T i in
  if negb (Move.exists_ move) then reply (NotAKnownMove move)
  else
    match walk fuel (Move.id move) (getTemplate T (Template.id template)) with
    | None => Abrupt NoFuel
    | Some prevoTemp =>
        match Template.learnset prevoTemp with
        | None => Abrupt (Throws TypeError)   (* prevoTemp.learnset.sketch *)
        | Some ls =>
            let canLearn := canLearn ls (Move.id move) in
            Normal ((negb canLearn && polarity) || (negb polarity && canLearn))
        end
    end.

Fixpoint checkMoves (fuel : nat) (template : Template.t) (m : Obj)
    (kept : bool) : Outcome bool :=
  match m with
  | [] => Normal kept
  | (i, polarity) :: m' =>
      deleted <- checkMove fuel template i polarity ;;
      checkMoves fuel template m' (kept && negb deleted)
  end.

(** The template whose learnset is consulted for [mon]: its own, or
    the one of its base species when its own has no learnset. *)
Definition learnsetTemplate (mon : Template.t) : Template.t :=
  let template := getTemplate T (Template.id mon) in
  match Template.learnset template with
  | None => getTemplate T (Template.baseSpecies template)
  | Some _ => template
  end.

(** The body of [for (var mon in dex)] in case 'moves': whether the
    entry stays in [dex]. *)
Definition movesKeep (fuel : nat) (m : Obj) (mon : Template.t) : Outcome bool :=
  let template := learnsetTemplate mon in
  match Template.learnset template with
  | None => Normal true                       (* continue *)
  | Some _ => checkMoves fuel template m true
  end.

Fixpoint movesFilter (fuel : nat) (m : Obj) (dex : Dex) : Outcome Dex :=
  match dex with
  | [] => Normal []
  | entry :: rest =>
      keep <- movesKeep fuel m (snd entry) ;;
      rest' <- movesFilter fuel m rest ;;
      Normal (if keep then entry :: rest' else rest')
  end.

(** for (var search in {'moves', 'types', 'ability', 'tier', 'gen',
    'color'}), skipping the categories that no token created. *)
Definition applyFilters (fuel : nat) (st : Vars) (dex : Dex) : Outcome Dex :=
  let s := searches st in
  dex <- match s_moves s with
         | Some m => movesFilter fuel m dex
         | None => Normal dex
         end ;;
  let dex := match s_types s with
             | Some m => filterDex (typesKeep m) dex
             | None => dex
             end in
  let dex := match s_ability s with
             | Some m => filterDex (abilityKeep m) dex
             | None => dex
             end in
  let dex := match s_tier s with
             | Some m => filterDex (tierKeep m) dex
             | None => dex
             end in
  let dex := match s_gen s with
             | Some m =>
                 filterDex (fun mon => valueKeep m (JS.ofNumber (Template.gen mon))) dex
             | None => dex
             end in
  let dex := match s_color s with
             | Some m => filterDex (fun mon => valueKeep m (Template.color mon)) dex
             | None => dex
             end in
  Normal dex.

(** *** The reply, lines 564-581 *)

(** The names of the entries, without those of an evolution or forme
    whose base species is also among the names. *)
Definition familyFilter (results : list string) : list string :=
  filter (fun species =>
            let template := getTemplate T species in
            negb (negb (species =? Template.baseSpecies template)
                  && JS.includes (Template.baseSpecies template) results))
         results.

Definition names (dex : Dex) : list string :=
  map (fun entry => Template.species (snd entry)) dex.

(** The count after the ten names is results.length - output, handed to
    the global helper string for printing; the reply carries the number. *)
Definition format (st : Vars) (results : list string) : Message :=
  if (0 <? List.length results)%nat then
    if showAll st || (Z.of_nat (List.length results) <=? output)%Z then
      Listing (JS.sort results)
    else
      let results := randomize results in
      Sample (firstn 10 results) (Z.of_nat (List.length results) - output)
  else NoPokemonFound.

(** The command, once this.canBroadcast() has let it through. *)
Definition dexsearch (fuel : nat) (target : string) : Completion :=
  if negb (JS.truthy target) then Returns ParseHelp
  else
    match loop initialVars (JS.split "," target) with
    | Abrupt c => c
    | Normal st =>
        if showAll st && (size (searches st) =? 0)%nat
           && match megaSearch st with None => true | Some _ => false end
           && match feSearch st with None => true | Some _ => false end
        then Returns (SendReplyBox NoSearchParameters)
        else
          match applyFilters fuel st (scan st) with
          | Abrupt c => c
          | Normal dex =>
              Returns (SendReplyBox (format st (familyFilter (names dex))))
          end
    end.

End Dexsearch.

(** ** Prevolution chains *)

(** The key reached from [k] after [n] prevolution back-references. *)
Fixpoint ancestor (T : Tools) (n : nat) (k : string) : option string :=
  match n with
  | O => Some k
  | S n' =>
      if JS.truthy (Template.prevo (getTemplate T k))
      then ancestor T n' (Template.prevo (getTemplate T k))
      else None
  end.

(** No key is its own ancestor. *)
Definition acyclic (T : Tools) : Prop :=
  forall (k : string) (n : nat), ancestor T (S n) k <> Some k.

(** The keys met on the way back from [k] that have a prevolution all
    belong to [universe]: the family of [k] is finite. *)
Definition ancestorsWithin (T : Tools) (universe : list string) (k : string)
    : Prop :=
  forall (i : nat) (k' : string),
    ancestor T i k = Some k' ->
    JS.truthy (Template.prevo (getTemplate T k')) = true -> In k' universe.

(** Where the walk may stop. *)
Definition stops (moveid : string) (link : Template.t) : Prop :=
  Template.prevo link = ""
  \/ Template.learnset link = None
  \/ exists ls, Template.learnset link = Some ls /\ In moveid ls.

(** The walk from [link] ends at [last]: the loop of lines 550-552 as
    a relation. *)
Inductive WalkEnds (T : Tools) (moveid : string)
    : Template.t -> Template.t -> Prop :=
| WalkStop (link : Template.t) :
    keepsWalking moveid link = false -> WalkEnds T moveid link link
| WalkStep (link last : Template.t) :
    keepsWalking moveid link = true ->
    WalkEnds T moveid (getTemplate T (Template.prevo link)) last ->
    WalkEnds T moveid link last.

(** The walk for the move named [i], started at [template], ends at a
    link whose learnset is [ls]. *)
Definition endsAt (T : Tools) (template : Template.t) (i : string)
    (last : Template.t) (ls : list string) : Prop :=
  WalkEnds T (Move.id (getMove T i)) (getTemplate T (Template.id template)) last
  /\ Template.learnset last = Some ls.

(** What line 554 tests on the learnset of the last link: the species
    cannot learn a move with polarity true, or can learn one with
    polarity false; it can learn a move that the learnset contains, or
    that its sketch entry grants. *)
Definition violates (ls : list string) (moveid : string) (polarity : bool) : Prop :=
  let can := In moveid ls \/ (In "sketch" ls /\ ~ In moveid notSketchable) in
  (polarity = true /\ ~ can) \/ (polarity = false /\ can).

(** The walk of lines 550-552 in words: from a link that has a
    prevolution and a learnset without the move, go on to the template
    of the prevolution; stop at any other link. *)
Inductive Reaches (T : Tools) (moveid : string)
    : Template.t -> Template.t -> Prop :=
| ReachStop (link : Template.t) :
    stops moveid link -> Reaches T moveid link link
| ReachStep (link last : Template.t) (ls : list string) :
    Template.prevo link <> "" ->
    Template.learnset link = Some ls ->
    ~ In moveid ls ->
    Reaches T moveid (getTemplate T (Template.prevo link)) last ->
    Reaches T moveid link last.

(** The template that lines 543-545 consult for an entry: the one
    found under its id or, when that one has no learnset, the one found
    under the base species of that one. *)
Definition consulted (T : Tools) (mon start : Template.t) : Prop :=
  let own := getTemplate T (Template.id mon) in
  (Template.learnset own <> None /\ start = own)
  \/ (Template.learnset own = None
      /\ start = getTemplate T (Template.baseSpecies own)).

(** The moves of an entry are looked at when the template consulted
    for it has a learnset. *)
Definition evaluated (T : Tools) (mon : Template.t) : Prop :=
  exists start, consulted T mon start /\ Template.learnset start <> None.

(** For the move named [i], the walk made for the entry starts at the
    template found under the id of the consulted one, and ends at a
    link whose learnset is [ls]. *)
Definition resolves (T : Tools) (mon : Template.t) (i : string)
    (last : Template.t) (ls : list string) : Prop :=
  exists start,
    consulted T mon start
    /\ Reaches T (Move.id (getMove T i))
         (getTemplate T (Template.id start)) last
    /\ Template.learnset last = Some ls.

(** The entry is deleted by the moves filter: its moves are looked at,
    and for one of the moves of the query the learnset at the end of
    the walk says the opposite of the polarity. *)
Definition removedByMoves (T : Tools) (m : Obj) (mon : Template.t) : Prop :=
  evaluated T mon
  /\ exists i p last ls,
       In (i, p) m /\ resolves T mon i last ls
       /\ violates ls (Move.id (getMove T i)) p.

(** The query without one of its categories. *)
Definition without (st : Vars) (c : Category) : Vars :=
  let s := searches st in
  withSearches st
    match c with
    | CatAbility => {| s_ability := None; s_tier := s_tier s; s_color := s_color s;
                       s_gen := s_gen s; s_moves := s_moves s; s_types := s_types s |}
    | CatTier => {| s_ability := s_ability s; s_tier := None; s_color := s_color s;
                    s_gen := s_gen s; s_moves := s_moves s; s_types := s_types s |}
    | CatColor => {| s_ability := s_ability s; s_tier := s_tier s; s_color := None;
                     s_gen := s_gen s; s_moves := s_moves s; s_types := s_types s |}
    | CatGen => {| s_ability := s_ability s; s_tier := s_tier s; s_color := s_color s;
                   s_gen := None; s_moves := s_moves s; s_types := s_types s |}
    | CatMoves => {| s_ability := s_ability s; s_tier := s_tier s; s_color := s_color s;
                     s_gen := s_gen s; s_moves := None; s_types := s_types s |}
    | CatTypes => {| s_ability := s_ability s; s_tier := s_tier s; s_color := s_color s;
                     s_gen := s_gen s; s_moves := s_moves s; s_types := None |}
    end.

(** What the types filter asks of a species, in words.  With exactly
    two required values: the species has two types, which are exactly
    the required values.  Otherwise: none of its types is excluded and,
    when some value is required, one of its types is required. *)
Definition typesAsked (m : Obj) (template : Template.t) : Prop :=
  if (countTrue m =? 2)%nat then
    exists a b,
      Template.types template = [a; b]
      /\ forall k, lookup m k = Some true <-> (k = a \/ k = b)
  else
    (forall t, In t (Template.types template) -> lookup m t <> Some false)
    /\ (0 < countTrue m ->
        exists t, In t (Template.types template) /\ lookup m t = Some true).

(** No token has stored the key undefined in the types object. *)
Definition typesClean (st : Vars) : Prop :=
  forall m, s_types (searches st) = Some m -> lookup m "undefined" = None.

(** A species has one type, or two different ones. *)
Definition wellTyped (template : Template.t) : Prop :=
  match Template.types template with
  | [a] => True
  | [a; b] => a <> b
  | _ => False
  end.

(** ** A small catalog to run the command on *)
Module Examples.

Definition template (id species baseSpecies tier : string)
    (types evos : list string) (prevo : string)
    (learnset : option (list string)) : Template.t :=
  {| Template.id := id; Template.species := species;
     Template.baseSpecies := baseSpecies; Template.tier := tier;
     Template.types := types; Template.evos := evos; Template.prevo := prevo;
     Template.isMega := false; Template.gen := 1; Template.color := "Green";
     Template.abilities := ["Overgrow"]; Template.learnset := learnset |}.

(** What getTemplate answers for a name it does not know. *)
Definition unknown (name : string) : Template.t :=
  template name name name "" [] [] "" None.

Fixpoint find (name : string) (l : list Template.t) : Template.t :=
  match l with
  | [] => unknown name
  | t :: l' =>
      if (Template.id t =? name) || (Template.species t =? name) then t
      else find name l'
  end.

Definition moveNamed (known : list (string * string)) (name : string) : Move.t :=
  match filter (fun m => (fst m =? name) || (snd m =? name)) known with
  | m :: _ => {| Move.exists_ := true; Move.id := fst m; Move.name := snd m |}
  | [] => {| Move.exists_ := false; Move.id := name; Move.name := name |}
  end.

Definition noAbility (name : string) : Ability.t :=
  {| Ability.exists_ := false; Ability.name := name |}.

Definition tools (l : list Template.t) : Tools :=
  {| Pokedex := map Template.id l;
     TypeChart := ["Fire"; "Water"; "Grass"; "Steel"; "Dark"; "Flying"];
     lcBanlist := ["Scyther"];
     getTemplate := fun name => find name l;
     getMove := moveNamed [("tackle", "Tackle"); ("spore", "Spore")];
     getAbility := noAbility |}.

Definition noShuffle (l : list string) : list string := l.

(** Ferroseed passes the LC criteria of line 508 and is stored in NU. *)
Definition ferroseed : Template.t :=
  template "ferroseed" "Ferroseed" "Ferroseed" "NU" ["Grass"; "Steel"]
    ["ferrothorn"] "" (Some ["tackle"]).

Definition ferrothorn : Template.t :=
  template "ferrothorn" "Ferrothorn" "Ferrothorn" "OU" ["Grass"; "Steel"]
    [] "ferroseed" (Some []).

Definition steelCatalog : Tools := tools [ferroseed; ferrothorn].

(** An evolution with a learnset whose prevolution has none. *)
Definition tyrunt : Template.t :=
  template "tyrunt" "Tyrunt" "Tyrunt" "LC" ["Dark"] ["tyrantrum"] "" None.

Definition tyrantrum : Template.t :=
  template "tyrantrum" "Tyrantrum" "Tyrantrum" "OU" ["Dark"] [] "tyrunt"
    (Some ["spore"]).

Definition fossilCatalog : Tools := tools [tyrantrum; tyrunt].

(** Entries that the scan of the catalog leaves out. *)
Definition bulbasaur : Template.t :=
  template "bulbasaur" "Bulbasaur" "Bulbasaur" "LC" ["Grass"] ["ivysaur"] ""
    (Some ["tackle"]).

Definition ivysaur : Template.t :=
  template "ivysaur" "Ivysaur" "Ivysaur" "NFE" ["Grass"] ["venusaur"]
    "bulbasaur" (Some []).

Definition syclant : Template.t :=
  template "syclant" "Syclant" "Syclant" "CAP" ["Water"] [] "" (Some []).

Definition missingno : Template.t :=
  template "missingno" "Missingno." "Missingno." "Illegal" ["Flying"] [] ""
    (Some []).

Definition floette : Template.t :=
  template "floetteeternalflower" "Floette-Eternal-Flower" "Floette"
    "Unreleased" ["Fire"] [] "" (Some []).

Definition mixedCatalog : Tools :=
  tools [bulbasaur; ivysaur; syclant; missingno; floette].

(** A species without a learnset, which is its own base species. *)
Definition egg : Template.t :=
  template "egg" "Egg" "Egg" "OU" ["Water"] [] "" None.

Definition eggCatalog : Tools := tools [egg; bulbasaur].

(** Eleven single-stage species of one tier. *)
Definition single (name : string) : Template.t :=
  template name name name "OU" ["Fire"] [] "" (Some []).

Definition elevenNames : list string :=
  ["a"; "b"; "c"; "d"; "e"; "f"; "g"; "h"; "i"; "j"; "k"].

Definition elevenCatalog : Tools := tools (map single elevenNames).

End Examples.

(** ** The claims of the specification in its own words

    The wording of the specification turned into definitions, to be
    compared with the ones taken from the source. *)
Module SpecWords.

Section Learnability.

Variable T : Tools.

Definition learnsetHas (link : Template.t) (moveid : string) : bool :=
  match Template.learnset link with
  | Some ls => JS.includes moveid ls
  | None => false
  end.

(** Starting at the species, step to the prevolution while the
    current link has a prevolution and its learnset lacks the move. *)
Fixpoint terminalLink (fuel : nat) (moveid : string) (link : Template.t)
    : option Template.t :=
  match fuel with
  | O => None
  | S fuel' =>
      if JS.truthy (Template.prevo link) && negb (learnsetHas link moveid)
      then terminalLink fuel' moveid (getTemplate T (Template.prevo link))
      else Some link
  end.

(** The species can learn the move iff the learnset of the terminal
    link contains the move, or grants sketch and the move is not one
    of the three excluded ones. *)
Definition canLearn (fuel : nat) (species : Template.t) (moveid : string)
    : option bool :=
  match terminalLink fuel moveid species with
  | Some last =>
      Some (learnsetHas last moveid
            || (learnsetHas last "sketch"
                && negb (JS.includes moveid notSketchable)))
  | None => None
  end.

(** The species is removed iff it cannot learn a move with polarity
    true or can learn a move with polarity false. *)
Fixpoint removed (fuel : nat) (moves : Obj) (species : Template.t)
    : option bool :=
  match moves with
  | [] => Some false
  | (i, polarity) :: moves' =>
      match canLearn fuel species (Move.id (getMove T i)),
            removed fuel moves' species with
      | Some can, Some r => Some (negb (Bool.eqb can polarity) || r)
      | _, _ => None
      end
  end.

End Learnability.

End SpecWords.

(** ** What a token asks for

    The conditions of the branches of [processTarget], without their
    bodies: the slot a token constrains and the polarity flag it carries. *)
Inductive Slot :=
| InCategory (c : Category) (key : string)
| MegaFlag
| FullyEvolvedFlag.

Inductive TokenClass :=
| Constrains (s : Slot) (isNotSearch : bool)
| AllKeyword
| Unrecognised (target : string).

Definition classify (T : Tools) (raw : string) : TokenClass :=
  let target := JS.toLowerCase (JS.trim raw) in
  let isNotSearch := JS.slice 0 1 target =? "!" in
  let target := if isNotSearch then JS.sliceFrom 1 target else target in
  if Ability.exists_ (getAbility T raw) then
    Constrains (InCategory CatAbility (Ability.name (getAbility T raw))) isNotSearch
  else if JS.isIn target allTiers then
    Constrains (InCategory CatTier target) isNotSearch
  else if JS.isIn target allColours then
    Constrains (InCategory CatColor target) isNotSearch
  else if match JS.parseInt target with
          | Some targetInt => (0 <? targetInt)%Z && (targetInt <? 7)%Z
          | None => false
          end then
    Constrains (InCategory CatGen target) isNotSearch
  else if target =? "all" then AllKeyword
  else if (target =? "megas") || (target =? "mega") then
    Constrains MegaFlag isNotSearch
  else if (target =? "fe") || (target =? "fullyevolved")
          || (target =? "nfe") || (target =? "notfullyevolved") then
    Constrains FullyEvolvedFlag
      (if (target =? "nfe") || (target =? "notfullyevolved")
       then negb isNotSearch else isNotSearch)
  else if Move.exists_ (getMove T target) then
    Constrains (InCategory CatMoves (Move.name (getMove T target))) isNotSearch
  else
    match JS.indexOf " type" target with
    | Some i =>
        let target :=
          (JS.toUpperCase (JS.charAt 0 target) ++ JS.slice 1 i target)%string in
        if JS.isIn target (TypeChart T) then
          Constrains (InCategory CatTypes target) isNotSearch
        else Unrecognised target
    | None => Unrecognised target
    end.

(** The polarity currently stored for a slot. *)
Definition polarity (st : Vars) (s : Slot) : option bool :=
  match s with
  | InCategory c key =>
      match category (searches st) c with
      | Some m => lookup m key
      | None => None
      end
  | MegaFlag => megaSearch st
  | FullyEvolvedFlag => feSearch st
  end.

(** What a read of the slot gives to the conflict test: the stored
    polarity or, for a key that names a member of Object.prototype and
    holds no polarity, that member. *)
Definition seen (st : Vars) (s : Slot) : option bool :=
  match s with
  | InCategory c key =>
      read (match category (searches st) c with Some m => m | None => [] end) key
  | MegaFlag => megaSearch st
  | FullyEvolvedFlag => feSearch st
  end.

Definition subject (s : Slot) : Subject :=
  match s with
  | InCategory c _ => OfCategory c
  | MegaFlag => MegaEvolutions
  | FullyEvolvedFlag => FullyEvolved
  end.

(** The body of the branch of [processTarget] that handles a slot. *)
Definition constrain (st : Vars) (s : Slot) (isNotSearch : bool) : Outcome Vars :=
  match s with
  | InCategory c key => addSearch st c key isNotSearch
  | MegaFlag =>
      if clash (megaSearch st) isNotSearch then reply (CannotBoth MegaEvolutions)
      else Normal {| searches := searches st; showAll := showAll st;
                     megaSearch := Some (negb isNotSearch); feSearch := feSearch st |}
  | FullyEvolvedFlag =>
      if clash (feSearch st) isNotSearch then reply (CannotBoth FullyEvolved)
      else Normal {| searches := searches st; showAll := showAll st;
                     megaSearch := megaSearch st; feSearch := Some (negb isNotSearch) |}
  end.

(** The message a token gets when its slot already holds the opposite
    polarity: the cap message when the token is a required value and
    the cap of its category is reached, the conflict message otherwise. *)
Definition refusal (st : Vars) (s : Slot) (isNotSearch : bool) : Message :=
  match s with
  | InCategory c _ =>
      match capReached c
              (match category (searches st) c with Some m => m | None => [] end)
              isNotSearch with
      | Some msg => msg
      | None => CannotBoth (OfCategory c)
      end
  | _ => CannotBoth (subject s)
  end.

(** The replies that end the command before the catalog is scanned. *)
Definition rejection (m : Message) : bool :=
  match m with
  | Listing _ | Sample _ _ | NoPokemonFound | NotAKnownMove _ => false
  | _ => true
  end.

(** The names a reply shows. *)
Definition shown (m : Message) : list string :=
  match m with
  | Listing l | Sample l _ => l
  | _ => []
  end.


(** ** What the pipeline keeps *)

(** The body of the moves loop as a test: the entry stays when the body
    completes without deleting it. *)
Definition movesKeepB (T : Tools) (fuel : nat) (m : Obj) (mon : Template.t) : bool :=
  match movesKeep T fuel m mon with
  | Normal keep => keep
  | Abrupt _ => false
  end.

(** An entry passes the scan and every category that a token created. *)
Definition matches (T : Tools) (fuel : nat) (st : Vars) (mon : Template.t) : bool :=
  admitted st mon
  && match s_moves (searches st) with
     | Some m => movesKeepB T fuel m mon
     | None => true
     end
  && match s_types (searches st) with
     | Some m => typesKeep m mon
     | None => true
     end
  && match s_ability (searches st) with
     | Some m => abilityKeep m mon
     | None => true
     end
  && match s_tier (searches st) with
     | Some m => tierKeep T m mon
     | None => true
     end
  && match s_gen (searches st) with
     | Some m => valueKeep m (JS.ofNumber (Template.gen mon))
     | None => true
     end
  && match s_color (searches st) with
     | Some m => valueKeep m (Template.color mon)
     | None => true
     end.

(** Whether the loop of one category leaves the entry in [dex]; a
    category that no token created deletes nothing. *)
Definition keptBy (T : Tools) (fuel : nat) (st : Vars) (c : Category)
    (mon : Template.t) : bool :=
  match c, category (searches st) c with
  | _, None => true
  | CatMoves, Some m => movesKeepB T fuel m mon
  | CatTypes, Some m => typesKeep m mon
  | CatAbility, Some m => abilityKeep m mon
  | CatTier, Some m => tierKeep T m mon
  | CatGen, Some m => valueKeep m (JS.ofNumber (Template.gen mon))
  | CatColor, Some m => valueKeep m (Template.color mon)
  end.

(** The same request with the opposite polarity flag. *)
Definition negated (c : TokenClass) : TokenClass :=
  match c with
  | Constrains s isNotSearch => Constrains s (negb isNotSearch)
  | AllKeyword => AllKeyword
  | Unrecognised target => Unrecognised target
  end.

(** The caps of line 405, 457 and 467 hold in the predicate set. *)
Definition withinCaps (st : Vars) : Prop :=
  forall c n msg m,
    cap c = Some (n, msg) -> category (searches st) c = Some m -> countTrue m <= n.

(** Every key of the moves object is the name of a move that exists. *)
Definition movesNamed (T : Tools) (st : Vars) : Prop :=
  forall m key,
    s_moves (searches st) = Some m -> In key (map fst m) ->
    exists target,
      Move.exists_ (getMove T target) = true
      /\ key = Move.name (getMove T target).

(** ** A catalog with abilities *)
Module Samples.

(** Lower case letters and digits of a name, the way the lookups of the
    server normalise what they are given. *)
Fixpoint toId (s : string) : string :=
  match s with
  | EmptyString => EmptyString
  | String c s' =>
      let n := nat_of_ascii (JS.lowerChar c) in
      if ((97 <=? n)%nat && (n <=? 122)%nat) || ((48 <=? n)%nat && (n <=? 57)%nat)
      then String (JS.lowerChar c) (toId s')
      else toId s'
  end.

Definition abilityNamed (known : list string) (name : string) : Ability.t :=
  match filter (fun a => toId a =? toId name) known with
  | a :: _ => {| Ability.exists_ := true; Ability.name := a |}
  | [] => {| Ability.exists_ := false; Ability.name := name |}
  end.

Definition floating (name types : string) (ability : string) : Template.t :=
  {| Template.id := toId name; Template.species := name;
     Template.baseSpecies := name; Template.tier := "OU";
     Template.types := [types]; Template.evos := []; Template.prevo := "";
     Template.isMega := false; Template.gen := 4; Template.color := "Purple";
     Template.abilities := [ability]; Template.learnset := Some ["tackle"] |}.

Definition ghosts : list Template.t :=
  [floating "Gengar" "Dark" "Levitate"; floating "Rotom" "Steel" "Levitate";
   floating "Azelf" "Fire" "Levitate"; floating "Mismagius" "Dark" "Levitate";
   floating "Bronzong" "Steel" "Heatproof"].

Definition tools : Tools :=
  {| Pokedex := map Template.id ghosts;
     TypeChart := ["Fire"; "Water"; "Grass"; "Steel"; "Dark"; "Flying"];
     lcBanlist := [];
     getTemplate := fun name => Examples.find name ghosts;
     getMove := Examples.moveNamed [("tackle", "Tackle"); ("spore", "Spore")];
     getAbility := abilityNamed ["Levitate"; "Heatproof"] |}.

(** The same catalog, with a lookup of abilities that answers the name
    __proto__ for the text x. *)
Definition odd : Tools :=
  {| Pokedex := Pokedex tools;
     TypeChart := TypeChart tools;
     lcBanlist := lcBanlist tools;
     getTemplate := getTemplate tools;
     getMove := getMove tools;
     getAbility := fun name =>
       if (name =? "x")%string
       then {| Ability.exists_ := true; Ability.name := "__proto__" |}
       else getAbility tools name |}.

End Samples.

(** ** The candidates of a query *)

(** The entries of the catalog, as the scan of line 479 visits them. *)
Definition entries (T : Tools) : Dex :=
  map (fun pokemon => (pokemon, getTemplate T pokemon)) (Pokedex T).

(** The entries that pass the scan and every category of the query. *)
Definition candidates (T : Tools) (fuel : nat) (st : Vars) : Dex :=
  filter (fun entry => matches T fuel st (snd entry)) (entries T).

(** Ascending order of the default comparison of sort. *)
Definition ascending (a b : string) : Prop := String.leb a b = true.

(** ** Catalogs on which the moves filter cannot fail *)

(** Looking a move up by the name of a move that exists finds a move. *)
Definition movesStable (T : Tools) : Prop :=
  forall target,
    Move.exists_ (getMove T target) = true ->
    Move.exists_ (getMove T (Move.name (getMove T target))) = true.

(** The prevolution of a template that has a learnset has a learnset,
    and looking a template up by its id does not lose its learnset. *)
Definition learnsetsComplete (T : Tools) : Prop :=
  (forall k,
      Template.learnset (getTemplate T k) <> None ->
      JS.truthy (Template.prevo (getTemplate T k)) = true ->
      Template.learnset (getTemplate T (Template.prevo (getTemplate T k)))
      <> None)
  /\ (forall k,
        Template.learnset (getTemplate T k) <> None ->
        Template.learnset (getTemplate T (Template.id (getTemplate T k)))
        <> None).

(** The families of the ids that the lookup of templates answers with
    are finite: their keys with a prevolution belong to [universe]. *)
Definition chainsWithin (T : Tools) (universe : list string) : Prop :=
  forall x : string,
    ancestorsWithin T universe (Template.id (getTemplate T x)).

(** ** Decimal texts *)

Definition isDecimal (c : ascii) : bool :=
  let n := nat_of_ascii c in (48 <=? n)%nat && (n <=? 57)%nat.

Fixpoint allDecimal (s : string) : bool :=
  match s with
  | EmptyString => true
  | String c s' => isDecimal c && allDecimal s'
  end.

(** * Other commands of the file *)

(** ** Colour codes: toHex, rgbToHex and the hex command *)
Module Colours.

(** toHex(e), for an argument that is null or undefined ([None]) or an
    integer below 10^21 in absolute value, whose string is its decimal
    text.  Math.round leaves the integer as it is. *)
Definition toHex (e : option Z) : string :=
  match e with
  | None => "00"                                 (* e == null *)
  | Some e =>
      match JS.parseInt (JS.ofNumber e) with     (* e = parseInt(e) *)
      | None => "00"                             (* isNaN(e) *)
      | Some e =>
          if (e =? 0)%Z then "00"
          else
            let e := Z.max 0 e in
            let e := Z.min e 255 in
            (JS.charAt (Z.to_nat ((e - Z.rem e 16) / 16)) "0123456789ABCDEF"
             ++ JS.charAt (Z.to_nat (Z.rem e 16)) "0123456789ABCDEF")%string
      end
  end.

Definition rgbToHex (e t n : option Z) : string :=
  (toHex e ++ toHex t ++ toHex n)%string.

(** [0-9A-F] under the flag i *)
Definition isHexDigit (c : ascii) : bool :=
  let n := nat_of_ascii c in
  ((48 <=? n)%nat && (n <=? 57)%nat)
  || ((65 <=? n)%nat && (n <=? 70)%nat)
  || ((97 <=? n)%nat && (n <=? 102)%nat).

Fixpoint allHexDigits (s : string) : bool :=
  match s with
  | EmptyString => true
  | String c s' => isHexDigit c && allHexDigits s'
  end.

(** /^#[0-9A-F]{6}$/i.test(target) *)
Definition verify (target : string) : bool :=
  match target with
  | String "#"%char digits => (String.length digits =? 6)%nat && allHexDigits digits
  | _ => false
  end.

Inductive Reply :=
| OwnColour (code : string)      (* Your name's hexcode is: ... *)
| IncludeHash                    (* Please include the '#' symbol *)
| ShowColour (target : string)   (* the target, written in its colour *)
| NoValidColour.                 (* Could not find a valid color ... *)

(** The hex command, once this.canBroadcast() has let it through;
    [ownCode] is hashColor(toId(user.name)). *)
Definition hex (ownCode : string) (target : string) : Reply :=
  if negb (JS.truthy target) then OwnColour ownCode
  else
    match JS.indexOf "#" target with
    | None => IncludeHash
    | Some _ => if verify target then ShowColour target else NoValidColour
    end.

(** The value of a byte, clamped as toHex clamps it. *)
Definition clamp (e : Z) : Z := Z.min (Z.max 0 e) 255.

End Colours.

(** ** The smogdex command: generation and link names *)
Module Smogdex.

(** (targets[1] || 'xy').trim().toLowerCase(), line 1200; [None] when
    the target has no second part. *)
Definition generationText (second : option string) : string :=
  JS.toLowerCase
    (JS.trim match second with
             | Some s => if JS.truthy s then s else "xy"
             | None => "xy"
             end).

(** The generation code and number chosen by lines 1201-1225. *)
Definition generation (text : string) : string * Z :=
  if (text =? "xy") || (text =? "xy") || (text =? "6") || (text =? "six")
  then ("xy", 6%Z)
  else if (text =? "bw") || (text =? "bw2") || (text =? "5") || (text =? "five")
  then ("bw", 5%Z)
  else if (text =? "dp") || (text =? "dpp") || (text =? "4") || (text =? "four")
  then ("dp", 4%Z)
  else if (text =? "adv") || (text =? "rse") || (text =? "rs") || (text =? "3")
          || (text =? "three")
  then ("rs", 3%Z)
  else if (text =? "gsc") || (text =? "gs") || (text =? "2") || (text =? "two")
  then ("gs", 2%Z)
  else if (text =? "rby") || (text =? "rb") || (text =? "1") || (text =? "one")
  then ("rb", 1%Z)
  else ("xy", 6%Z).

(** [a-z0-9\-\_] *)
Definition isLinkChar (c : ascii) : bool :=
  let n := nat_of_ascii c in
  ((97 <=? n)%nat && (n <=? 122)%nat) || ((48 <=? n)%nat && (n <=? 57)%nat)
  || (n =? 45)%nat || (n =? 95)%nat.

(** s.replace(/\ /g, '_') *)
Fixpoint replaceSpaces (s : string) : string :=
  match s with
  | EmptyString => EmptyString
  | String c s' =>
      String (if Ascii.eqb c " " then "_"%char else c) (replaceSpaces s')
  end.

(** s.replace(/[^a-z0-9\-\_]+/g, '') *)
Fixpoint removeOthers (s : string) : string :=
  match s with
  | EmptyString => EmptyString
  | String c s' =>
      if isLinkChar c then String c (removeOthers s') else removeOthers s'
  end.

(** The name of a species in its link, line 1247. *)
Definition pokemonLink (name : string) : string :=
  removeOthers (replaceSpaces (JS.toLowerCase name)).

(** s.replace(' ', '_'): the first space only. *)
Fixpoint replaceFirstSpace (s : string) : string :=
  match s with
  | EmptyString => EmptyString
  | String c s' =>
      if Ascii.eqb c " " then String "_" s' else String c (replaceFirstSpace s')
  end.

(** The name of an item, ability or move in its link, lines 1255, 1262
    and 1269. *)
Definition nameLink (name : string) : string :=
  replaceFirstSpace (JS.toLowerCase name).

Fixpoint allLinkChars (s : string) : bool :=
  match s with
  | EmptyString => true
  | String c s' => isLinkChar c && allLinkChars s'
  end.

Fixpoint spaces (s : string) : nat :=
  match s with
  | EmptyString => 0
  | String c s' => (if Ascii.eqb c " " then 1 else 0) + spaces s'
  end.

End Smogdex.

(** ** The rules command *)
Module Rules.

(** The fields of the room that the command reads and writes.  An unset
    rulesLink is the empty string; [chatRoomData] is the rulesLink of
    room.chatRoomData when the room has chat room data. *)
Record Room := {
  rulesLink : string;
  title : string;
  chatRoomData : option string
}.

Inductive Reply :=
| PleaseFollow (roomRules : option (string * string))
    (* Please follow the rules: the link and title of the room rules,
       if any, and the global rules *)
| TooLong
    (* Error: Room rules link is too long (must be under 80 characters). *)
| LinkIsNow (target : string).
    (* (The room rules link is now: target) *)

Record Result := {
  reply : option Reply;
  room : Room;
  written : bool          (* Rooms.global.writeChatRoomData() was called *)
}.

(** [canBroadcast] and [canRoommod] are the answers of
    this.canBroadcast() and this.can('roommod', null, room). *)
Definition rules (canBroadcast canRoommod : bool) (r : Room) (target : string)
    : Result :=
  if negb (JS.truthy target) then
    if negb canBroadcast then {| reply := None; room := r; written := false |}
    else
      {| reply := Some (PleaseFollow
                          (if JS.truthy (rulesLink r)
                           then Some (rulesLink r, title r) else None));
         room := r; written := false |}
  else if negb canRoommod then {| reply := None; room := r; written := false |}
  else if (80 <? String.length target)%nat then
    {| reply := Some TooLong; room := r; written := false |}
  else
    let link := JS.trim target in
    match chatRoomData r with
    | Some _ =>
        {| reply := Some (LinkIsNow target);
           room := {| rulesLink := link; title := title r;
                      chatRoomData := Some link |};
           written := true |}
    | None =>
        {| reply := Some (LinkIsNow target);
           room := {| rulesLink := link; title := title r;
                      chatRoomData := None |};
           written := false |}
    end.

(** The link is short enough and the chat room data, if any, agree
    with it. *)
Definition consistent (r : Room) : Prop :=
  String.length (rulesLink r) <= 80
  /\ (forall saved, chatRoomData r = Some saved -> saved = rulesLink r).

End Rules.

(** ** The data command: the power of weight based moves *)
Module Data.

(** The value of weighthit chosen by lines 299-311 for pokemon.weightkg;
    [None] is a missing weight, for which every comparison fails. *)
Definition weighthit (weightkg : option QArith_base.Q) : Z :=
  let atLeast (bound : Z) (w : QArith_base.Q) :=
    QArith_base.Qle_bool (QArith_base.inject_Z bound) w in
  (match weightkg with
   | None => 20
   | Some w =>
       if atLeast 200 w then 120
       else if atLeast 100 w then 100
       else if atLeast 50 w then 80
       else if atLeast 25 w then 60
       else if atLeast 10 w then 40
       else 20
   end)%Z.

End Data.

(** ** The effectiveness command *)
Module Effectiveness.

(** What Tools.getType, Tools.getMove and Tools.getTemplate return, with
    the fields the command reads.  A type has neither a type nor a types
    field; a species has its array of types. *)
Record TypeData := { t_exists : bool; t_id : string }.

Record MoveData := {
  m_exists : bool;
  m_id : string;
  m_name : string;
  m_type : string;
  m_effectType : string;
  m_basePower : Z;
  m_basePowerCallback : bool     (* whether the field is set *)
}.

Record SpeciesData := {
  s_exists : bool;
  s_id : string;
  s_species : string;
  s_types : list string
}.

Inductive Method := GetType | GetMove | GetTemplate.

Inductive Found :=
| FoundType (t : TypeData)
| FoundMove (m : MoveData)
| FoundSpecies (p : SpeciesData).

(** source: a move, or the id of what was found *)
Inductive Source := TheMove (m : MoveData) | TheId (id : string).

(** defender: a species, or an object made of one type *)
Inductive Defender := TheSpecies (p : SpeciesData) | OfTypes (types : list string).

Record Lookups := {
  getType : string -> TypeData;
  getMove : string -> MoveData;
  getTemplate : string -> SpeciesData;
  getImmunity : Source -> option Defender -> bool;
  getEffectiveness : Source -> option Defender -> Z
}.

Definition searchMethods : list Method := [GetType; GetMove; GetTemplate].
Definition sourceMethods : list Method := [GetType; GetMove].
Definition targetMethods : list Method := [GetType; GetTemplate].

Definition methodIn (m : Method) (l : list Method) : bool :=
  existsb (fun m' => match m, m' with
                     | GetType, GetType | GetMove, GetMove
                     | GetTemplate, GetTemplate => true
                     | _, _ => false
                     end) l.

Definition call (L : Lookups) (method : Method) (name : string) : Found :=
  match method with
  | GetType => FoundType (getType L name)
  | GetMove => FoundMove (getMove L name)
  | GetTemplate => FoundSpecies (getTemplate L name)
  end.

Definition exists_ (f : Found) : bool :=
  match f with
  | FoundType t => t_exists t
  | FoundMove m => m_exists m
  | FoundSpecies p => s_exists p
  end.

Definition idOf (f : Found) : string :=
  match f with
  | FoundType t => t_id t
  | FoundMove m => m_id m
  | FoundSpecies p => s_id p
  end.

(** for (var method in searchMethods): the method and the data at the
    break, or the last ones tried. *)
Fixpoint search (L : Lookups) (methods : list Method) (name : string)
    (last : option (Method * Found)) : option (Method * Found) :=
  match methods with
  | [] => last
  | method :: rest =>
      let foundData := call L method name in
      if exists_ foundData then Some (method, foundData)
      else search L rest name (Some (method, foundData))
  end.

(** The variables of the loop over the two targets. *)
Record Vars := {
  methods : list Method;
  source : option Source;
  atkName : string;
  defender : option Defender;
  defName : string
}.

Definition initial : Vars :=
  {| methods := searchMethods; source := None; atkName := "";
     defender := None; defName := "" |}.

Definition sourceTruthy (s : option Source) : bool :=
  match s with
  | None => false
  | Some (TheMove _) => true
  | Some (TheId id) => JS.truthy id
  end.

Inductive Reply :=
| NeedsComma     (* Attacker and defender must be separated with a comma. *)
| Help           (* this.parse('/help effectiveness') *)
| Silent         (* this.canBroadcast() refused *)
| ThrowsTypeError
| Effective (atkName : string) (exponent : option Z) (defName : string).
    (* atkName is FACTORx effective against defName, where the factor
       is 0 for [None] and 2 to the power k for [Some k] *)

(** One round of the loop of lines 701-726; [None] is the return of
    line 706. *)
Definition round (L : Lookups) (st : Vars) (name : string) : option Vars :=
  match search L (methods st) name None with
  | None => None
  | Some (method, foundData) =>
      if negb (exists_ foundData) then None
      else if negb (sourceTruthy (source st)) && methodIn method sourceMethods then
        match foundData with
        | FoundMove m =>
            if JS.truthy (m_type m) then
              Some {| methods := targetMethods; source := Some (TheMove m);
                      atkName := m_name m;
                      defender := defender st; defName := defName st |}
            else
              Some {| methods := targetMethods; source := Some (TheId (m_id m));
                      atkName := m_id m;
                      defender := defender st; defName := defName st |}
        | _ =>
            Some {| methods := targetMethods;
                    source := Some (TheId (idOf foundData));
                    atkName := idOf foundData;
                    defender := defender st; defName := defName st |}
        end
      else if match defender st with None => true | Some _ => false end
              && methodIn method targetMethods then
        match foundData with
        | FoundSpecies p =>
            Some {| methods := sourceMethods; source := source st;
                    atkName := atkName st;
                    defender := Some (TheSpecies p);
                    defName := (s_species p ++ " (not counting abilities)")%string |}
        | _ =>
            Some {| methods := sourceMethods; source := source st;
                    atkName := atkName st;
                    defender := Some (OfTypes [idOf foundData]);
                    defName := idOf foundData |}
        end
      else Some st
  end.

(** Lines 730-739. *)
Definition factor (L : Lookups) (st : Vars) : Reply :=
  match source st with
  | None => ThrowsTypeError                       (* source.type *)
  | Some src =>
      let immunityOf :=                            (* source.type || source *)
        match src with
        | TheMove m => if JS.truthy (m_type m) then TheId (m_type m) else src
        | TheId _ => src
        end in
      let exponent :=
        if getImmunity L immunityOf (defender st) then
          match src with
          | TheMove m =>
              if negb (m_effectType m =? "Move") || negb (m_basePower m =? 0)%Z
                 || m_basePowerCallback m
              then Some (getEffectiveness L src (defender st))
              else Some 0%Z
          | TheId _ => Some (getEffectiveness L src (defender st))
          end
        else None in
      Effective (atkName st) exponent (defName st)
  end.

(** target.split(/[,/]/) *)
Fixpoint splitParts (s : string) : list string :=
  match s with
  | EmptyString => [EmptyString]
  | String c s' =>
      if (Ascii.eqb c "," || Ascii.eqb c "/")%bool then EmptyString :: splitParts s'
      else match splitParts s' with
           | h :: t => String c h :: t
           | [] => [String c EmptyString]
           end
  end.

(** The two rounds on the parts kept by slice(0, 2), then the reply. *)
Definition onParts (L : Lookups) (canBroadcast : bool) (targets : list string)
    : Reply :=
  match targets with
  | [first; second] =>
      match round L initial first with
      | None => Help
      | Some st =>
          match round L st second with
          | None => Help
          | Some st' => if negb canBroadcast then Silent else factor L st'
          end
      end
  | _ => NeedsComma
  end.

Definition effectiveness (L : Lookups) (canBroadcast : bool) (target : string)
    : Reply :=
  onParts L canBroadcast (firstn 2 (splitParts target)).

(** A name that only the lookup of species knows. *)
Definition speciesOnly (L : Lookups) (name : string) : Prop :=
  t_exists (getType L name) = false
  /\ m_exists (getMove L name) = false
  /\ s_exists (getTemplate L name) = true.

(** A text without a comma or a slash. *)
Fixpoint onePart (s : string) : bool :=
  match s with
  | EmptyString => true
  | String c s' => negb (Ascii.eqb c "," || Ascii.eqb c "/") && onePart s'
  end.

End Effectiveness.

(** A small chart for the effectiveness command: the types Fire and Water,
    the move Ember and the species Vulpix. *)
Module Chart.
Import Effectiveness.

Definition typeNamed (name : string) : TypeData :=
  if (name =? "fire")%string || (name =? "water")%string
  then {| t_exists := true; t_id := name |}
  else {| t_exists := false; t_id := name |}.

Definition moveNamed (name : string) : MoveData :=
  if (name =? "ember")%string
  then {| m_exists := true; m_id := "ember"; m_name := "Ember";
          m_type := "Fire"; m_effectType := "Move"; m_basePower := 40;
          m_basePowerCallback := false |}
  else {| m_exists := false; m_id := name; m_name := name; m_type := "";
          m_effectType := "Move"; m_basePower := 0;
          m_basePowerCallback := false |}.

Definition speciesNamed (name : string) : SpeciesData :=
  if (name =? "vulpix")%string
  then {| s_exists := true; s_id := "vulpix"; s_species := "Vulpix";
          s_types := ["Fire"] |}
  else {| s_exists := false; s_id := name; s_species := name; s_types := [] |}.

Definition typeOf (s : Source) : string :=
  match s with
  | TheMove m => JS.toLowerCase (m_type m)
  | TheId id => JS.toLowerCase id
  end.

Definition typesOf (d : option Defender) : list string :=
  match d with
  | Some (TheSpecies p) => map JS.toLowerCase (s_types p)
  | Some (OfTypes l) => map JS.toLowerCase l
  | None => []
  end.

Definition against (atk def : string) : Z :=
  if ((atk =? "fire") && (def =? "fire"))%string then (-1)
  else if ((atk =? "fire") && (def =? "water"))%string then (-1)
  else if ((atk =? "water") && (def =? "fire"))%string then 1
  else if ((atk =? "water") && (def =? "water"))%string then (-1)
  else 0.

Definition lookups : Lookups :=
  {| getType := typeNamed;
     getMove := moveNamed;
     getTemplate := speciesNamed;
     getImmunity := fun _ _ => true;
     getEffectiveness := fun s d =>
       fold_right (fun t acc => (against (typeOf s) t + acc)%Z) 0%Z (typesOf d) |}.

End Chart.
(** ** Predicate objects: lemmas *)

Lemma lookup_set_same (m : Obj) (k : string) (v : bool) :
  lookup (set m k v) k = Some v.
Proof.
  induction m as [|[k' v'] m IH]; simpl.
  - now rewrite String.eqb_refl.
  - destruct (k' =? k) eqn:E; simpl; rewrite E; auto.
Qed.

Lemma lookup_set_other (m : Obj) (k k' : string) (v : bool) :
  k <> k' -> lookup (set m k v) k' = lookup m k'.
Proof.
  intros Hne. induction m as [|[k0 v0] m IH]; simpl.
  - apply String.eqb_neq in Hne. now rewrite Hne.
  - destruct (k0 =? k) eqn:E; simpl.
    + apply String.eqb_eq in E. subst k0.
      apply String.eqb_neq in Hne. now rewrite Hne.
    + destruct (k0 =? k'); auto.
Qed.

Lemma set_keys (m : Obj) (k : string) (v : bool) (x : string) :
  In x (map fst (set m k v)) <-> x = k \/ In x (map fst m).
Proof.
  induction m as [|[k0 v0] m IH]; simpl.
  - intuition.
  - destruct (k0 =? k) eqn:E; simpl.
    + apply String.eqb_eq in E. subst. intuition.
    + rewrite IH. intuition.
Qed.

Lemma set_NoDup (m : Obj) (k : string) (v : bool) :
  NoDup (map fst m) -> NoDup (map fst (set m k v)).
Proof.
  induction m as [|[k0 v0] m IH]; simpl; intros H.
  - constructor; [intros [] | constructor].
  - inversion H as [|? ? Hn Hd]; subst.
    destruct (k0 =? k) eqn:E; simpl.
    + constructor; assumption.
    + constructor; auto. rewrite set_keys. intros [->|Hin]; auto.
      now rewrite String.eqb_refl in E.
Qed.

Lemma lookup_In (m : Obj) (k : string) (v : bool) :
  lookup m k = Some v -> In (k, v) m.
Proof.
  induction m as [|[k0 v0] m IH]; simpl; [discriminate|].
  destruct (k0 =? k) eqn:E.
  - apply String.eqb_eq in E. intros [= ->]. subst. now left.
  - auto.
Qed.

Lemma In_lookup (m : Obj) (k : string) (v : bool) :
  NoDup (map fst m) -> In (k, v) m -> lookup m k = Some v.
Proof.
  induction m as [|[k0 v0] m IH]; simpl; intros Hd Hin; [contradiction|].
  inversion Hd as [|? ? Hn Hd']; subst.
  destruct Hin as [[= -> ->]|Hin].
  - now rewrite String.eqb_refl.
  - destruct (k0 =? k) eqn:E; auto.
    apply String.eqb_eq in E. subst k0.
    exfalso. apply Hn. change k with (fst (k, v)). now apply in_map.
Qed.

Lemma lookup_None_keys (m : Obj) (k : string) :
  ~ In k (map fst m) -> lookup m k = None.
Proof.
  induction m as [|[k0 v0] m IH]; simpl; intros H; auto.
  destruct (k0 =? k) eqn:E.
  - apply String.eqb_eq in E. subst. exfalso. auto.
  - auto.
Qed.

Lemma read_own (m : Obj) (k : string) (v : bool) :
  lookup m k = Some v -> read m k = Some v.
Proof. unfold read. now intros ->. Qed.

Lemma read_plain (m : Obj) (k : string) :
  JS.inherited k = false -> read m k = lookup m k.
Proof. unfold read. intros ->. now destruct (lookup m k). Qed.

Lemma read_proto (m : Obj) :
  lookup m "__proto__" = None -> read m "__proto__" = Some true.
Proof. unfold read. now intros ->. Qed.

Lemma read_store_same (m : Obj) (k : string) (v : bool) :
  k <> "__proto__" -> read (store m k v) k = Some v.
Proof.
  intros Hk. unfold read, store. apply String.eqb_neq in Hk. rewrite Hk.
  now rewrite lookup_set_same.
Qed.

Lemma read_store_other (m : Obj) (k k' : string) (v : bool) :
  k <> k' -> read (store m k v) k' = read m k'.
Proof.
  intros Hne. unfold read, store. destruct (k =? "__proto__"); auto.
  now rewrite lookup_set_other.
Qed.

Lemma lookup_store_other (m : Obj) (k k' : string) (v : bool) :
  k <> k' -> lookup (store m k v) k' = lookup m k'.
Proof.
  intros Hne. unfold store. destruct (k =? "__proto__"); auto.
  now apply lookup_set_other.
Qed.

Lemma lookup_store_same (m : Obj) (k : string) (v : bool) :
  k <> "__proto__" -> lookup (store m k v) k = Some v.
Proof.
  intros Hk. unfold store. apply String.eqb_neq in Hk. rewrite Hk.
  apply lookup_set_same.
Qed.

(** A write that is accepted leaves the slot reading as the polarity
    written: a key that reads as a member of Object.prototype is only
    ever accepted as required. *)
Lemma read_store_accepted (m : Obj) (k : string) (n : bool) :
  clash (read m k) n = false -> read (store m k (negb n)) k = Some (negb n).
Proof.
  intros Hc. destruct (String.eqb_spec k "__proto__") as [->|Hk].
  - unfold store. cbn [String.eqb Ascii.eqb Bool.eqb andb].
    unfold read in *. destruct (lookup m "__proto__") as [v|].
    + destruct v, n; cbv in Hc |- *; congruence.
    + change (JS.inherited "__proto__") with true in *.
      destruct n; cbv in Hc |- *; congruence.
  - now apply read_store_same.
Qed.

Lemma Category_eq_dec (c c' : Category) : {c = c'} + {c <> c'}.
Proof. decide equality. Defined.

Lemma clash_spec (v isNotSearch : bool) :
  clash (Some v) isNotSearch = Bool.eqb v isNotSearch.
Proof. now destruct v, isNotSearch. Qed.

Lemma category_setCategory_same (s : Searches) (c : Category) (m : Obj) :
  category (setCategory s c m) c = Some m.
Proof. now destruct c. Qed.

Lemma category_setCategory_other (s : Searches) (c c' : Category) (m : Obj) :
  c <> c' -> category (setCategory s c m) c' = category s c'.
Proof. destruct c, c'; simpl; congruence. Qed.

(** ** The token loop *)

Section LoopFacts.

Variable T : Tools.
Variable broadcasting : bool.

Lemma processTarget_classify (st : Vars) (raw : string) :
  processTarget T broadcasting st raw =
  match classify T raw with
  | Constrains s isNotSearch => constrain st s isNotSearch
  | AllKeyword =>
      if broadcasting then reply AllCannotBroadcast
      else Normal {| searches := searches st; showAll := true;
                     megaSearch := megaSearch st; feSearch := feSearch st |}
  | Unrecognised target => reply (NotFound target)
  end.
Proof.
  unfold processTarget, classify.
  repeat match goal with
         | |- context [if ?c then _ else _] =>
             lazymatch c with
             | broadcasting => fail
             | clash _ _ => fail
             | _ => destruct c eqn:?
             end
         | |- context [match JS.indexOf ?a ?b with _ => _ end] =>
             destruct (JS.indexOf a b) eqn:?
         end; simpl; try reflexivity.
Qed.

Lemma loop_app (st : Vars) (l1 l2 : list string) :
  loop T broadcasting st (l1 ++ l2) =
  (st' <- loop T broadcasting st l1 ;; loop T broadcasting st' l2).
Proof.
  revert st. induction l1 as [|raw l1 IH]; intros st; simpl; auto.
  destruct (processTarget T broadcasting st raw); simpl; auto.
Qed.

Lemma polarity_seen (st : Vars) (s : Slot) (v : bool) :
  polarity st s = Some v -> seen st s = Some v.
Proof.
  destruct s as [c key| |]; simpl; auto.
  destruct (category (searches st) c) as [m|]; [|discriminate].
  apply read_own.
Qed.

(** After a token is accepted, its slot reads as the polarity asked. *)
Lemma constrain_sets (st st' : Vars) (s : Slot) (n : bool) :
  constrain st s n = Normal st' -> seen st' s = Some (negb n).
Proof.
  destruct s as [c key| |]; simpl.
  - unfold addSearch.
    destruct (capReached c _ n); [discriminate|].
    destruct (clash _ n) eqn:Hc; [discriminate|].
    intros [= <-]. simpl.
    rewrite category_setCategory_same. now apply read_store_accepted.
  - destruct (clash _ n); [discriminate|]. now intros [= <-].
  - destruct (clash _ n); [discriminate|]. now intros [= <-].
Qed.

(** It holds that polarity as well, unless its key is __proto__. *)
Lemma constrain_stores (st st' : Vars) (s : Slot) (n : bool) :
  constrain st s n = Normal st' ->
  (forall c, s <> InCategory c "__proto__") ->
  polarity st' s = Some (negb n).
Proof.
  destruct s as [c key| |]; simpl.
  - unfold addSearch.
    destruct (capReached c _ n); [discriminate|].
    destruct (clash _ n) eqn:Hc; [discriminate|].
    intros [= <-] Hk. simpl.
    rewrite category_setCategory_same. apply lookup_store_same.
    intros ->. now apply (Hk c).
  - destruct (clash _ n); [discriminate|]. now intros [= <-].
  - destruct (clash _ n); [discriminate|]. now intros [= <-].
Qed.

(** A polarity, once stored, is never changed by a later token. *)
Lemma constrain_keeps (st st' : Vars) (s s' : Slot) (n v : bool) :
  constrain st s' n = Normal st' ->
  polarity st s = Some v -> polarity st' s = Some v.
Proof.
  destruct s' as [c' key'| |]; simpl.
  - unfold addSearch.
    destruct (capReached c' _ n); [discriminate|].
    destruct (clash _ n) eqn:Hc; [discriminate|].
    intros [= <-]. destruct s as [c key| |]; simpl; auto.
    destruct (Category_eq_dec c' c) as [->|Hcat].
    + rewrite category_setCategory_same.
      destruct (category (searches st) c) as [m|]; [|discriminate].
      intros Hl.
      destruct (String.eqb_spec key' key) as [->|Hne].
      * rewrite (read_own _ _ _ Hl), clash_spec in Hc.
        unfold store. destruct (key =? "__proto__"); auto.
        rewrite lookup_set_same.
        destruct v, n; simpl in *; congruence.
      * now rewrite lookup_store_other.
    + now rewrite category_setCategory_other.
  - destruct (clash _ n) eqn:Hc; [discriminate|]. intros [= <-].
    destruct s; simpl; auto.
    intros Hv. rewrite Hv, clash_spec in Hc. destruct v, n; simpl in *; congruence.
  - destruct (clash _ n) eqn:Hc; [discriminate|]. intros [= <-].
    destruct s; simpl; auto.
    intros Hv. rewrite Hv, clash_spec in Hc. destruct v, n; simpl in *; congruence.
Qed.

Lemma processTarget_keeps (st st' : Vars) (raw : string) (s : Slot) (v : bool) :
  processTarget T broadcasting st raw = Normal st' ->
  polarity st s = Some v -> polarity st' s = Some v.
Proof.
  rewrite processTarget_classify.
  destruct (classify T raw) as [s' n| |target].
  - apply constrain_keeps.
  - destruct broadcasting; [discriminate|]. intros [= <-]. now destruct s.
  - discriminate.
Qed.

Lemma loop_keeps (l : list string) (st st' : Vars) (s : Slot) (v : bool) :
  loop T broadcasting st l = Normal st' ->
  polarity st s = Some v -> polarity st' s = Some v.
Proof.
  revert st. induction l as [|raw l IH]; simpl; intros st.
  - now intros [= <-].
  - destruct (processTarget T broadcasting st raw) as [st1|c] eqn:E; simpl;
      [|discriminate].
    intros Hl Hv. apply (IH st1 Hl). eapply processTarget_keeps; eauto.
Qed.

(** What a slot reads as is never changed by a later token either. *)
Lemma constrain_seen_keeps (st st' : Vars) (s s' : Slot) (n v : bool) :
  constrain st s' n = Normal st' ->
  seen st s = Some v -> seen st' s = Some v.
Proof.
  destruct s' as [c' key'| |]; simpl.
  - unfold addSearch.
    destruct (capReached c' _ n); [discriminate|].
    destruct (clash _ n) eqn:Hc; [discriminate|].
    intros [= <-]. destruct s as [c key| |]; simpl; auto.
    destruct (Category_eq_dec c' c) as [->|Hcat].
    + rewrite category_setCategory_same.
      intros Hl.
      destruct (String.eqb_spec key' key) as [->|Hne].
      * rewrite (read_store_accepted _ _ _ Hc).
        rewrite Hl, clash_spec in Hc.
        destruct v, n; simpl in *; congruence.
      * now rewrite read_store_other.
    + now rewrite category_setCategory_other.
  - destruct (clash _ n) eqn:Hc; [discriminate|]. intros [= <-].
    destruct s; simpl; auto.
    intros Hv. rewrite Hv, clash_spec in Hc. destruct v, n; simpl in *; congruence.
  - destruct (clash _ n) eqn:Hc; [discriminate|]. intros [= <-].
    destruct s; simpl; auto.
    intros Hv. rewrite Hv, clash_spec in Hc. destruct v, n; simpl in *; congruence.
Qed.

Lemma processTarget_seen_keeps (st st' : Vars) (raw : string) (s : Slot)
    (v : bool) :
  processTarget T broadcasting st raw = Normal st' ->
  seen st s = Some v -> seen st' s = Some v.
Proof.
  rewrite processTarget_classify.
  destruct (classify T raw) as [s' n| |target].
  - apply constrain_seen_keeps.
  - destruct broadcasting; [discriminate|]. intros [= <-]. now destruct s.
  - discriminate.
Qed.

Lemma loop_seen_keeps (l : list string) (st st' : Vars) (s : Slot) (v : bool) :
  loop T broadcasting st l = Normal st' ->
  seen st s = Some v -> seen st' s = Some v.
Proof.
  revert st. induction l as [|raw l IH]; simpl; intros st.
  - now intros [= <-].
  - destruct (processTarget T broadcasting st raw) as [st1|c] eqn:E; simpl;
      [|discriminate].
    intros Hl Hv. apply (IH st1 Hl). eapply processTarget_seen_keeps; eauto.
Qed.

(** A token whose slot already reads as the opposite polarity is
    refused. *)
Lemma constrain_refused (st : Vars) (s : Slot) (n : bool) :
  seen st s = Some n -> constrain st s n = reply (refusal st s n).
Proof.
  destruct s as [c key| |]; simpl.
  - unfold addSearch.
    intros Hl. destruct (capReached c _ n); auto.
    rewrite Hl, clash_spec. now destruct n.
  - intros ->. rewrite clash_spec. now destruct n.
  - intros ->. rewrite clash_spec. now destruct n.
Qed.

(** The loop ends normally or with a rejection: it neither throws nor
    consults the catalog of species. *)
Lemma processTarget_abrupt (st : Vars) (raw : string) (c : Completion) :
  processTarget T broadcasting st raw = Abrupt c ->
  exists m, c = Returns (SendReplyBox m) /\ rejection m = true.
Proof.
  rewrite processTarget_classify.
  destruct (classify T raw) as [s n| |target].
  - destruct s as [cat key| |]; simpl.
    + unfold addSearch, capReached, cap.
      destruct cat; simpl;
        repeat match goal with
               | |- context [if ?b then _ else _] => destruct b
               end;
        intros [= <-]; eexists; split; reflexivity.
    + destruct (clash _ n); intros [= <-]. eexists; split; reflexivity.
    + destruct (clash _ n); intros [= <-]. eexists; split; reflexivity.
  - destruct broadcasting; intros [= <-]. eexists; split; reflexivity.
  - intros [= <-]. eexists; split; reflexivity.
Qed.

Lemma loop_abrupt (l : list string) (st : Vars) (c : Completion) :
  loop T broadcasting st l = Abrupt c ->
  exists m, c = Returns (SendReplyBox m) /\ rejection m = true.
Proof.
  revert st. induction l as [|raw l IH]; simpl; intros st; [discriminate|].
  destruct (processTarget T broadcasting st raw) as [st1|c1] eqn:E; simpl.
  - apply IH.
  - intros [= <-]. eapply processTarget_abrupt; eauto.
Qed.

End LoopFacts.

(** ** The pipeline ends abruptly only in the moves filter *)

Definition pipelineAbort (c : Completion) : Prop :=
  c = Throws TypeError \/ c = NoFuel
  \/ exists move, c = Returns (SendReplyBox (NotAKnownMove move)).

Section PipelineFacts.

Variable T : Tools.

Lemma checkMove_abrupt fuel template i polarity c :
  checkMove T fuel template i polarity = Abrupt c -> pipelineAbort c.
Proof.
  unfold checkMove, pipelineAbort.
  destruct (negb (Move.exists_ (getMove T i))).
  - intros [= <-]. eauto.
  - destruct (walk T fuel _ _) as [prevoTemp|]; [|intros [= <-]; auto].
    destruct (Template.learnset prevoTemp); [discriminate|].
    intros [= <-]; auto.
Qed.

Lemma checkMoves_abrupt fuel template m kept c :
  checkMoves T fuel template m kept = Abrupt c -> pipelineAbort c.
Proof.
  revert kept. induction m as [|[i polarity] m IH]; simpl; intros kept.
  - discriminate.
  - destruct (checkMove T fuel template i polarity) as [d|c'] eqn:E; simpl.
    + apply IH.
    + intros [= <-]. eapply checkMove_abrupt; eauto.
Qed.

Lemma movesKeep_abrupt fuel m mon c :
  movesKeep T fuel m mon = Abrupt c -> pipelineAbort c.
Proof.
  unfold movesKeep.
  destruct (Template.learnset (learnsetTemplate T mon)); [|discriminate].
  apply checkMoves_abrupt.
Qed.

Lemma movesFilter_abrupt fuel m dex c :
  movesFilter T fuel m dex = Abrupt c -> pipelineAbort c.
Proof.
  induction dex as [|entry dex IH]; simpl; [discriminate|].
  destruct (movesKeep T fuel m (snd entry)) as [keep|c'] eqn:E; simpl.
  - destruct (movesFilter T fuel m dex) as [rest|c'']; simpl; [discriminate|].
    intros [= <-]. now apply IH.
  - intros [= <-]. eapply movesKeep_abrupt; eauto.
Qed.

Lemma movesFilter_incl fuel m dex dex' :
  movesFilter T fuel m dex = Normal dex' -> incl dex' dex.
Proof.
  revert dex'. induction dex as [|entry dex IH]; simpl; intros dex'.
  - intros [= <-]. apply incl_refl.
  - destruct (movesKeep T fuel m (snd entry)) as [keep|]; simpl; [|discriminate].
    destruct (movesFilter T fuel m dex) as [rest|]; simpl; [|discriminate].
    intros [= <-]. specialize (IH rest eq_refl).
    destruct keep.
    + intros x [<-|Hx]; [now left|right; now apply IH].
    + now apply incl_tl.
Qed.

Lemma filterDex_incl keep dex : incl (filterDex keep dex) dex.
Proof. intros x Hx. unfold filterDex in Hx. now apply filter_In in Hx. Qed.

Lemma applyFilters_abrupt fuel st dex c :
  applyFilters T fuel st dex = Abrupt c -> pipelineAbort c.
Proof.
  unfold applyFilters.
  destruct (s_moves (searches st)) as [m|]; simpl; [|discriminate].
  destruct (movesFilter T fuel m dex) eqn:E; simpl; [discriminate|].
  intros [= <-]. eapply movesFilter_abrupt; eauto.
Qed.

Lemma applyFilters_incl fuel st dex dex' :
  applyFilters T fuel st dex = Normal dex' -> incl dex' dex.
Proof.
  unfold applyFilters.
  assert (Hm : forall d, match s_moves (searches st) with
                         | Some m => movesFilter T fuel m dex
                         | None => Normal dex
                         end = Normal d -> incl d dex).
  { destruct (s_moves (searches st)).
    - intros d. apply movesFilter_incl.
    - intros d [= <-]. apply incl_refl. }
  destruct (match s_moves (searches st) with
            | Some m => movesFilter T fuel m dex
            | None => Normal dex
            end) as [d|]; simpl; [|discriminate].
  specialize (Hm d eq_refl). intros [= <-].
  repeat match goal with
         | |- incl (match ?o with Some _ => _ | None => _ end) _ =>
             destruct o; [eapply incl_tran; [apply filterDex_incl|]|]
         end; assumption.
Qed.

End PipelineFacts.

(** ** The command as a whole *)

Lemma split_of_falsy (target : string) :
  JS.truthy target = false -> JS.split "," target = [""].
Proof.
  unfold JS.truthy. destruct (String.eqb_spec target ""); [|discriminate].
  now subst.
Qed.

Lemma truthy_of_split (target : string) (l1 l2 : list string) (a z : string) :
  JS.split "," target = l1 ++ a :: l2 ++ [z] -> JS.truthy target = true.
Proof.
  intros H. destruct (JS.truthy target) eqn:E; auto.
  rewrite (split_of_falsy _ E) in H.
  apply (f_equal (@List.length string)) in H.
  rewrite length_app in H. simpl in H. rewrite length_app in H. simpl in H. lia.
Qed.

Section CommandFacts.

Variable T : Tools.
Variable randomize : list string -> list string.
Variable broadcasting : bool.

Lemma dexsearch_rejected fuel target c :
  JS.truthy target = true ->
  loop T broadcasting initialVars (JS.split "," target) = Abrupt c ->
  dexsearch T randomize broadcasting fuel target = c.
Proof. unfold dexsearch. now intros -> ->. Qed.

(** A rejection can only come from the token loop or from the test
    that follows it. *)
Lemma dexsearch_rejection_origin fuel target m :
  dexsearch T randomize broadcasting fuel target = Returns (SendReplyBox m) ->
  rejection m = true ->
  JS.truthy target = true
  /\ (loop T broadcasting initialVars (JS.split "," target)
      = Abrupt (Returns (SendReplyBox m))
      \/ m = NoSearchParameters).
Proof.
  unfold dexsearch.
  destruct (JS.truthy target); simpl; [|discriminate].
  destruct (loop T broadcasting initialVars (JS.split "," target)) as [st|c] eqn:E.
  - destruct (showAll st && _ && _ && _).
    + intros [= <-]. auto.
    + destruct (applyFilters T fuel st (scan T st)) as [dex|c] eqn:F.
      * intros [= <-]. unfold format.
        destruct (0 <? _)%nat; [destruct (_ || _)|]; discriminate.
      * intros ->. apply applyFilters_abrupt in F.
        destruct F as [F|[F|[mv F]]]; try discriminate.
        injection F as ->. discriminate.
  - intros ->. auto.
Qed.

End CommandFacts.

(** ** The all keyword in a broadcast *)

Lemma constrain_not_all (st : Vars) (s : Slot) (n : bool) :
  constrain st s n <> reply AllCannotBroadcast.
Proof.
  destruct s as [c key| |]; simpl.
  - unfold addSearch, capReached, cap.
    destruct c; simpl;
      repeat match goal with
             | |- context [if ?b then _ else _] => destruct b
             end; discriminate.
  - destruct (clash _ n); discriminate.
  - destruct (clash _ n); discriminate.
Qed.

Lemma loop_all_iff (T : Tools) (broadcasting : bool) (l : list string) (st : Vars) :
  loop T broadcasting st l = reply AllCannotBroadcast
  <-> (broadcasting = true
       /\ exists pre tok post st',
            l = pre ++ tok :: post
            /\ loop T broadcasting st pre = Normal st'
            /\ classify T tok = AllKeyword).
Proof.
  split.
  - revert st. induction l as [|raw l IH]; simpl; intros st; [discriminate|].
    destruct (processTarget T broadcasting st raw) as [st1|c] eqn:E; simpl.
    + intros H. destruct (IH _ H) as (Hb & pre & tok & post & st' & -> & Hl & Hc).
      split; auto. exists (raw :: pre), tok, post, st'. simpl. rewrite E. auto.
    + intros [= ->]. rewrite processTarget_classify in E.
      destruct (classify T raw) as [s n| |target] eqn:C.
      * now apply constrain_not_all in E.
      * destruct broadcasting; [|discriminate].
        split; auto. exists [], raw, l, st. auto.
      * discriminate.
  - intros (-> & pre & tok & post & st' & -> & Hl & Hc).
    rewrite loop_app, Hl. simpl.
    rewrite processTarget_classify, Hc. reflexivity.
Qed.

(** C3, as amended: the reply that the parameter all cannot be broadcast
    is sent exactly when the command runs in a broadcast and the token
    loop reaches a token that is the all keyword, every earlier token
    having been accepted, whether or not those tokens added predicates.
    The reply is produced by the token loop, before the catalog is
    scanned. *)
Theorem all_cannot_broadcast_iff
    (T : Tools) (randomize : list string -> list string)
    (broadcasting : bool) (fuel : nat) (target : string) :
  (dexsearch T randomize broadcasting fuel target
     = Returns (SendReplyBox AllCannotBroadcast)
   <-> (target <> ""
        /\ loop T broadcasting initialVars (JS.split "," target)
           = reply AllCannotBroadcast))
  /\ (loop T broadcasting initialVars (JS.split "," target)
        = reply AllCannotBroadcast
      <-> (broadcasting = true
           /\ exists pre tok post st,
                JS.split "," target = pre ++ tok :: post
                /\ loop T broadcasting initialVars pre = Normal st
                /\ classify T tok = AllKeyword)).
Proof.
  split; [|apply loop_all_iff].
  split.
  - intros H.
    destruct (dexsearch_rejection_origin _ _ _ _ _ _ H eq_refl) as [Ht [Hl|Hl]];
      [|discriminate].
    split; auto. intros ->. discriminate.
  - intros [Hne Hl]. apply dexsearch_rejected; auto.
    unfold JS.truthy. now apply String.eqb_neq in Hne as ->.
Qed.

(** C3, as stated, fails: a broadcast query with a tier predicate and
    the all keyword is rejected on this ground. *)
Lemma broadcast_all_with_predicate_rejected :
  (exists st,
      loop (Examples.tools []) true initialVars ["ou"] = Normal st
      /\ polarity st (InCategory CatTier "ou") = Some true
      /\ showAll st = false)
  /\ dexsearch (Examples.tools []) Examples.noShuffle true 0 "ou,all"
     = Returns (SendReplyBox AllCannotBroadcast).
Proof.
  split; [|reflexivity].
  eexists. split; [reflexivity|]. split; reflexivity.
Qed.

(** ** Both polarities of one value *)

(** C4, as amended: when a token list asks for the same value of a
    category, or for the mega or fully evolved flag, with both
    polarities, in either order, the command is rejected before the
    catalog is scanned.  When the tokens before the second of the two
    are accepted, the reply is the one of [refusal]: the conflict
    message, except that a second token that is a required value gets
    the cap message of its category when that cap is already reached. *)
Theorem conflicting_polarities_rejected
    (T : Tools) (randomize : list string -> list string)
    (broadcasting : bool) (fuel : nat) (target : string)
    (pre mid post : list string) (a z : string) (s : Slot) (p : bool) :
  JS.split "," target = pre ++ a :: mid ++ z :: post ->
  classify T a = Constrains s p ->
  classify T z = Constrains s (negb p) ->
  (exists m,
      dexsearch T randomize broadcasting fuel target = Returns (SendReplyBox m)
      /\ rejection m = true)
  /\ (forall st,
        loop T broadcasting initialVars (pre ++ a :: mid) = Normal st ->
        dexsearch T randomize broadcasting fuel target
        = Returns (SendReplyBox (refusal st s (negb p))))
  /\ (forall st, refusal st s true = CannotBoth (subject s)).
Proof.
  intros Hsplit Ha Hz.
  assert (Ht : JS.truthy target = true).
  { destruct (JS.truthy target) eqn:E; auto.
    rewrite (split_of_falsy _ E) in Hsplit.
    apply (f_equal (@List.length string)) in Hsplit.
    rewrite length_app in Hsplit. simpl in Hsplit.
    rewrite length_app in Hsplit. simpl in Hsplit. lia. }
  assert (Hrun : forall st,
             loop T broadcasting initialVars (pre ++ a :: mid) = Normal st ->
             loop T broadcasting initialVars (JS.split "," target)
             = reply (refusal st s (negb p))).
  { intros st Hl.
    rewrite Hsplit.
    replace (pre ++ a :: mid ++ z :: post)
      with ((pre ++ a :: mid) ++ z :: post) by now rewrite <- app_assoc.
    rewrite loop_app, Hl. simpl.
    rewrite processTarget_classify, Hz.
    assert (Hp : seen st s = Some (negb p)).
    { rewrite loop_app in Hl.
      destruct (loop T broadcasting initialVars pre) as [st0|] eqn:E0;
        simpl in Hl; [|discriminate].
      rewrite processTarget_classify, Ha in Hl.
      destruct (constrain st0 s p) as [st1|] eqn:E1; simpl in Hl; [|discriminate].
      eapply loop_seen_keeps; eauto. eapply constrain_sets; eauto. }
    now rewrite (constrain_refused _ _ _ Hp). }
  split; [|split].
  - destruct (loop T broadcasting initialVars (pre ++ a :: mid)) as [st|c] eqn:E.
    + exists (refusal st s (negb p)). split.
      * apply dexsearch_rejected; [assumption|]. now apply Hrun.
      * destruct s as [c key| |]; simpl; auto.
        unfold capReached, cap. destruct c; simpl; auto;
          destruct (_ && _); auto.
    + destruct (loop_abrupt _ _ _ _ _ E) as (m & -> & Hm).
      exists m. split; auto.
      apply dexsearch_rejected; auto.
      rewrite Hsplit.
      replace (pre ++ a :: mid ++ z :: post)
        with ((pre ++ a :: mid) ++ z :: post) by now rewrite <- app_assoc.
      now rewrite loop_app, E.
  - intros st Hl. apply dexsearch_rejected; [assumption|]. now apply Hrun.
  - intros st. destruct s as [c key| |]; simpl; auto.
    unfold capReached. destruct (cap c) as [[n msg]|]; auto.
    now rewrite andb_false_r.
Qed.

Lemma conflicting_polarities_rejected_witness :
  dexsearch (Examples.tools []) Examples.noShuffle false 0 "!ou,uu,ou"
  = Returns (SendReplyBox (CannotBoth (OfCategory CatTier))).
Proof.
  destruct (conflicting_polarities_rejected
              (Examples.tools []) Examples.noShuffle false 0 "!ou,uu,ou"
              [] ["uu"] [] "!ou" "ou" (InCategory CatTier "ou") true
              eq_refl eq_refl eq_refl) as (_ & H & _).
  exact (H _ eq_refl).
Defined.

(** C4, as stated, fails: the list below asks for the Grass type with
    both polarities, and the reply is the cap message of the types, not
    the conflict message. *)
Lemma conflict_preempted_by_cap :
  (exists a z,
      In a (JS.split "," "fire type,water type,!grass type,grass type")
      /\ In z (JS.split "," "fire type,water type,!grass type,grass type")
      /\ classify (Examples.tools []) a
         = Constrains (InCategory CatTypes "Grass") true
      /\ classify (Examples.tools []) z
         = Constrains (InCategory CatTypes "Grass") false)
  /\ dexsearch (Examples.tools []) Examples.noShuffle false 0
       "fire type,water type,!grass type,grass type"
     = Returns (SendReplyBox MaxTwoTypes)
  /\ MaxTwoTypes <> CannotBoth (OfCategory CatTypes).
Proof.
  split; [|split; [reflexivity|discriminate]].
  exists "!grass type", "grass type".
  repeat split; simpl; auto.
Qed.

(** ** The tier filter and the query lc *)

Lemma lookup_single (a k : string) (v : bool) :
  lookup [(a, v)] k = if a =? k then Some v else None.
Proof. reflexivity. Qed.

Lemma tierKeep_lc_only (T : Tools) (template : Template.t) :
  tierKeep T [("lc", true)] template
  = isLC T template && (JS.toLowerCase (Template.tier template) =? "lc").
Proof.
  unfold tierKeep, valueKeep, hasKey.
  change (countTrue [("lc", true)]) with 1.
  rewrite !lookup_single, String.eqb_refl.
  rewrite (String.eqb_sym "lc").
  destruct (isLC T template);
    now destruct (JS.toLowerCase (Template.tier template) =? "lc").
Qed.

(** C1 at its failing input: Ferroseed passes the base scan and the LC
    criteria of the source comment (it has an evolution, no prevolution
    and is not banned), but its stored tier is NU, and the query lc
    answers that no species was found.  In general an entry survives
    the tier filter of that query only if it passes the LC criteria and
    its stored tier is LC as well. *)
Theorem lc_query_drops_legal_species (fuel : nat) :
  isLC Examples.steelCatalog Examples.ferroseed = true
  /\ In ("ferroseed", Examples.ferroseed)
        (scan Examples.steelCatalog
           {| searches := setCategory noSearches CatTier [("lc", true)];
              showAll := false; megaSearch := None; feSearch := None |})
  /\ dexsearch Examples.steelCatalog Examples.noShuffle false fuel "lc"
     = Returns (SendReplyBox NoPokemonFound)
  /\ (forall (T : Tools) (template : Template.t),
         tierKeep T [("lc", true)] template = true ->
         isLC T template = true
         /\ JS.toLowerCase (Template.tier template) = "lc").
Proof.
  split; [reflexivity|]. split; [simpl; auto|]. split; [reflexivity|].
  intros T template. rewrite tierKeep_lc_only.
  intros H. apply andb_true_iff in H as [H1 H2].
  split; auto. now apply String.eqb_eq.
Qed.

(** ** Exceptions *)

(** C9 at its failing input: Tyrantrum has a learnset without the move
    and a prevolution, Tyrunt, without a learnset.  The walk stops at
    Tyrunt, and reading the sketch entry of its missing learnset throws. *)
Theorem move_query_throws (fuel : nat) :
  dexsearch Examples.fossilCatalog Examples.noShuffle false (S (S fuel)) "tackle"
  = Throws TypeError.
Proof. reflexivity. Qed.

(** ** Base admissibility *)

Lemma insertSorted_In (x y : string) (l : list string) :
  In y (JS.insertSorted x l) -> y = x \/ In y l.
Proof.
  induction l as [|z l IH]; simpl.
  - intuition.
  - destruct (String.leb x z); simpl; intuition.
Qed.

Lemma sort_In (y : string) (l : list string) : In y (JS.sort l) -> In y l.
Proof.
  induction l as [|x l IH]; simpl; auto.
  intros H. apply insertSorted_In in H. intuition.
Qed.

Lemma firstn_In {A : Type} (n : nat) (l : list A) (x : A) :
  In x (firstn n l) -> In x l.
Proof.
  revert l. induction n as [|n IH]; intros [|y l]; simpl; intuition.
Qed.

Lemma format_shown (randomize : list string -> list string) (st : Vars)
    (results : list string) (name : string) :
  (forall l x, In x (randomize l) -> In x l) ->
  In name (shown (format randomize st results)) -> In name results.
Proof.
  intros Hr. unfold format.
  destruct (0 <? _)%nat; [|simpl; intros []].
  destruct (_ || _); cbn [shown]; intros H.
  - now apply sort_In.
  - apply Hr. eapply firstn_In; eauto.
Qed.

Lemma scan_admitted (T : Tools) (st : Vars) (entry : string * Template.t) :
  In entry (scan T st) ->
  In (fst entry) (Pokedex T)
  /\ snd entry = getTemplate T (fst entry)
  /\ admitted st (snd entry) = true.
Proof.
  unfold scan. intros H. apply filter_In in H as [H Ha].
  apply in_map_iff in H as (pokemon & <- & Hp). simpl. auto.
Qed.

(** C7: every name in the output of the command is the name of an entry
    of the catalog whose tier is neither Unreleased nor Illegal, and is
    CAP only when the tier category maps cap to true.  No category
    predicate is involved: the property comes from the scan alone. *)
Theorem output_is_admissible
    (T : Tools) (randomize : list string -> list string)
    (broadcasting : bool) (fuel : nat) (target : string)
    (m : Message) (name : string) :
  (forall l x, In x (randomize l) -> In x l) ->
  dexsearch T randomize broadcasting fuel target = Returns (SendReplyBox m) ->
  In name (shown m) ->
  exists st pokemon,
    loop T broadcasting initialVars (JS.split "," target) = Normal st
    /\ In pokemon (Pokedex T)
    /\ Template.species (getTemplate T pokemon) = name
    /\ Template.tier (getTemplate T pokemon) <> "Unreleased"
    /\ Template.tier (getTemplate T pokemon) <> "Illegal"
    /\ (Template.tier (getTemplate T pokemon) = "CAP" ->
        polarity st (InCategory CatTier "cap") = Some true).
Proof.
  intros Hr. unfold dexsearch.
  destruct (JS.truthy target); simpl; [|discriminate].
  destruct (loop T broadcasting initialVars (JS.split "," target)) as [st|c] eqn:E.
  - destruct (showAll st && _ && _ && _).
    { intros [= <-]. contradiction. }
    destruct (applyFilters T fuel st (scan T st)) as [dex|c] eqn:F.
    + intros [= <-] Hin.
      apply format_shown in Hin; auto.
      unfold familyFilter in Hin. apply filter_In in Hin as [Hin _].
      unfold names in Hin. apply in_map_iff in Hin as (entry & <- & Hin).
      apply (applyFilters_incl _ _ _ _ _ F) in Hin.
      apply scan_admitted in Hin as (Hp & Ht & Ha).
      exists st, (fst entry). rewrite <- Ht.
      unfold admitted in Ha.
      repeat (apply andb_true_iff in Ha as [Ha ?]).
      repeat split; auto.
      * intros Hu. rewrite Hu in Ha. discriminate.
      * intros Hu. rewrite Hu in *. discriminate.
      * intros Hu. rewrite Hu in *. simpl in *.
        unfold capRequested in *.
        destruct (s_tier (searches st)) as [mt|]; [|discriminate].
        destruct (lookup mt "cap") as [[|]|]; auto; discriminate.
    + intros Hc Hin. apply applyFilters_abrupt in F.
      destruct F as [->|[->|[mv ->]]]; try discriminate.
      injection Hc as <-. contradiction.
  - intros -> Hin.
    destruct (loop_abrupt _ _ _ _ _ E) as (m' & [= <-] & Hm).
    destruct m; try discriminate; contradiction.
Qed.

Lemma output_is_admissible_witness :
  exists st pokemon,
    loop Examples.mixedCatalog false initialVars (JS.split "," "cap") = Normal st
    /\ In pokemon (Pokedex Examples.mixedCatalog)
    /\ Template.species (getTemplate Examples.mixedCatalog pokemon) = "Syclant"
    /\ Template.tier (getTemplate Examples.mixedCatalog pokemon) <> "Unreleased"
    /\ Template.tier (getTemplate Examples.mixedCatalog pokemon) <> "Illegal"
    /\ (Template.tier (getTemplate Examples.mixedCatalog pokemon) = "CAP" ->
        polarity st (InCategory CatTier "cap") = Some true).
Proof.
  apply (output_is_admissible Examples.mixedCatalog Examples.noShuffle false 0
           "cap" (Listing ["Syclant"]) "Syclant").
  - intros l x H. exact H.
  - reflexivity.
  - simpl. left. reflexivity.
Defined.

(** ** Species without a learnset *)

(** C10: an entry whose own template and whose base species template
    both lack a learnset is kept by the moves filter, whatever the move
    predicates and without any walk or lookup of a move; whenever the
    filter completes, the entry is still in the result. *)
Theorem no_learnset_kept
    (T : Tools) (fuel : nat) (m : Obj) (mon : Template.t) :
  Template.learnset (getTemplate T (Template.id mon)) = None ->
  Template.learnset
    (getTemplate T (Template.baseSpecies (getTemplate T (Template.id mon))))
  = None ->
  movesKeep T fuel m mon = Normal true
  /\ (forall (dex dex' : Dex) (pokemon : string),
         In (pokemon, mon) dex ->
         movesFilter T fuel m dex = Normal dex' ->
         In (pokemon, mon) dex').
Proof.
  intros Hown Hbase.
  assert (Hk : movesKeep T fuel m mon = Normal true).
  { unfold movesKeep, learnsetTemplate. rewrite Hown. now rewrite Hbase. }
  split; auto.
  induction dex as [|entry dex IH]; simpl; intros dex' pokemon Hin; [contradiction|].
  destruct (movesKeep T fuel m (snd entry)) as [keep|] eqn:E; simpl; [|discriminate].
  destruct (movesFilter T fuel m dex) as [rest|] eqn:F; simpl; [|discriminate].
  intros [= <-].
  destruct Hin as [->|Hin].
  - simpl in E. rewrite Hk in E. injection E as <-. now left.
  - specialize (IH rest pokemon Hin eq_refl).
    destruct keep; [now right|assumption].
Qed.

Lemma no_learnset_kept_witness :
  movesKeep Examples.eggCatalog 0 [("Spore", true)] Examples.egg = Normal true
  /\ (forall (dex dex' : Dex) (pokemon : string),
         In (pokemon, Examples.egg) dex ->
         movesFilter Examples.eggCatalog 0 [("Spore", true)] dex = Normal dex' ->
         In (pokemon, Examples.egg) dex').
Proof.
  apply (no_learnset_kept Examples.eggCatalog 0 [("Spore", true)] Examples.egg);
    reflexivity.
Defined.

(** The entry of the lemma above appears in the output of a query that
    requires a move, although no learnset says that it learns the move. *)
Example no_learnset_in_output :
  dexsearch Examples.eggCatalog Examples.noShuffle false 5 "spore"
  = Returns (SendReplyBox (Listing ["Egg"])).
Proof. reflexivity. Qed.

(** ** The prevolution walk *)

Lemma includes_In (x : string) (l : list string) :
  JS.includes x l = true <-> In x l.
Proof.
  unfold JS.includes. rewrite existsb_exists. split.
  - intros (y & Hy & E). apply String.eqb_eq in E. now subst.
  - intros H. exists x. split; auto. apply String.eqb_refl.
Qed.

Lemma truthy_false (s : string) : JS.truthy s = false <-> s = "".
Proof.
  unfold JS.truthy. destruct (String.eqb_spec s ""); simpl; split;
    congruence.
Qed.

Section WalkFacts.

Variable T : Tools.
Variable moveid : string.

Lemma keepsWalking_false (link : Template.t) :
  keepsWalking moveid link = false -> stops moveid link.
Proof.
  unfold keepsWalking, stops. intros H.
  apply andb_false_iff in H as [H|H].
  - left. now apply truthy_false.
  - destruct (Template.learnset link) as [ls|]; auto.
    right. right. exists ls. split; auto.
    apply includes_In. now apply negb_false_iff.
Qed.

Lemma walk_mono (fuel fuel' : nat) (link last : Template.t) :
  walk T fuel moveid link = Some last -> fuel <= fuel' ->
  walk T fuel' moveid link = Some last.
Proof.
  revert fuel' link. induction fuel as [|fuel IH]; simpl; intros fuel' link;
    [discriminate|].
  intros H Hle. destruct fuel' as [|fuel']; [lia|]. simpl.
  destruct (keepsWalking moveid link); auto.
  apply IH; auto. lia.
Qed.

Lemma walk_WalkEnds (fuel : nat) (link last : Template.t) :
  walk T fuel moveid link = Some last -> WalkEnds T moveid link last.
Proof.
  revert link. induction fuel as [|fuel IH]; simpl; intros link; [discriminate|].
  destruct (keepsWalking moveid link) eqn:E.
  - intros H. apply WalkStep; auto.
  - intros [= <-]. now apply WalkStop.
Qed.

Lemma WalkEnds_walk (link last : Template.t) :
  WalkEnds T moveid link last ->
  exists n, forall fuel, n <= fuel -> walk T fuel moveid link = Some last.
Proof.
  induction 1 as [link Hs|link last Hk _ [n IH]].
  - exists 1. intros [|fuel] Hle; [lia|]. simpl. now rewrite Hs.
  - exists (S n). intros [|fuel] Hle; [lia|]. simpl. rewrite Hk.
    apply IH. lia.
Qed.

Lemma WalkEnds_fun (link last last' : Template.t) :
  WalkEnds T moveid link last -> WalkEnds T moveid link last' -> last = last'.
Proof.
  intros H H'.
  destruct (WalkEnds_walk _ _ H) as [n Hn].
  destruct (WalkEnds_walk _ _ H') as [n' Hn'].
  specialize (Hn (n + n') ltac:(lia)). specialize (Hn' (n + n') ltac:(lia)).
  congruence.
Qed.

Lemma WalkEnds_stops (link last : Template.t) :
  WalkEnds T moveid link last -> stops moveid last.
Proof.
  induction 1; auto. now apply keepsWalking_false.
Qed.

(** With every key that has a prevolution among the ancestors of [k]
    in a list of at most [n] keys, [n + 1] evaluations of the loop
    condition are enough. *)
Lemma walk_bounded (n : nat) :
  acyclic T ->
  forall (universe : list string) (k : string),
    List.length universe <= n ->
    ancestorsWithin T universe k ->
    exists last, walk T (S n) moveid (getTemplate T k) = Some last.
Proof.
  intros Hacyc. induction n as [|n IH]; intros universe k Hlen Hin.
  - simpl. destruct (keepsWalking moveid (getTemplate T k)) eqn:E; eauto.
    apply andb_true_iff in E as [E _].
    specialize (Hin 0 k eq_refl E).
    destruct universe; [contradiction|simpl in Hlen; lia].
  - change (walk T (S (S n)) moveid (getTemplate T k))
      with (if keepsWalking moveid (getTemplate T k)
            then walk T (S n) moveid
                   (getTemplate T (Template.prevo (getTemplate T k)))
            else Some (getTemplate T k)).
    destruct (keepsWalking moveid (getTemplate T k)) eqn:E; eauto.
    apply andb_true_iff in E as [E _].
    assert (Hk : In k universe) by exact (Hin 0 k eq_refl E).
    apply (IH (remove string_dec k universe)).
    + pose proof (remove_length_lt string_dec universe k Hk). lia.
    + intros i k' Ha Ht.
      assert (Ha' : ancestor T (S i) k = Some k') by (simpl; now rewrite E).
      apply in_in_remove.
      * intros ->. exact (Hacyc k i Ha').
      * exact (Hin (S i) k' Ha' Ht).
Qed.

End WalkFacts.

Lemma keepsWalking_true (T : Tools) (moveid : string) (link : Template.t) :
  keepsWalking moveid link = true ->
  Template.prevo link <> ""
  /\ exists ls, Template.learnset link = Some ls /\ ~ In moveid ls.
Proof.
  unfold keepsWalking. intros H. apply andb_true_iff in H as [Hp Hl]. split.
  - intros E. rewrite E in Hp. discriminate.
  - destruct (Template.learnset link) as [ls|]; [|discriminate].
    exists ls. split; auto. rewrite <- includes_In.
    apply negb_true_iff in Hl. congruence.
Qed.

Lemma keepsWalking_not_stops (T : Tools) (moveid : string) (link : Template.t) :
  keepsWalking moveid link = true -> ~ stops moveid link.
Proof.
  intros H. destruct (keepsWalking_true T _ _ H) as (Hp & ls & Hl & Hn).
  intros [E|[E|(ls' & E & Hin)]]; congruence.
Qed.

Section ChainFacts.

Variable T : Tools.
Variable moveid : string.

(** The link at which the walk ends is the template of an ancestor of
    the key it started from, and the loop went on at every ancestor
    before that one. *)
Lemma walk_chain (fuel : nat) :
  forall (k : string) (last : Template.t),
    walk T fuel moveid (getTemplate T k) = Some last ->
    exists n kn,
      n < fuel
      /\ ancestor T n k = Some kn
      /\ last = getTemplate T kn
      /\ (forall j kj, j < n -> ancestor T j k = Some kj ->
                       keepsWalking moveid (getTemplate T kj) = true)
      /\ keepsWalking moveid last = false.
Proof.
  induction fuel as [|fuel IH]; intros k last; cbn [walk]; [discriminate|].
  destruct (keepsWalking moveid (getTemplate T k)) eqn:E.
  - intros H. destruct (IH _ _ H) as (n & kn & Hn & Ha & Hl & Hj & Hs).
    assert (Hp : JS.truthy (Template.prevo (getTemplate T k)) = true).
    { unfold keepsWalking in E. now apply andb_true_iff in E as [E _]. }
    exists (S n), kn. split; [lia|]. split; [cbn [ancestor]; now rewrite Hp|].
    split; auto. split; auto.
    intros [|j] kj Hlt.
    + intros [= <-]. exact E.
    + cbn [ancestor]. rewrite Hp. apply Hj. lia.
  - intros [= <-]. exists 0, k. split; [lia|]. split; [reflexivity|].
    split; auto. split; auto. intros j kj Hlt. lia.
Qed.

Lemma chain_walk (n : nat) :
  forall (k kn : string) (fuel : nat),
    ancestor T n k = Some kn ->
    (forall j kj, j < n -> ancestor T j k = Some kj ->
                  keepsWalking moveid (getTemplate T kj) = true) ->
    keepsWalking moveid (getTemplate T kn) = false ->
    n < fuel ->
    walk T fuel moveid (getTemplate T k) = Some (getTemplate T kn).
Proof.
  induction n as [|n IH]; intros k kn [|fuel] Ha Hj Hs Hlt; try lia.
  - injection Ha as <-. cbn [walk]. now rewrite Hs.
  - cbn [walk]. rewrite (Hj 0 k ltac:(lia) eq_refl).
    cbn [ancestor] in Ha.
    destruct (JS.truthy (Template.prevo (getTemplate T k))) eqn:Hp;
      [|discriminate].
    apply IH; auto; [|lia].
    intros j kj Hlt' Hanc. apply (Hj (S j)); [lia|].
    cbn [ancestor]. now rewrite Hp.
Qed.

End ChainFacts.

(** C8: in a catalog whose prevolution back-references form no cycle,
    with the keys of the family of [k] that have a prevolution among
    those of [universe], the walk from the template of [k] ends: it
    goes on at the first [n] ancestors of [k], none of which is a link
    where the walk may stop, and ends at the next one, which has no
    prevolution, no learnset, or a learnset with the move.  [n] is at
    most the number of keys of [universe], and the loop condition is
    evaluated [n + 1] times: every fuel above [n] gives that link. *)
Theorem prevolution_walk_terminates
    (T : Tools) (universe : list string) (moveid k : string) :
  acyclic T ->
  ancestorsWithin T universe k ->
  exists n kn,
    n <= List.length universe
    /\ ancestor T n k = Some kn
    /\ (forall j kj, j < n -> ancestor T j k = Some kj ->
                     ~ stops moveid (getTemplate T kj))
    /\ stops moveid (getTemplate T kn)
    /\ forall fuel, n < fuel ->
         walk T fuel moveid (getTemplate T k) = Some (getTemplate T kn).
Proof.
  intros Hacyc Hfin.
  destruct (walk_bounded T moveid (List.length universe) Hacyc universe k
              (le_n _) Hfin) as [last Hlast].
  destruct (walk_chain T moveid _ _ _ Hlast)
    as (n & kn & Hn & Ha & -> & Hj & Hs).
  exists n, kn. split; [lia|]. split; auto. split; [|split].
  - intros j kj Hlt Hanc. eapply keepsWalking_not_stops; eauto.
  - now apply keepsWalking_false.
  - intros fuel Hlt. now apply (chain_walk T moveid n).
Qed.

Lemma find_prevo (l : list Template.t) (k : string) :
  JS.truthy (Template.prevo (Examples.find k l)) = true ->
  In (Template.prevo (Examples.find k l)) (map Template.prevo l)
  /\ In k (map Template.id l ++ map Template.species l).
Proof.
  induction l as [|t l IH]; cbn [Examples.find map].
  - intros H. vm_compute in H. discriminate.
  - destruct ((Template.id t =? k) || (Template.species t =? k)) eqn:E.
    + intros _. split; [now left|].
      apply orb_true_iff in E as [E|E]; apply String.eqb_eq in E; subst k;
        apply in_or_app; [left|right]; now left.
    + intros H. destruct (IH H) as [H1 H2]. split; [now right|].
      apply in_app_or in H2 as [H2|H2]; apply in_or_app; [left|right];
        now right.
Qed.

Lemma family_acyclic : acyclic Examples.mixedCatalog.
Proof.
  intros k n H. cbn [ancestor] in H.
  remember (Template.prevo (getTemplate Examples.mixedCatalog k)) as p eqn:Ep.
  destruct (JS.truthy p) eqn:E; [|discriminate].
  assert (Hp : In p [""; "bulbasaur"; ""; ""; ""]).
  { rewrite Ep in E. rewrite Ep. exact (proj1 (find_prevo _ k E)). }
  assert (Hb : p = "bulbasaur").
  { cbn [In] in Hp.
    destruct Hp as [Hp|[Hp|[Hp|[Hp|[Hp|[]]]]]]; try (now symmetry);
      rewrite <- Hp in E; discriminate. }
  subst p. rewrite Hb in H. destruct n as [|n].
  - injection H as <-. vm_compute in Hb. discriminate.
  - vm_compute in H. discriminate.
Qed.

Lemma family_of_ivysaur :
  ancestorsWithin Examples.mixedCatalog ["ivysaur"] "ivysaur".
Proof.
  intros [|[|i]] k' H Ht.
  - injection H as <-. now left.
  - injection H as <-. vm_compute in Ht. discriminate.
  - vm_compute in H. discriminate.
Qed.

Lemma prevolution_walk_terminates_witness :
  exists n kn,
    n <= 1
    /\ ancestor Examples.mixedCatalog n "ivysaur" = Some kn
    /\ (forall j kj, j < n ->
          ancestor Examples.mixedCatalog j "ivysaur" = Some kj ->
          ~ stops "tackle" (getTemplate Examples.mixedCatalog kj))
    /\ stops "tackle" (getTemplate Examples.mixedCatalog kn)
    /\ forall fuel, n < fuel ->
         walk Examples.mixedCatalog fuel "tackle"
           (getTemplate Examples.mixedCatalog "ivysaur")
         = Some (getTemplate Examples.mixedCatalog kn).
Proof.
  exact (prevolution_walk_terminates Examples.mixedCatalog ["ivysaur"]
           "tackle" "ivysaur" family_acyclic family_of_ivysaur).
Defined.

(** ** The pipeline, category by category *)

Lemma movesFilter_filter (T : Tools) (fuel : nat) (m : Obj) (dex dex' : Dex) :
  movesFilter T fuel m dex = Normal dex' ->
  dex' = filter (fun entry => movesKeepB T fuel m (snd entry)) dex.
Proof.
  revert dex'. induction dex as [|entry dex IH]; simpl; intros dex'.
  - now intros [= <-].
  - unfold movesKeepB at 1.
    destruct (movesKeep T fuel m (snd entry)) as [keep|]; simpl; [|discriminate].
    destruct (movesFilter T fuel m dex) as [rest|]; simpl; [|discriminate].
    intros [= <-]. now rewrite (IH rest eq_refl).
Qed.

Lemma movesFilter_total (T : Tools) (fuel : nat) (m : Obj) (dex : Dex) :
  (forall entry, In entry dex ->
     exists keep, movesKeep T fuel m (snd entry) = Normal keep) ->
  exists dex', movesFilter T fuel m dex = Normal dex'.
Proof.
  induction dex as [|entry dex IH]; intros H; cbn [movesFilter].
  - eauto.
  - destruct (H entry (or_introl eq_refl)) as [keep ->].
    destruct IH as [rest ->]; [intros e He; apply H; now right|].
    cbn [bind]. eauto.
Qed.

(** What the pipeline leaves of [dex] is what every category keeps. *)
Lemma applyFilters_In (T : Tools) (fuel : nat) (st : Vars) (dex dex' : Dex) :
  applyFilters T fuel st dex = Normal dex' ->
  forall entry,
    In entry dex' <->
    In entry dex
    /\ keptBy T fuel st CatMoves (snd entry) = true
    /\ keptBy T fuel st CatTypes (snd entry) = true
    /\ keptBy T fuel st CatAbility (snd entry) = true
    /\ keptBy T fuel st CatTier (snd entry) = true
    /\ keptBy T fuel st CatGen (snd entry) = true
    /\ keptBy T fuel st CatColor (snd entry) = true.
Proof.
  unfold applyFilters, keptBy, filterDex. cbn [category].
  intros H entry.
  destruct (s_moves (searches st)) as [m|].
  - destruct (movesFilter T fuel m dex) as [d|] eqn:E; cbn [bind] in H;
      [|discriminate].
    apply movesFilter_filter in E. subst d. injection H as <-.
    destruct (s_types (searches st)), (s_ability (searches st)),
      (s_tier (searches st)), (s_gen (searches st)), (s_color (searches st));
      rewrite ?filter_In; tauto.
  - cbn [bind] in H. injection H as <-.
    destruct (s_types (searches st)), (s_ability (searches st)),
      (s_tier (searches st)), (s_gen (searches st)), (s_color (searches st));
      rewrite ?filter_In; tauto.
Qed.

Lemma keptBy_without_same (T : Tools) (fuel : nat) (st : Vars) (c : Category)
    (mon : Template.t) :
  keptBy T fuel (without st c) c mon = true.
Proof. now destruct c. Qed.

Lemma keptBy_without_other (T : Tools) (fuel : nat) (st : Vars)
    (c c' : Category) (mon : Template.t) :
  c <> c' -> keptBy T fuel (without st c) c' mon = keptBy T fuel st c' mon.
Proof. destruct c, c'; intros H; try reflexivity; congruence. Qed.

(** A pipeline that completes also completes without one category,
    and its result is what that category keeps of the other result. *)
Lemma applyFilters_without (T : Tools) (fuel : nat) (st : Vars) (c : Category)
    (dex dex' : Dex) :
  applyFilters T fuel st dex = Normal dex' ->
  exists others,
    applyFilters T fuel (without st c) dex = Normal others
    /\ forall entry,
         In entry dex' <->
         In entry others /\ keptBy T fuel st c (snd entry) = true.
Proof.
  intros H.
  assert (Ho : exists others,
             applyFilters T fuel (without st c) dex = Normal others).
  { revert H. unfold applyFilters.
    destruct c; cbn [without withSearches searches s_moves s_types s_ability
                     s_tier s_gen s_color];
      try (destruct (s_moves (searches st)) as [m|]; cbn [bind];
           [destruct (movesFilter T fuel m dex); cbn [bind]; [|discriminate]|];
           intros _; eauto). }
  destruct Ho as [others Ho]. exists others. split; auto.
  intros entry.
  rewrite (applyFilters_In _ _ _ _ _ H entry).
  rewrite (applyFilters_In _ _ _ _ _ Ho entry).
  destruct c;
    repeat match goal with
           | |- context [keptBy T fuel (without st ?c) ?c' (snd entry)] =>
               first [ rewrite (keptBy_without_same T fuel st c)
                     | rewrite (keptBy_without_other T fuel st c c')
                         by discriminate ]
           end; tauto.
Qed.

(** ** The moves filter *)

Lemma canLearn_spec (ls : list string) (moveid : string) :
  canLearn ls moveid = true
  <-> (In moveid ls \/ (In "sketch" ls /\ ~ In moveid notSketchable)).
Proof.
  unfold canLearn.
  rewrite orb_true_iff, andb_true_iff, negb_true_iff, !includes_In.
  rewrite <- not_true_iff_false, includes_In. tauto.
Qed.

Lemma violates_spec (ls : list string) (moveid : string) (polarity : bool) :
  (negb (canLearn ls moveid) && polarity) || (negb polarity && canLearn ls moveid)
  = true <-> violates ls moveid polarity.
Proof.
  unfold violates. rewrite <- canLearn_spec.
  destruct (canLearn ls moveid), polarity; simpl; intuition congruence.
Qed.

Section MovesFacts.

Variable T : Tools.
Variable template : Template.t.

Lemma checkMove_spec (i : string) (polarity : bool) (last : Template.t)
    (ls : list string) :
  Move.exists_ (getMove T i) = true ->
  endsAt T template i last ls ->
  exists n, forall fuel, n <= fuel ->
    checkMove T fuel template i polarity
    = Normal ((negb (canLearn ls (Move.id (getMove T i))) && polarity)
              || (negb polarity && canLearn ls (Move.id (getMove T i)))).
Proof.
  intros Hex [Hw Hls].
  destruct (WalkEnds_walk _ _ _ _ Hw) as [n Hn].
  exists n. intros fuel Hle. unfold checkMove.
  now rewrite Hex, (Hn fuel Hle), Hls.
Qed.

Lemma checkMoves_spec (m : Obj) :
  (forall i polarity, In (i, polarity) m ->
     Move.exists_ (getMove T i) = true /\ exists last ls, endsAt T template i last ls) ->
  exists n, forall fuel, n <= fuel -> forall kept,
    exists r,
      checkMoves T fuel template m kept = Normal r
      /\ (r = false <->
          kept = false
          \/ exists i polarity last ls,
               In (i, polarity) m /\ endsAt T template i last ls
               /\ violates ls (Move.id (getMove T i)) polarity).
Proof.
  induction m as [|[i polarity] m IH]; intros H.
  - exists 0. intros fuel _ kept. exists kept. split; [reflexivity|].
    split; [auto|]. intros [?|(? & ? & ? & ? & [] & _)]; assumption.
  - destruct (H i polarity (or_introl eq_refl)) as (Hex & last & ls & Hends).
    destruct (checkMove_spec i polarity last ls Hex Hends) as [n1 Hn1].
    destruct IH as [n2 Hn2].
    { intros i' p' Hin. apply (H i' p'). now right. }
    exists (n1 + n2). intros fuel Hle kept.
    cbn [checkMoves]. rewrite (Hn1 fuel) by lia. cbn [bind].
    set (deleted := (negb (canLearn ls (Move.id (getMove T i))) && polarity)
                    || (negb polarity && canLearn ls (Move.id (getMove T i)))).
    destruct (Hn2 fuel ltac:(lia) (kept && negb deleted)) as (r & Hr & Hiff).
    exists r. split; auto. rewrite Hiff. split.
    + intros [Hk|(i' & p' & last' & ls' & Hin & He & Hv)].
      * apply andb_false_iff in Hk as [Hk|Hk]; auto.
        right. exists i, polarity, last, ls. repeat split; auto.
        -- now left.
        -- apply Hends.
        -- apply Hends.
        -- apply violates_spec. now apply negb_false_iff.
      * right. exists i', p', last', ls'. repeat split; auto.
        -- now right.
        -- apply He.
        -- apply He.
    + intros [Hk|(i' & p' & last' & ls' & [Hin|Hin] & He & Hv)].
      * left. now rewrite Hk.
      * injection Hin as <- <-.
        assert (last' = last)
          by (eapply WalkEnds_fun; [apply He|apply Hends]).
        subst last'.
        assert (ls' = ls) by (destruct He, Hends; congruence).
        subst ls'.
        left. apply violates_spec in Hv. fold deleted in Hv. rewrite Hv.
        now rewrite andb_false_r.
      * right. exists i', p', last', ls'. auto.
Qed.

End MovesFacts.

(** The walk in words is the walk of the loop. *)
Lemma stops_keepsWalking (moveid : string) (link : Template.t) :
  stops moveid link -> keepsWalking moveid link = false.
Proof.
  unfold stops, keepsWalking. intros [E|[E|(ls & E & Hin)]].
  - now rewrite E.
  - rewrite E. apply andb_false_r.
  - rewrite E. apply includes_In in Hin. rewrite Hin. apply andb_false_r.
Qed.

Lemma Reaches_WalkEnds (T : Tools) (moveid : string) (link last : Template.t) :
  Reaches T moveid link last <-> WalkEnds T moveid link last.
Proof.
  split.
  - induction 1 as [link Hs|link last ls Hp Hl Hn _ IH].
    + apply WalkStop. now apply stops_keepsWalking.
    + apply WalkStep; auto. unfold keepsWalking. rewrite Hl.
      apply andb_true_iff. split.
      * unfold JS.truthy. apply negb_true_iff. now apply String.eqb_neq.
      * apply negb_true_iff. apply not_true_iff_false.
        now rewrite includes_In.
  - induction 1 as [link Hs|link last Hk _ IH].
    + apply ReachStop. now apply keepsWalking_false.
    + destruct (keepsWalking_true T _ _ Hk) as (Hp & ls & Hl & Hn).
      eapply ReachStep; eauto.
Qed.

Lemma consulted_learnsetTemplate (T : Tools) (mon start : Template.t) :
  consulted T mon start <-> start = learnsetTemplate T mon.
Proof.
  unfold consulted, learnsetTemplate. cbv zeta.
  destruct (Template.learnset (getTemplate T (Template.id mon))) eqn:E.
  - split; [intros [[_ H]|[H _]]; congruence|].
    intros ->. left. split; congruence.
  - split; [intros [[H _]|[_ H]]; congruence|].
    intros ->. right. split; congruence.
Qed.

Lemma evaluated_learnsetTemplate (T : Tools) (mon : Template.t) :
  evaluated T mon <-> Template.learnset (learnsetTemplate T mon) <> None.
Proof.
  unfold evaluated. split.
  - intros (start & Hc & Hl). apply consulted_learnsetTemplate in Hc.
    now subst.
  - intros H. exists (learnsetTemplate T mon). split; auto.
    now apply consulted_learnsetTemplate.
Qed.

Lemma resolves_endsAt (T : Tools) (mon : Template.t) (i : string)
    (last : Template.t) (ls : list string) :
  resolves T mon i last ls <-> endsAt T (learnsetTemplate T mon) i last ls.
Proof.
  unfold resolves, endsAt. split.
  - intros (start & Hc & Hr & Hl). apply consulted_learnsetTemplate in Hc.
    subst. split; auto. now apply Reaches_WalkEnds.
  - intros [Hw Hl]. exists (learnsetTemplate T mon). split.
    + now apply consulted_learnsetTemplate.
    + split; auto. now apply Reaches_WalkEnds.
Qed.

(** The body of the loop over [dex], for one entry. *)
Lemma movesKeep_spec (T : Tools) (m : Obj) (mon : Template.t) :
  (forall i p, In (i, p) m -> evaluated T mon ->
     Move.exists_ (getMove T i) = true
     /\ exists last ls, resolves T mon i last ls) ->
  exists n, forall fuel, n <= fuel ->
    exists keep,
      movesKeep T fuel m mon = Normal keep
      /\ (keep = false <-> removedByMoves T m mon).
Proof.
  intros H. unfold movesKeep, removedByMoves.
  destruct (Template.learnset (learnsetTemplate T mon)) as [ls0|] eqn:E.
  - assert (He : evaluated T mon)
      by (apply evaluated_learnsetTemplate; congruence).
    destruct (checkMoves_spec T (learnsetTemplate T mon) m) as [n Hn].
    { intros i p Hin. destruct (H i p Hin He) as (Hex & last & ls & Hr).
      split; auto. exists last, ls. now apply resolves_endsAt. }
    exists n. intros fuel Hle.
    destruct (Hn fuel Hle true) as (r & Hr & Hiff).
    exists r. split; auto. rewrite Hiff. split.
    + intros [?|(i & p & last & ls & Hin & Hends & Hv)]; [discriminate|].
      split; auto. exists i, p, last, ls. split; auto. split; auto.
      now apply resolves_endsAt.
    + intros (_ & i & p & last & ls & Hin & Hres & Hv).
      right. exists i, p, last, ls. split; auto. split; auto.
      now apply resolves_endsAt.
  - exists 0. intros fuel _. exists true. split; auto. split; [discriminate|].
    intros (He & _). apply evaluated_learnsetTemplate in He. congruence.
Qed.

Lemma movesKeep_all (T : Tools) (m : Obj) (dex : Dex) :
  (forall entry i p, In entry dex -> In (i, p) m -> evaluated T (snd entry) ->
     Move.exists_ (getMove T i) = true
     /\ exists last ls, resolves T (snd entry) i last ls) ->
  exists n, forall fuel, n <= fuel -> forall entry, In entry dex ->
    exists keep,
      movesKeep T fuel m (snd entry) = Normal keep
      /\ (keep = false <-> removedByMoves T m (snd entry)).
Proof.
  induction dex as [|e dex IH]; intros H.
  - exists 0. intros fuel _ entry [].
  - destruct (movesKeep_spec T m (snd e)) as [n1 Hn1].
    { intros i p Hin. apply (H e i p); auto. now left. }
    destruct IH as [n2 Hn2].
    { intros entry i p Hin. apply H. now right. }
    exists (n1 + n2). intros fuel Hle entry [<-|Hin].
    + apply Hn1. lia.
    + apply Hn2; auto. lia.
Qed.

(** C2, as amended: for a query with moves and a list of entries such
    that, for every entry whose consulted template (the one found under
    its id or, when that one has no learnset, the one found under its
    base species) has a learnset, every move of the query is known and
    its walk, started at the template found under the id of the
    consulted one and going on while the link has a prevolution and a
    learnset without the move, ends at a link with a learnset.  With
    enough fuel the pipeline completes, with and without the moves of
    the query, and what it leaves with them is what it leaves without
    them less the entries that the moves delete: those whose moves are
    looked at and for which, for some move of the query, the learnset at
    the end of the walk says the opposite of the polarity, where a
    learnset grants a move that it contains, or any move but chatter,
    struggle and magikarpsrevenge when it contains sketch.  An entry
    without a learnset on either template is never deleted by them. *)
Theorem moves_filter_learnability
    (T : Tools) (st : Vars) (m : Obj) (dex : Dex) :
  s_moves (searches st) = Some m ->
  (forall entry i p, In entry dex -> In (i, p) m -> evaluated T (snd entry) ->
     Move.exists_ (getMove T i) = true
     /\ exists last ls, resolves T (snd entry) i last ls) ->
  exists n, forall fuel, n <= fuel ->
    exists dex' others,
      applyFilters T fuel st dex = Normal dex'
      /\ applyFilters T fuel (without st CatMoves) dex = Normal others
      /\ (forall entry,
            In entry dex' <->
            In entry others /\ ~ removedByMoves T m (snd entry))
      /\ (forall entry,
            In entry others -> ~ evaluated T (snd entry) -> In entry dex').
Proof.
  intros Hm H.
  destruct (movesKeep_all T m dex H) as [n Hn].
  exists n. intros fuel Hle.
  destruct (movesFilter_total T fuel m dex) as [d Hd].
  { intros entry He. destruct (Hn fuel Hle entry He) as (keep & -> & _). eauto. }
  assert (Hrun : exists dex', applyFilters T fuel st dex = Normal dex').
  { unfold applyFilters. rewrite Hm, Hd. cbn [bind]. eauto. }
  destruct Hrun as [dex' Hrun].
  destruct (applyFilters_without T fuel st CatMoves dex dex' Hrun)
    as (others & Ho & Hiff).
  exists dex', others. split; auto. split; auto.
  assert (Hkeep : forall entry,
             In entry others ->
             (keptBy T fuel st CatMoves (snd entry) = true
              <-> ~ removedByMoves T m (snd entry))).
  { intros entry Hin.
    apply (applyFilters_incl T fuel _ _ _ Ho) in Hin.
    destruct (Hn fuel Hle entry Hin) as (keep & Hk & Hr).
    unfold keptBy. cbn [category]. rewrite Hm. unfold movesKeepB. rewrite Hk.
    rewrite <- Hr. destruct keep; split; congruence. }
  split.
  - intros entry. rewrite Hiff. split; intros [Hin Hk]; split; auto;
      now apply (Hkeep entry Hin).
  - intros entry Hin Hne. apply Hiff. split; auto.
    apply (Hkeep entry Hin). intros [He _]. contradiction.
Qed.

Lemma moves_filter_learnability_witness :
  exists n, forall fuel, n <= fuel ->
    exists dex' others,
      applyFilters Examples.mixedCatalog fuel
        (withSearches initialVars
           (setCategory noSearches CatMoves [("Spore", true)]))
        (scan Examples.mixedCatalog initialVars)
      = Normal dex'
      /\ applyFilters Examples.mixedCatalog fuel
           (without
              (withSearches initialVars
                 (setCategory noSearches CatMoves [("Spore", true)]))
              CatMoves)
           (scan Examples.mixedCatalog initialVars)
         = Normal others
      /\ (forall entry,
            In entry dex' <->
            In entry others
            /\ ~ removedByMoves Examples.mixedCatalog [("Spore", true)]
                   (snd entry))
      /\ (forall entry,
            In entry others ->
            ~ evaluated Examples.mixedCatalog (snd entry) ->
            In entry dex').
Proof.
  apply (moves_filter_learnability Examples.mixedCatalog
           (withSearches initialVars
              (setCategory noSearches CatMoves [("Spore", true)]))
           [("Spore", true)]
           (scan Examples.mixedCatalog initialVars)).
  - reflexivity.
  - intros entry i p Hin [[= <- <-]|[]] _. split; [reflexivity|].
    exists Examples.bulbasaur, ["tackle"].
    assert (Hstop : Reaches Examples.mixedCatalog "spore"
                      Examples.bulbasaur Examples.bulbasaur)
      by (apply ReachStop; now left).
    destruct Hin as [<-|[<-|[]]].
    + exists Examples.bulbasaur. split; [left; split; [discriminate|reflexivity]|].
      split; [exact Hstop|reflexivity].
    + exists Examples.ivysaur. split; [left; split; [discriminate|reflexivity]|].
      split; [|reflexivity].
      apply (ReachStep Examples.mixedCatalog "spore"
               (getTemplate Examples.mixedCatalog
                  (Template.id Examples.ivysaur))
               Examples.bulbasaur []);
        [discriminate|reflexivity|intros []|exact Hstop].
Defined.

(** The moves of two queries on the catalog of the lemma above: both
    entries reach the learnset of Bulbasaur, which has Tackle and has
    not Spore. *)
Example moves_filter_examples :
  applyFilters Examples.mixedCatalog 2
    (withSearches initialVars
       (setCategory noSearches CatMoves [("Spore", true)]))
    (scan Examples.mixedCatalog initialVars)
  = Normal []
  /\ applyFilters Examples.mixedCatalog 2
       (withSearches initialVars
          (setCategory noSearches CatMoves [("Tackle", true)]))
       (scan Examples.mixedCatalog initialVars)
     = Normal (scan Examples.mixedCatalog initialVars)
  /\ applyFilters Examples.mixedCatalog 2
       (withSearches initialVars
          (setCategory noSearches CatMoves [("Tackle", false)]))
       (scan Examples.mixedCatalog initialVars)
     = Normal [].
Proof. repeat split; reflexivity. Qed.

(** C2, as stated, fails: the egg entry has no learnset at all, so in
    the words of the claim it cannot learn the required move and is
    removed; the source keeps it and shows its name. *)
Lemma species_without_learnset_not_removed :
  SpecWords.removed Examples.eggCatalog 5 [("Spore", true)] Examples.egg
  = Some true
  /\ movesKeep Examples.eggCatalog 5 [("Spore", true)] Examples.egg = Normal true
  /\ dexsearch Examples.eggCatalog Examples.noShuffle false 5 "spore"
     = Returns (SendReplyBox (Listing ["Egg"])).
Proof. repeat split; reflexivity. Qed.

(** ** The sample of more than ten results *)

(** C5, as amended: when showAll is false and more than ten names
    survive the family filter, the reply shows the first ten names of
    the shuffled list and a count that is the number of results minus
    the constant [output], which is ten: the number of names left out. *)
Theorem sample_reports_omitted_names
    (T : Tools) (randomize : list string -> list string)
    (broadcasting : bool) (fuel : nat) (target : string)
    (st : Vars) (dex : Dex) :
  (forall l, List.length (randomize l) = List.length l) ->
  target <> "" ->
  loop T broadcasting initialVars (JS.split "," target) = Normal st ->
  showAll st = false ->
  applyFilters T fuel st (scan T st) = Normal dex ->
  10 < List.length (familyFilter T (names dex)) ->
  let results := familyFilter T (names dex) in
  let sample := firstn 10 (randomize results) in
  dexsearch T randomize broadcasting fuel target
  = Returns (SendReplyBox
               (Sample sample (Z.of_nat (List.length results) - output)))
  /\ List.length sample = 10
  /\ (Z.of_nat (List.length results) - output)%Z
     = Z.of_nat (List.length results - List.length sample).
Proof.
  intros Hlen Hne Hloop Hall Hdex Hmany. cbv zeta.
  set (results := familyFilter T (names dex)) in *.
  assert (Hs : List.length (firstn 10 (randomize results)) = 10).
  { rewrite length_firstn, Hlen. lia. }
  split; [|split; auto].
  - unfold dexsearch.
    apply String.eqb_neq in Hne. unfold JS.truthy. rewrite Hne. cbn [negb].
    rewrite Hloop, Hall. cbn [andb]. rewrite Hdex.
    unfold format. fold results.
    replace (0 <? List.length results)%nat with true
      by (symmetry; apply Nat.ltb_lt; lia).
    rewrite Hall. cbn [orb].
    replace (Z.of_nat (List.length results) <=? output)%Z with false
      by (symmetry; apply Z.leb_gt; unfold output; lia).
    now rewrite Hlen.
  - rewrite Hs. unfold output. lia.
Qed.

Lemma sample_reports_omitted_names_witness :
  dexsearch Examples.elevenCatalog Examples.noShuffle false 0 "ou"
  = Returns (SendReplyBox
               (Sample ["a"; "b"; "c"; "d"; "e"; "f"; "g"; "h"; "i"; "j"] 1)).
Proof.
  refine (proj1 (sample_reports_omitted_names Examples.elevenCatalog
                   Examples.noShuffle false 0 "ou"
                   (withSearches initialVars
                      (setCategory noSearches CatTier [("ou", true)]))
                   (scan Examples.elevenCatalog
                      (withSearches initialVars
                         (setCategory noSearches CatTier [("ou", true)])))
                   _ _ _ _ _ _)).
  - reflexivity.
  - discriminate.
  - reflexivity.
  - reflexivity.
  - reflexivity.
  - vm_compute. lia.
Defined.

(** C5, as stated, fails: with eleven results the reply shows ten names
    and reports one more, and one is the number of names left out. *)
Lemma reported_count_is_the_overflow :
  dexsearch Examples.elevenCatalog Examples.noShuffle false 0 "ou"
  = Returns (SendReplyBox
               (Sample ["a"; "b"; "c"; "d"; "e"; "f"; "g"; "h"; "i"; "j"] 1))
  /\ familyFilter Examples.elevenCatalog Examples.elevenNames
     = Examples.elevenNames
  /\ (1 = Z.of_nat (List.length Examples.elevenNames) - 10)%Z.
Proof. repeat split; reflexivity. Qed.

(** ** The types filter *)

Lemma upperChar_not_u (c : ascii) : JS.upperChar c <> "u"%char.
Proof.
  destruct c as [[] [] [] [] [] [] [] []]; vm_compute; discriminate.
Qed.

Lemma capitalised_not_undefined (t : string) (i : nat) :
  (JS.toUpperCase (JS.charAt 0 t) ++ JS.slice 1 i t)%string <> "undefined".
Proof.
  destruct t as [|c t].
  - unfold JS.charAt, JS.slice. simpl. discriminate.
  - unfold JS.charAt.
    replace (substring 0 1 (String c t)) with (String c EmptyString)
      by (simpl; now destruct t).
    cbn [JS.toUpperCase String.append].
    intros [= H _]. now apply upperChar_not_u in H.
Qed.

Lemma classify_types_key (T : Tools) (raw key : string) (n : bool) :
  classify T raw = Constrains (InCategory CatTypes key) n ->
  key <> "undefined".
Proof.
  unfold classify.
  repeat match goal with
         | |- context [match JS.indexOf ?a ?b with _ => _ end] =>
             destruct (JS.indexOf a b)
         | |- context [if ?c then _ else _] => destruct c
         end; try discriminate.
  all: intros [= <- _]; apply capitalised_not_undefined.
Qed.

Lemma processTarget_typesClean (T : Tools) (broadcasting : bool)
    (st st' : Vars) (raw : string) :
  processTarget T broadcasting st raw = Normal st' ->
  typesClean st -> typesClean st'.
Proof.
  rewrite processTarget_classify.
  destruct (classify T raw) as [s n| |target] eqn:C.
  - destruct s as [c key| |]; simpl.
    + unfold addSearch.
      destruct (capReached c _ n); [discriminate|].
      destruct (clash _ n); [discriminate|].
      intros [= <-] Hc m. simpl.
      destruct c; simpl; try apply Hc.
      intros [= <-].
      rewrite lookup_store_other
        by (apply (classify_types_key _ _ _ _ C)).
      destruct (s_types (searches st)) as [m0|] eqn:E; auto.
    + destruct (clash _ n); [discriminate|]. intros [= <-] Hc. exact Hc.
    + destruct (clash _ n); [discriminate|]. intros [= <-] Hc. exact Hc.
  - destruct broadcasting; [discriminate|]. intros [= <-] Hc. exact Hc.
  - discriminate.
Qed.

Lemma loop_typesClean (T : Tools) (broadcasting : bool) (l : list string)
    (st st' : Vars) :
  loop T broadcasting st l = Normal st' -> typesClean st -> typesClean st'.
Proof.
  revert st. induction l as [|raw l IH]; simpl; intros st.
  - now intros [= <-].
  - destruct (processTarget T broadcasting st raw) as [st1|] eqn:E; simpl;
      [|discriminate].
    intros Hl Hc. apply (IH st1 Hl). eapply processTarget_typesClean; eauto.
Qed.

Lemma lookup_true_counted (m : Obj) (k : string) :
  lookup m k = Some true -> In k (map fst (filter (fun kv => snd kv) m)).
Proof.
  intros H. apply lookup_In in H.
  change k with (fst (k, true)). apply in_map. apply filter_In. auto.
Qed.

Lemma two_required (m : Obj) (a b : string) :
  countTrue m = 2 -> a <> b ->
  lookup m a = Some true -> lookup m b = Some true ->
  forall k, lookup m k = Some true <-> (k = a \/ k = b).
Proof.
  intros Hc Hab Ha Hb k. split.
  - intros Hk. apply lookup_true_counted in Hk.
    assert (Hincl : incl (map fst (filter (fun kv => snd kv) m)) [a; b]).
    { apply NoDup_length_incl.
      - constructor; [intros [H|[]]; congruence|].
        constructor; [intros []|constructor].
      - rewrite length_map. unfold countTrue in Hc. rewrite Hc. simpl. lia.
      - intros x [<-|[<-|[]]]; now apply lookup_true_counted. }
    destruct (Hincl k Hk) as [<-|[<-|[]]]; auto.
  - intros [->| ->]; assumption.
Qed.

Lemma isTruthy_iff (v : option bool) : isTruthy v = true <-> v = Some true.
Proof. destruct v as [[|]|]; simpl; split; congruence. Qed.

Lemma isFalse_iff (v : option bool) : isFalse v = true <-> v = Some false.
Proof. destruct v as [[|]|]; simpl; split; congruence. Qed.

(** The test of lines 494-498 on a species with one type or two
    different ones, for a types object without the key undefined. *)
Lemma typesKeep_spec (m : Obj) (template : Template.t) :
  lookup m "undefined" = None ->
  wellTyped template ->
  (typesKeep m template = true <-> typesAsked m template).
Proof.
  intros Hu Hwt.
  unfold wellTyped in Hwt. unfold typesKeep, typeSlot, typesAsked.
  destruct (Template.types template) as [|a [|b [|c l]]]; try contradiction.
  - (* one type *)
    cbn [nth]. rewrite Hu.
    destruct (countTrue m =? 2)%nat.
    + cbn [isTruthy negb]. rewrite orb_true_r. cbn [negb].
      split; [discriminate|]. intros (a' & b' & [=] & _).
    + cbn [isFalse isTruthy negb]. rewrite orb_false_r, andb_true_r.
      rewrite negb_true_iff, orb_false_iff, andb_false_iff.
      split.
      * intros [Hf Ht]. split.
        -- intros t [<-|[]] E. rewrite E in Hf. discriminate.
        -- intros Hpos. destruct Ht as [Ht|Ht].
           ++ apply Nat.ltb_ge in Ht. lia.
           ++ exists a. split; [now left|].
              now apply negb_false_iff, isTruthy_iff in Ht.
      * intros [Hf Ht]. split.
        -- destruct (lookup m a) as [[|]|] eqn:E; auto.
           exfalso. apply (Hf a); simpl; auto.
        -- destruct (Nat.ltb_spec 0 (countTrue m)) as [Hpos|Hz]; [|now left].
           right. destruct (Ht Hpos) as (t & [<-|[]] & Hl). now rewrite Hl.
  - (* two types *)
    cbn [nth].
    destruct (countTrue m =? 2)%nat eqn:Hc.
    + apply Nat.eqb_eq in Hc.
      rewrite negb_true_iff, orb_false_iff, !negb_false_iff, !isTruthy_iff.
      split.
      * intros [Ha Hb]. exists a, b. split; auto. now apply two_required.
      * intros (a' & b' & [= <- <-] & H). split; apply H; auto.
    + rewrite negb_true_iff, !orb_false_iff, andb_false_iff, andb_false_iff.
      split.
      * intros [[Hfa Hfb] Ht]. split.
        -- intros t [<-|[<-|[]]] E; [rewrite E in Hfa|rewrite E in Hfb];
             discriminate.
        -- intros Hpos. destruct Ht as [Ht|[Ht|Ht]].
           ++ apply Nat.ltb_ge in Ht. lia.
           ++ exists a. split; [now left|].
              now apply negb_false_iff, isTruthy_iff in Ht.
           ++ exists b. split; [right; now left|].
              now apply negb_false_iff, isTruthy_iff in Ht.
      * intros [Hf Ht]. split; [split|].
        -- destruct (lookup m a) as [[|]|] eqn:E; auto.
           exfalso. apply (Hf a); simpl; auto.
        -- destruct (lookup m b) as [[|]|] eqn:E; auto.
           exfalso. apply (Hf b); simpl; auto.
        -- destruct (Nat.ltb_spec 0 (countTrue m)) as [Hpos|Hz]; [|now left].
           right. destruct (Ht Hpos) as (t & [<-|[<-|[]]] & Hl); rewrite Hl;
             auto.
Qed.

(** When the types ask for no exact pair, a species they do not ask
    for has an excluded type, or none of the required ones. *)
Lemma typesAsked_refused (m : Obj) (types : list string) :
  ~ ((forall t, In t types -> lookup m t <> Some false)
     /\ (0 < countTrue m ->
         exists t, In t types /\ lookup m t = Some true)) ->
  (exists t, In t types /\ lookup m t = Some false)
  \/ (0 < countTrue m /\ forall t, In t types -> lookup m t <> Some true).
Proof.
  intros Hnot.
  destruct (existsb (fun t => isFalse (lookup m t)) types) eqn:Ef.
  { apply existsb_exists in Ef as (t & Ht & Hf). left. exists t.
    split; auto. now apply isFalse_iff. }
  assert (Hno : forall t, In t types -> lookup m t <> Some false).
  { intros t Ht E.
    assert (Hex : existsb (fun t => isFalse (lookup m t)) types = true)
      by (apply existsb_exists; exists t; split; auto; now rewrite E).
    congruence. }
  right.
  destruct (Nat.lt_ge_cases 0 (countTrue m)) as [Hpos|Hz];
    [|exfalso; apply Hnot; split; auto; intros; lia].
  split; auto. intros t Ht E. apply Hnot. split; auto.
  intros _. exists t. auto.
Qed.

(** C6: for the types object [m] that a query builds, a pipeline that
    completes also completes without the types of the query, and of the
    species with one type or two different ones it leaves those that it
    leaves without them and that the types ask for.  With exactly two
    required values these are the species with two types that are
    exactly the required values, so that no species of one type is
    left.  Otherwise they are the species none of whose types is
    excluded and, when some value is required, one of whose types is
    required. *)
Theorem types_filter_spec
    (T : Tools) (broadcasting : bool) (targets : list string)
    (fuel : nat) (st : Vars) (m : Obj) (dex dex' : Dex) :
  loop T broadcasting initialVars targets = Normal st ->
  s_types (searches st) = Some m ->
  applyFilters T fuel st dex = Normal dex' ->
  exists others,
    applyFilters T fuel (without st CatTypes) dex = Normal others
    /\ forall entry,
         wellTyped (snd entry) ->
         (In entry dex' <-> In entry others /\ typesAsked m (snd entry))
         /\ (countTrue m = 2 ->
             forall a, Template.types (snd entry) = [a] -> ~ In entry dex')
         /\ (countTrue m = 2 ->
             In entry dex' ->
             exists a b,
               Template.types (snd entry) = [a; b]
               /\ lookup m a = Some true /\ lookup m b = Some true)
         /\ (countTrue m <> 2 ->
             In entry others ->
             (~ In entry dex'
              <-> (exists t,
                      In t (Template.types (snd entry))
                      /\ lookup m t = Some false)
                  \/ (0 < countTrue m
                      /\ forall t,
                           In t (Template.types (snd entry)) ->
                           lookup m t <> Some true))).
Proof.
  intros Hloop Hm Hrun.
  assert (Hu : lookup m "undefined" = None).
  { apply (loop_typesClean _ _ _ _ _ Hloop); auto. intros m0. discriminate. }
  destruct (applyFilters_without T fuel st CatTypes dex dex' Hrun)
    as (others & Ho & Hiff).
  exists others. split; auto. intros entry Hwt.
  assert (Hk : keptBy T fuel st CatTypes (snd entry) = true
               <-> typesAsked m (snd entry)).
  { unfold keptBy. cbn [category]. rewrite Hm. now apply typesKeep_spec. }
  assert (Hmain : In entry dex' <-> In entry others /\ typesAsked m (snd entry)).
  { rewrite Hiff. now rewrite Hk. }
  split; [exact Hmain|]. split; [|split].
  - intros Hc a Ha Hin. apply Hmain in Hin as [_ Hasked].
    unfold typesAsked in Hasked. apply Nat.eqb_eq in Hc. rewrite Hc in Hasked.
    destruct Hasked as (a' & b' & E & _). congruence.
  - intros Hc Hin. apply Hmain in Hin as [_ Hasked].
    unfold typesAsked in Hasked. apply Nat.eqb_eq in Hc. rewrite Hc in Hasked.
    destruct Hasked as (a & b & E & H). exists a, b. split; auto.
    split; apply H; auto.
  - intros Hc Hin. rewrite Hmain.
    unfold typesAsked. apply Nat.eqb_neq in Hc. rewrite Hc.
    split.
    + intros Hnot. apply typesAsked_refused. intros H. apply Hnot. auto.
    + intros [(t & Ht & Hf)|[Hpos Hnone]] [_ [Hno Hsome]].
      * exact (Hno t Ht Hf).
      * destruct (Hsome Hpos) as (t & Ht & Htrue). exact (Hnone t Ht Htrue).
Qed.

Lemma types_filter_spec_witness :
  exists others,
    applyFilters Examples.steelCatalog 0
      (without
         (withSearches initialVars
            (setCategory noSearches CatTypes
               [("Grass", true); ("Steel", true)]))
         CatTypes)
      (scan Examples.steelCatalog initialVars)
    = Normal others
    /\ forall entry,
         wellTyped (snd entry) ->
         (In entry (scan Examples.steelCatalog initialVars)
          <-> In entry others
              /\ typesAsked [("Grass", true); ("Steel", true)] (snd entry))
         /\ (countTrue [("Grass", true); ("Steel", true)] = 2 ->
             forall a,
               Template.types (snd entry) = [a] ->
               ~ In entry (scan Examples.steelCatalog initialVars))
         /\ (countTrue [("Grass", true); ("Steel", true)] = 2 ->
             In entry (scan Examples.steelCatalog initialVars) ->
             exists a b,
               Template.types (snd entry) = [a; b]
               /\ lookup [("Grass", true); ("Steel", true)] a = Some true
               /\ lookup [("Grass", true); ("Steel", true)] b = Some true)
         /\ (countTrue [("Grass", true); ("Steel", true)] <> 2 ->
             In entry others ->
             (~ In entry (scan Examples.steelCatalog initialVars)
              <-> (exists t,
                      In t (Template.types (snd entry))
                      /\ lookup [("Grass", true); ("Steel", true)] t
                         = Some false)
                  \/ (0 < countTrue [("Grass", true); ("Steel", true)]
                      /\ forall t,
                           In t (Template.types (snd entry)) ->
                           lookup [("Grass", true); ("Steel", true)] t
                           <> Some true))).
Proof.
  apply (types_filter_spec Examples.steelCatalog false
           ["grass type"; " Steel type"] 0
           (withSearches initialVars
              (setCategory noSearches CatTypes
                 [("Grass", true); ("Steel", true)]))
           [("Grass", true); ("Steel", true)]
           (scan Examples.steelCatalog initialVars)
           (scan Examples.steelCatalog initialVars)).
  - reflexivity.
  - reflexivity.
  - reflexivity.
Defined.

(** Two required types leave the species that have both, and no
    species of one type; one required type leaves the species that
    have it. *)
Example types_filter_examples :
  dexsearch Examples.steelCatalog Examples.noShuffle false 0
    "grass type,steel type"
  = Returns (SendReplyBox (Listing ["Ferroseed"; "Ferrothorn"]))
  /\ dexsearch Examples.mixedCatalog Examples.noShuffle false 0
       "grass type,steel type"
     = Returns (SendReplyBox NoPokemonFound)
  /\ dexsearch Examples.mixedCatalog Examples.noShuffle false 0 "grass type"
     = Returns (SendReplyBox (Listing ["Bulbasaur"; "Ivysaur"]))
  /\ dexsearch Examples.mixedCatalog Examples.noShuffle false 0 "!grass type"
     = Returns (SendReplyBox NoPokemonFound).
Proof. repeat split; reflexivity. Qed.

(** ** String primitives: checks *)

Example trim_ex : JS.trim "  Fire type " = "Fire type".
Proof. reflexivity. Qed.

Example split_ex : JS.split "," "a,,b c," = ["a"; ""; "b c"; ""].
Proof. reflexivity. Qed.

Example parseInt_ex :
  (JS.parseInt " 3abc", JS.parseInt "0x5", JS.parseInt "x", JS.parseInt "-2")
  = (Some 3%Z, Some 5%Z, None, Some (-2)%Z).
Proof. reflexivity. Qed.

Example ofNumber_ex : JS.ofNumber 6 = "6".
Proof. reflexivity. Qed.


(** * Further properties of the command *)

(** ** The predicate set built by the token loop *)

Lemma countTrue_set (m : Obj) (k : string) (v : bool) :
  countTrue (set m k v) <= countTrue m + (if v then 1 else 0).
Proof.
  unfold countTrue.
  induction m as [|[k0 v0] m IH]; simpl.
  - destruct v; simpl; lia.
  - destruct (k0 =? k); simpl.
    + destruct v, v0; simpl; lia.
    + destruct v0; simpl; lia.
Qed.

Lemma set_same (m : Obj) (k : string) (v : bool) :
  lookup m k = Some v -> set m k v = m.
Proof.
  induction m as [|[k0 v0] m IH]; simpl; [discriminate|].
  destruct (k0 =? k).
  - now intros [= ->].
  - intros H. now rewrite IH.
Qed.

Lemma countTrue_store (m : Obj) (k : string) (v : bool) :
  countTrue (store m k v) <= countTrue m + (if v then 1 else 0).
Proof.
  unfold store. destruct (k =? "__proto__"); [lia|apply countTrue_set].
Qed.

Lemma store_same (m : Obj) (k : string) (v : bool) :
  lookup m k = Some v -> store m k v = m.
Proof.
  intros H. unfold store. destruct (k =? "__proto__"); auto.
  now apply set_same.
Qed.

Lemma constrain_withinCaps (st st' : Vars) (s : Slot) (n : bool) :
  constrain st s n = Normal st' -> withinCaps st -> withinCaps st'.
Proof.
  destruct s as [c key| |]; simpl.
  - unfold addSearch.
    destruct (capReached c _ n) eqn:Hcap; [discriminate|].
    destruct (clash _ n); [discriminate|].
    intros [= <-] Hw c' k msg m Hc. simpl.
    destruct (Category_eq_dec c c') as [<-|Hne].
    + rewrite category_setCategory_same. intros [= <-].
      unfold capReached in Hcap. rewrite Hc in Hcap.
      pose proof (countTrue_store
                    match category (searches st) c with
                    | Some m => m
                    | None => []
                    end key (negb n)) as Hs.
      assert (Hold : countTrue match category (searches st) c with
                               | Some m => m
                               | None => []
                               end <= k).
      { destruct (category (searches st) c) eqn:E.
        - eapply Hw; eauto.
        - unfold countTrue. simpl. lia. }
      destruct n; simpl in *; [lia|].
      rewrite andb_true_r in Hcap.
      destruct (Nat.eqb_spec
                  (countTrue match category (searches st) c with
                             | Some m => m
                             | None => []
                             end) k); [discriminate|lia].
    + rewrite category_setCategory_other by assumption.
      intros Hm. eapply Hw; eauto.
  - destruct (clash _ n); [discriminate|]. intros [= <-] Hw. exact Hw.
  - destruct (clash _ n); [discriminate|]. intros [= <-] Hw. exact Hw.
Qed.

Lemma loop_withinCaps (T : Tools) (broadcasting : bool) (l : list string)
    (st st' : Vars) :
  loop T broadcasting st l = Normal st' -> withinCaps st -> withinCaps st'.
Proof.
  revert st. induction l as [|raw l IH]; simpl; intros st.
  - now intros [= <-].
  - destruct (processTarget T broadcasting st raw) as [st1|] eqn:E; simpl;
      [|discriminate].
    intros Hl Hw. apply (IH st1 Hl).
    rewrite processTarget_classify in E.
    destruct (classify T raw) as [s n| |target].
    + eapply constrain_withinCaps; eauto.
    + destruct broadcasting; [discriminate|]. injection E as <-. exact Hw.
    + discriminate.
Qed.

Lemma initial_withinCaps : withinCaps initialVars.
Proof. intros c n msg m _ Hc. destruct c; discriminate. Qed.

(** X1: a predicate set accepted by the token loop requires at most one
    ability, at most four moves and at most two types. *)
Theorem accepted_query_within_caps
    (T : Tools) (broadcasting : bool) (targets : list string) (st : Vars) :
  loop T broadcasting initialVars targets = Normal st ->
  (forall m, s_ability (searches st) = Some m -> countTrue m <= 1)
  /\ (forall m, s_moves (searches st) = Some m -> countTrue m <= 4)
  /\ (forall m, s_types (searches st) = Some m -> countTrue m <= 2).
Proof.
  intros Hl.
  pose proof (loop_withinCaps _ _ _ _ _ Hl initial_withinCaps) as Hw.
  repeat split; intros m Hm.
  - exact (Hw CatAbility 1 SpecifyOneAbility m eq_refl Hm).
  - exact (Hw CatMoves 4 MaxFourMoves m eq_refl Hm).
  - exact (Hw CatTypes 2 MaxTwoTypes m eq_refl Hm).
Qed.

Lemma accepted_query_within_caps_witness :
  (forall m,
      s_ability (searches
                   (withSearches initialVars
                      (setCategory noSearches CatTypes
                         [("Fire", true); ("Water", false); ("Grass", true)])))
      = Some m -> countTrue m <= 1)
  /\ (forall m,
        s_moves (searches
                   (withSearches initialVars
                      (setCategory noSearches CatTypes
                         [("Fire", true); ("Water", false); ("Grass", true)])))
        = Some m -> countTrue m <= 4)
  /\ (forall m,
        s_types (searches
                   (withSearches initialVars
                      (setCategory noSearches CatTypes
                         [("Fire", true); ("Water", false); ("Grass", true)])))
        = Some m -> countTrue m <= 2).
Proof.
  apply (accepted_query_within_caps (Examples.tools []) false
           ["fire type"; "!water type"; "grass type"]).
  reflexivity.
Defined.

Lemma constrain_origin (st st' : Vars) (s s' : Slot) (n v : bool) :
  constrain st s' n = Normal st' ->
  polarity st' s = Some v ->
  polarity st s = Some v \/ (s' = s /\ v = negb n).
Proof.
  destruct s' as [c' key'| |]; simpl.
  - unfold addSearch.
    destruct (capReached c' _ n); [discriminate|].
    destruct (clash _ n); [discriminate|].
    intros [= <-]. destruct s as [c key| |]; simpl; auto.
    destruct (Category_eq_dec c' c) as [->|Hcat].
    + rewrite category_setCategory_same.
      destruct (String.eqb_spec key' key) as [->|Hne].
      * unfold store. destruct (key =? "__proto__").
        -- destruct (category (searches st) c); simpl; auto; discriminate.
        -- rewrite lookup_set_same. intros [= <-]. auto.
      * rewrite lookup_store_other by assumption.
        destruct (category (searches st) c); simpl; auto; discriminate.
    + rewrite category_setCategory_other by assumption. auto.
  - destruct (clash _ n); [discriminate|]. intros [= <-].
    destruct s; simpl; auto; intros [= <-]; auto.
  - destruct (clash _ n); [discriminate|]. intros [= <-].
    destruct s; simpl; auto; intros [= <-]; auto.
Qed.

Lemma loop_origin (T : Tools) (broadcasting : bool) (l : list string)
    (st st' : Vars) (s : Slot) (v : bool) :
  loop T broadcasting st l = Normal st' ->
  polarity st' s = Some v ->
  polarity st s = Some v
  \/ exists tok, In tok l /\ classify T tok = Constrains s (negb v).
Proof.
  revert st. induction l as [|raw l IH]; simpl; intros st.
  - intros [= <-]. auto.
  - destruct (processTarget T broadcasting st raw) as [st1|] eqn:E; simpl;
      [|discriminate].
    intros Hl Hv. destruct (IH st1 Hl Hv) as [H|(tok & Hin & Hc)].
    + rewrite processTarget_classify in E.
      destruct (classify T raw) as [s' n| |target] eqn:C.
      * destruct (constrain_origin _ _ _ _ _ _ E H) as [H'|[-> ->]]; auto.
        right. exists raw. split; auto. now rewrite negb_involutive.
      * destruct broadcasting; [discriminate|]. injection E as <-.
        left. now destruct s.
      * discriminate.
    + right. exists tok. auto.
Qed.

Lemma loop_stores (T : Tools) (broadcasting : bool) (targets : list string)
    (st : Vars) (tok : string) (s : Slot) (n : bool) :
  loop T broadcasting initialVars targets = Normal st ->
  In tok targets ->
  classify T tok = Constrains s n ->
  (forall c, s <> InCategory c "__proto__") ->
  polarity st s = Some (negb n).
Proof.
  intros Hl Hin Hc Hk.
  apply in_split in Hin as (pre & post & ->).
  rewrite loop_app in Hl.
  destruct (loop T broadcasting initialVars pre) as [st0|]; simpl in Hl;
    [|discriminate].
  destruct (processTarget T broadcasting st0 tok) as [st1|] eqn:E;
    simpl in Hl; [|discriminate].
  eapply loop_keeps; eauto.
  rewrite processTarget_classify, Hc in E.
  now apply constrain_stores in E.
Qed.

(** Nothing is ever stored under the key __proto__. *)
Lemma constrain_proto (st st' : Vars) (s : Slot) (n : bool) :
  constrain st s n = Normal st' ->
  (forall c, polarity st (InCategory c "__proto__") = None) ->
  forall c, polarity st' (InCategory c "__proto__") = None.
Proof.
  destruct s as [c' key| |]; cbn [constrain].
  - unfold addSearch.
    destruct (capReached c' _ n); [discriminate|].
    destruct (clash _ n); [discriminate|].
    intros [= <-] H c. cbn [polarity withSearches searches].
    destruct (Category_eq_dec c' c) as [->|Hne].
    + rewrite category_setCategory_same. specialize (H c). cbn [polarity] in H.
      unfold store. destruct (String.eqb_spec key "__proto__") as [->|Hk].
      * destruct (category (searches st) c); auto.
      * rewrite lookup_set_other by assumption.
        destruct (category (searches st) c); auto.
    + rewrite category_setCategory_other by assumption. apply (H c).
  - destruct (clash _ n); [discriminate|]. intros [= <-] H c. apply (H c).
  - destruct (clash _ n); [discriminate|]. intros [= <-] H c. apply (H c).
Qed.

Lemma loop_proto (T : Tools) (broadcasting : bool) (l : list string)
    (st st' : Vars) :
  loop T broadcasting st l = Normal st' ->
  (forall c, polarity st (InCategory c "__proto__") = None) ->
  forall c, polarity st' (InCategory c "__proto__") = None.
Proof.
  revert st. induction l as [|raw l IH]; simpl; intros st.
  - now intros [= <-].
  - destruct (processTarget T broadcasting st raw) as [st1|] eqn:E; simpl;
      [|discriminate].
    intros Hl H. apply (IH st1 Hl).
    rewrite processTarget_classify in E.
    destruct (classify T raw) as [s n| |target].
    + eapply constrain_proto; eauto.
    + destruct broadcasting; [discriminate|]. injection E as <-. exact H.
    + discriminate.
Qed.

(** X2: after the token loop has accepted a query in ASCII text, what
    a slot holds is what the tokens asked for.  A polarity held by a
    slot was asked for by a token of the query; a polarity asked for by
    a token is held by its slot, unless the key of the slot is
    __proto__, under which nothing is ever stored. *)
Theorem stored_polarities_are_the_requests
    (T : Tools) (broadcasting : bool) (targets : list string) (st : Vars)
    (s : Slot) (v : bool) :
  forallb JS.isAscii targets = true ->
  loop T broadcasting initialVars targets = Normal st ->
  (polarity st s = Some v ->
   exists tok, In tok targets /\ classify T tok = Constrains s (negb v))
  /\ ((exists tok, In tok targets /\ classify T tok = Constrains s (negb v)) ->
      (forall c, s <> InCategory c "__proto__") ->
      polarity st s = Some v)
  /\ (forall c, polarity st (InCategory c "__proto__") = None).
Proof.
  intros _ Hl. split; [|split].
  - intros Hv. destruct (loop_origin _ _ _ _ _ _ _ Hl Hv) as [H|H]; auto.
    destruct s as [[] key| |]; discriminate.
  - intros (tok & Hin & Hc) Hk.
    rewrite <- (negb_involutive v). eapply loop_stores; eauto.
  - apply (loop_proto _ _ _ _ _ Hl). intros []; reflexivity.
Qed.

Example stored_polarities_example :
  exists st,
    loop (Examples.tools []) false initialVars
      ["ou"; "!mega"; "constructor"; "__proto__"] = Normal st
    /\ polarity st MegaFlag = Some false
    /\ polarity st (InCategory CatTier "ou") = Some true
    /\ polarity st (InCategory CatTier "constructor") = Some true
    /\ polarity st (InCategory CatTier "__proto__") = None
    /\ seen st (InCategory CatTier "__proto__") = Some true.
Proof. eexists. repeat split; reflexivity. Qed.

Lemma stored_polarities_are_the_requests_witness :
  (polarity (withSearches
               {| searches := noSearches; showAll := false;
                  megaSearch := Some false; feSearch := None |}
               (setCategory noSearches CatTier [("ou", true)]))
     MegaFlag = Some false ->
   exists tok,
     In tok ["ou"; "!mega"]
     /\ classify (Examples.tools []) tok = Constrains MegaFlag (negb false))
  /\ ((exists tok,
          In tok ["ou"; "!mega"]
          /\ classify (Examples.tools []) tok
             = Constrains MegaFlag (negb false)) ->
      (forall c, MegaFlag <> InCategory c "__proto__") ->
      polarity (withSearches
                  {| searches := noSearches; showAll := false;
                     megaSearch := Some false; feSearch := None |}
                  (setCategory noSearches CatTier [("ou", true)]))
        MegaFlag = Some false)
  /\ (forall c,
        polarity (withSearches
                    {| searches := noSearches; showAll := false;
                       megaSearch := Some false; feSearch := None |}
                    (setCategory noSearches CatTier [("ou", true)]))
          (InCategory c "__proto__") = None).
Proof.
  apply (stored_polarities_are_the_requests (Examples.tools []) false
           ["ou"; "!mega"]); reflexivity.
Defined.

(** ** Tokens that end the command, and tokens that change nothing *)

Lemma truthy_of_nonempty (target : string) :
  target <> "" -> JS.truthy target = true.
Proof. intros H. unfold JS.truthy. now apply String.eqb_neq in H as ->. Qed.

(** X3: a token that matches no category is never ignored.  A query
    in ASCII text that contains one is rejected before the catalog is
    scanned, and when the tokens before it are accepted the reply names
    that token, in the form the type branch may have given it.  The
    names constructor and __proto__, which every object answers for,
    are no such tokens: they are taken as tiers. *)
Theorem unrecognised_token_rejects_query
    (T : Tools) (randomize : list string -> list string)
    (broadcasting : bool) (fuel : nat) (target : string)
    (pre post : list string) (tok shownAs : string) :
  target <> "" ->
  JS.isAscii target = true ->
  JS.split "," target = pre ++ tok :: post ->
  classify T tok = Unrecognised shownAs ->
  (exists m,
      dexsearch T randomize broadcasting fuel target = Returns (SendReplyBox m)
      /\ rejection m = true)
  /\ (forall st,
        loop T broadcasting initialVars pre = Normal st ->
        dexsearch T randomize broadcasting fuel target
        = Returns (SendReplyBox (NotFound shownAs))).
Proof.
  intros Hne _ Hsplit Hc.
  apply truthy_of_nonempty in Hne.
  assert (Hrun : forall st,
             loop T broadcasting initialVars pre = Normal st ->
             loop T broadcasting initialVars (JS.split "," target)
             = reply (NotFound shownAs)).
  { intros st Hl. rewrite Hsplit, loop_app, Hl. simpl.
    now rewrite processTarget_classify, Hc. }
  split.
  - destruct (loop T broadcasting initialVars pre) as [st|c] eqn:E.
    + exists (NotFound shownAs). split; auto.
      apply dexsearch_rejected; auto. now apply (Hrun st).
    + destruct (loop_abrupt _ _ _ _ _ E) as (m & -> & Hm).
      exists m. split; auto. apply dexsearch_rejected; auto.
      now rewrite Hsplit, loop_app, E.
  - intros st Hl. apply dexsearch_rejected; auto. now apply (Hrun st).
Qed.

Lemma unrecognised_token_rejects_query_witness :
  dexsearch Examples.mixedCatalog Examples.noShuffle false 0 "ou, ghost type"
  = Returns (SendReplyBox (NotFound "Ghost")).
Proof.
  refine (proj2 (unrecognised_token_rejects_query
                   Examples.mixedCatalog Examples.noShuffle false 0
                   "ou, ghost type" ["ou"] [] " ghost type" "Ghost" _ _ _ _)
            (withSearches initialVars
               (setCategory noSearches CatTier [("ou", true)])) _).
  - discriminate.
  - reflexivity.
  - reflexivity.
  - reflexivity.
  - reflexivity.
Defined.

(** The two names that every object answers for are tiers to the
    command: the first leaves no species, the second stores nothing. *)
Example inherited_names_are_tiers :
  classify Examples.mixedCatalog "constructor"
  = Constrains (InCategory CatTier "constructor") false
  /\ classify Examples.mixedCatalog "__proto__"
     = Constrains (InCategory CatTier "__proto__") false
  /\ classify Examples.mixedCatalog "__proto__ type"
     = Constrains (InCategory CatTypes "__proto__") false
  /\ dexsearch Examples.mixedCatalog Examples.noShuffle false 0 "constructor"
     = Returns (SendReplyBox NoPokemonFound)
  /\ dexsearch Examples.mixedCatalog Examples.noShuffle false 0 "__proto__"
     = Returns (SendReplyBox (Listing ["Bulbasaur"; "Ivysaur"]))
  /\ dexsearch Examples.mixedCatalog Examples.noShuffle false 0 "!__proto__"
     = Returns (SendReplyBox (CannotBoth (OfCategory CatTier))).
Proof. repeat split; reflexivity. Qed.

Lemma truthy_of_long_split (target : string) (l : list string) :
  JS.split "," target = l -> 2 <= List.length l -> JS.truthy target = true.
Proof.
  intros Hs Hl. destruct (JS.truthy target) eqn:E; auto.
  rewrite (split_of_falsy _ E) in Hs. subst l. simpl in Hl. lia.
Qed.

Lemma split_not_nil (sep : ascii) (s : string) : JS.split sep s <> [].
Proof.
  destruct s as [|c s]; simpl; [discriminate|].
  destruct (Ascii.eqb c sep); [discriminate|].
  destruct (JS.split sep s); discriminate.
Qed.

Lemma loop_only_all (T : Tools) (l : list string) (st : Vars) :
  (forall tok, In tok l -> classify T tok = AllKeyword) ->
  loop T false st l
  = Normal {| searches := searches st;
              showAll := match l with [] => showAll st | _ => true end;
              megaSearch := megaSearch st; feSearch := feSearch st |}.
Proof.
  revert st. induction l as [|tok l IH]; intros st H.
  - now destruct st.
  - cbn [loop]. rewrite processTarget_classify, (H tok (or_introl eq_refl)).
    cbn [bind]. rewrite IH by (intros t Ht; apply H; now right).
    now destruct l.
Qed.

(** X4: outside a broadcast, a query made only of the keyword all, once
    or several times, is answered with the request for search
    parameters; no list of the whole catalog is produced. *)
Theorem all_alone_asks_for_parameters
    (T : Tools) (randomize : list string -> list string)
    (fuel : nat) (target : string) :
  target <> "" ->
  (forall tok, In tok (JS.split "," target) -> classify T tok = AllKeyword) ->
  dexsearch T randomize false fuel target
  = Returns (SendReplyBox NoSearchParameters).
Proof.
  intros Hne Hall. unfold dexsearch.
  rewrite (truthy_of_nonempty _ Hne). cbn [negb].
  rewrite (loop_only_all T _ initialVars Hall).
  pose proof (split_not_nil "," target) as Hs.
  destruct (JS.split "," target); [contradiction|]. reflexivity.
Qed.

Lemma all_alone_asks_for_parameters_witness :
  dexsearch Examples.mixedCatalog Examples.noShuffle false 0 "all, !ALL "
  = Returns (SendReplyBox NoSearchParameters).
Proof.
  apply (all_alone_asks_for_parameters Examples.mixedCatalog
           Examples.noShuffle 0 "all, !ALL ").
  - discriminate.
  - intros tok [<-|[<-|[]]]; reflexivity.
Defined.

Lemma countTrue_required (m : Obj) (k : string) :
  lookup m k = Some true -> 1 <= countTrue m.
Proof.
  intros H. apply lookup_true_counted in H.
  unfold countTrue. rewrite <- (length_map fst).
  destruct (map fst (filter (fun kv => snd kv) m)); [contradiction|simpl; lia].
Qed.

(** X5: once a query requires an ability, every later token that
    requires an ability is refused with the message that only one may be
    given, also when it names the ability that is already required.
    The name of the first ability is not __proto__, under which the
    ability object stores nothing. *)
Theorem second_required_ability_refused
    (T : Tools) (randomize : list string -> list string)
    (broadcasting : bool) (fuel : nat) (target : string)
    (pre mid post : list string) (a z : string) (first second : string)
    (st : Vars) :
  JS.split "," target = pre ++ a :: mid ++ z :: post ->
  classify T a = Constrains (InCategory CatAbility first) false ->
  first <> "__proto__" ->
  classify T z = Constrains (InCategory CatAbility second) false ->
  loop T broadcasting initialVars (pre ++ a :: mid) = Normal st ->
  dexsearch T randomize broadcasting fuel target
  = Returns (SendReplyBox SpecifyOneAbility).
Proof.
  intros Hsplit Ha Hfirst Hz Hl.
  assert (Hp : polarity st (InCategory CatAbility first) = Some true).
  { apply (loop_stores T broadcasting (pre ++ a :: mid) st a _ false Hl); auto.
    - apply in_or_app. right. now left.
    - intros c [= _ E]. contradiction. }
  simpl in Hp.
  destruct (s_ability (searches st)) as [m|] eqn:Em; [|discriminate].
  assert (Hcount : countTrue m = 1).
  { pose proof (countTrue_required _ _ Hp).
    pose proof (loop_withinCaps _ _ _ _ _ Hl initial_withinCaps
                  CatAbility 1 SpecifyOneAbility m eq_refl Em). lia. }
  apply dexsearch_rejected.
  - apply (truthy_of_long_split target _ Hsplit).
    rewrite length_app. simpl. rewrite length_app. simpl. lia.
  - rewrite Hsplit.
    replace (pre ++ a :: mid ++ z :: post)
      with ((pre ++ a :: mid) ++ z :: post) by now rewrite <- app_assoc.
    rewrite loop_app, Hl. cbn [bind loop].
    rewrite processTarget_classify, Hz. cbn [constrain].
    unfold addSearch, capReached. cbn [category cap].
    rewrite Em, Hcount. reflexivity.
Qed.

Lemma second_required_ability_refused_witness :
  dexsearch Samples.tools Examples.noShuffle false 0 "levitate,dark type,Levitate"
  = Returns (SendReplyBox SpecifyOneAbility).
Proof.
  apply (second_required_ability_refused Samples.tools Examples.noShuffle
           false 0 "levitate,dark type,Levitate" [] ["dark type"] []
           "levitate" "Levitate" "Levitate" "Levitate"
           (withSearches initialVars
              (setCategory
                 (setCategory noSearches CatAbility [("Levitate", true)])
                 CatTypes [("Dark", true)])));
    try reflexivity.
  discriminate.
Defined.

(** An ability named __proto__ is required without being stored, so
    that a second ability is accepted after it. *)
Example ability_named_proto :
  classify Samples.odd "x"
  = Constrains (InCategory CatAbility "__proto__") false
  /\ classify Samples.odd "levitate"
     = Constrains (InCategory CatAbility "Levitate") false
  /\ dexsearch Samples.odd Examples.noShuffle false 0 "x,levitate"
     = Returns (SendReplyBox (Listing ["Azelf"; "Gengar"; "Mismagius"; "Rotom"])).
Proof. repeat split; reflexivity. Qed.

Lemma split_app (sep : ascii) (s t : string) :
  JS.split sep (s ++ String sep t)%string = JS.split sep s ++ JS.split sep t.
Proof.
  induction s as [|c s IH]; simpl.
  - now rewrite Ascii.eqb_refl.
  - rewrite IH. destruct (Ascii.eqb c sep); auto.
    pose proof (split_not_nil sep s) as Hn.
    destruct (JS.split sep s); [contradiction|reflexivity].
Qed.

Lemma append_nonempty (s t : string) : s <> "" -> (s ++ t)%string <> "".
Proof. destruct s; simpl; [contradiction|discriminate]. Qed.

Lemma loop_sees (T : Tools) (broadcasting : bool) (targets : list string)
    (st : Vars) (tok : string) (s : Slot) (n : bool) :
  loop T broadcasting initialVars targets = Normal st ->
  In tok targets ->
  classify T tok = Constrains s n ->
  seen st s = Some (negb n).
Proof.
  intros Hl Hin Hc.
  apply in_split in Hin as (pre & post & ->).
  rewrite loop_app in Hl.
  destruct (loop T broadcasting initialVars pre) as [st0|]; simpl in Hl;
    [|discriminate].
  destruct (processTarget T broadcasting st0 tok) as [st1|] eqn:E;
    simpl in Hl; [|discriminate].
  eapply loop_seen_keeps; eauto.
  rewrite processTarget_classify, Hc in E.
  now apply constrain_sets in E.
Qed.

(** The object of a category, once created, stays. *)
Lemma constrain_category_keeps (st st' : Vars) (s : Slot) (n : bool)
    (c : Category) :
  constrain st s n = Normal st' ->
  category (searches st) c <> None \/ (exists key, s = InCategory c key) ->
  category (searches st') c <> None.
Proof.
  destruct s as [c' key| |]; cbn [constrain].
  - unfold addSearch.
    destruct (capReached c' _ n); [discriminate|].
    destruct (clash _ n); [discriminate|].
    intros [= <-]. cbn [withSearches searches].
    destruct (Category_eq_dec c' c) as [->|Hne].
    + intros _. now rewrite category_setCategory_same.
    + rewrite category_setCategory_other by assumption.
      intros [H|(k & [= E _])]; [assumption|contradiction].
  - destruct (clash _ n); [discriminate|]. intros [= <-].
    intros [H|(k & [=])]; assumption.
  - destruct (clash _ n); [discriminate|]. intros [= <-].
    intros [H|(k & [=])]; assumption.
Qed.

Lemma loop_category_keeps (T : Tools) (broadcasting : bool) (l : list string)
    (st st' : Vars) (c : Category) :
  loop T broadcasting st l = Normal st' ->
  category (searches st) c <> None ->
  category (searches st') c <> None.
Proof.
  revert st. induction l as [|raw l IH]; simpl; intros st.
  - now intros [= <-].
  - destruct (processTarget T broadcasting st raw) as [st1|] eqn:E; simpl;
      [|discriminate].
    intros Hl H. apply (IH st1 Hl).
    rewrite processTarget_classify in E.
    destruct (classify T raw) as [s n| |target].
    + eapply constrain_category_keeps; eauto.
    + destruct broadcasting; [discriminate|]. now injection E as <-.
    + discriminate.
Qed.

Lemma loop_creates (T : Tools) (broadcasting : bool) (targets : list string)
    (st : Vars) (tok : string) (c : Category) (key : string) (n : bool) :
  loop T broadcasting initialVars targets = Normal st ->
  In tok targets ->
  classify T tok = Constrains (InCategory c key) n ->
  category (searches st) c <> None.
Proof.
  intros Hl Hin Hc.
  apply in_split in Hin as (pre & post & ->).
  rewrite loop_app in Hl.
  destruct (loop T broadcasting initialVars pre) as [st0|]; simpl in Hl;
    [|discriminate].
  destruct (processTarget T broadcasting st0 tok) as [st1|] eqn:E;
    simpl in Hl; [|discriminate].
  eapply loop_category_keeps; eauto.
  rewrite processTarget_classify, Hc in E.
  eapply constrain_category_keeps; eauto.
Qed.

Lemma constrain_repeat (st : Vars) (s : Slot) (n : bool) :
  seen st s = Some (negb n) ->
  match s with
  | InCategory c key =>
      exists m, category (searches st) c = Some m
                /\ (lookup m key = Some (negb n) \/ key = "__proto__")
  | _ => True
  end ->
  (n = true \/ match s with InCategory c _ => cap c = None | _ => True end) ->
  constrain st s n = Normal st.
Proof.
  intros Hp Hm Hcap. destruct s as [c key| |]; simpl in *.
  - unfold addSearch.
    destruct Hm as (m & Em & Hk). rewrite Em in *.
    replace (capReached c m n) with (@None Message).
    + rewrite Hp, clash_spec.
      replace (Bool.eqb (negb n) n) with false by now destruct n.
      replace (store m key (negb n)) with m.
      * destruct st as [[] ? ? ?]. unfold withSearches. simpl in *.
        destruct c; simpl in *; now rewrite <- Em.
      * destruct Hk as [Hk| ->]; [now rewrite store_same|reflexivity].
    + unfold capReached. destruct Hcap as [-> | ->]; auto.
      destruct (cap c) as [[k msg]|]; auto. now rewrite andb_false_r.
  - rewrite Hp, clash_spec.
    replace (Bool.eqb (negb n) n) with false by now destruct n.
    destruct st. simpl in *. now rewrite Hp.
  - rewrite Hp, clash_spec.
    replace (Bool.eqb (negb n) n) with false by now destruct n.
    destruct st. simpl in *. now rewrite Hp.
Qed.

(** X6: repeating a request is harmless when it is negated, or when it
    is a tier, a colour, a generation, or the mega or fully evolved
    flag: the query with the token added at its end gets the reply of
    the query without it. *)
Theorem repeated_token_changes_nothing
    (T : Tools) (randomize : list string -> list string)
    (broadcasting : bool) (fuel : nat) (target tok again : string)
    (s : Slot) (n : bool) :
  target <> "" ->
  In tok (JS.split "," target) ->
  classify T tok = Constrains s n ->
  JS.split "," again = [again] ->
  classify T again = Constrains s n ->
  (n = true \/ match s with InCategory c _ => cap c = None | _ => True end) ->
  dexsearch T randomize broadcasting fuel (target ++ "," ++ again)
  = dexsearch T randomize broadcasting fuel target.
Proof.
  intros Hne Hin Hc Hone Hc' Hcap.
  unfold dexsearch.
  rewrite (truthy_of_nonempty _ Hne).
  rewrite (truthy_of_nonempty _ (append_nonempty _ ("," ++ again) Hne)).
  cbn [negb].
  change (target ++ "," ++ again)%string
    with (target ++ String "," again)%string.
  rewrite split_app, Hone, loop_app.
  destruct (loop T broadcasting initialVars (JS.split "," target)) as [st|c] eqn:E;
    cbn [bind loop]; auto.
  rewrite processTarget_classify, Hc'.
  rewrite constrain_repeat; auto.
  - eapply loop_sees; eauto.
  - destruct s as [c key| |]; auto.
    pose proof (loop_creates _ _ _ _ _ _ _ _ E Hin Hc) as Hcat.
    destruct (category (searches st) c) as [m|] eqn:Em; [|contradiction].
    exists m. split; auto.
    destruct (String.eqb_spec key "__proto__") as [->|Hk]; [now right|left].
    pose proof (loop_stores _ _ _ _ _ _ _ E Hin Hc) as Hp.
    cbn [polarity] in Hp. rewrite Em in Hp. apply Hp.
    intros c0 [= _ E0]. contradiction.
Qed.

Lemma repeated_token_changes_nothing_witness :
  dexsearch Examples.mixedCatalog Examples.noShuffle false 5
    ("green, !Grass Type" ++ "," ++ "!grass type")
  = dexsearch Examples.mixedCatalog Examples.noShuffle false 5
      "green, !Grass Type".
Proof.
  apply (repeated_token_changes_nothing Examples.mixedCatalog
           Examples.noShuffle false 5 "green, !Grass Type" " !Grass Type"
           "!grass type" (InCategory CatTypes "Grass") true).
  - discriminate.
  - simpl. auto.
  - reflexivity.
  - reflexivity.
  - reflexivity.
  - now left.
Defined.

(** ** How many names a reply shows *)

Lemma processTarget_showAll (T : Tools) (broadcasting : bool)
    (st st' : Vars) (raw : string) :
  processTarget T broadcasting st raw = Normal st' ->
  (showAll st = true -> showAll st' = true)
  /\ (classify T raw = AllKeyword -> showAll st' = true)
  /\ (showAll st' = true -> showAll st = true \/ broadcasting = false).
Proof.
  rewrite processTarget_classify.
  destruct (classify T raw) as [s n| |target].
  - destruct s as [c key| |]; simpl.
    + unfold addSearch.
      destruct (capReached c _ n); [discriminate|].
      destruct (clash _ n); [discriminate|].
      intros [= <-]. simpl. repeat split; auto; discriminate.
    + destruct (clash _ n); [discriminate|]. intros [= <-]. simpl.
      repeat split; auto; discriminate.
    + destruct (clash _ n); [discriminate|]. intros [= <-]. simpl.
      repeat split; auto; discriminate.
  - destruct broadcasting; [discriminate|]. intros [= <-]. simpl. auto.
  - discriminate.
Qed.

Lemma loop_showAll (T : Tools) (broadcasting : bool) (l : list string)
    (st st' : Vars) :
  loop T broadcasting st l = Normal st' ->
  (showAll st = true -> showAll st' = true)
  /\ ((exists tok, In tok l /\ classify T tok = AllKeyword) ->
      showAll st' = true)
  /\ (showAll st' = true -> showAll st = true \/ broadcasting = false).
Proof.
  revert st. induction l as [|raw l IH]; simpl; intros st.
  - intros [= <-]. repeat split; auto. intros (tok & [] & _).
  - destruct (processTarget T broadcasting st raw) as [st1|] eqn:E; simpl;
      [|discriminate].
    intros Hl. destruct (IH st1 Hl) as (H1 & H2 & H3).
    destruct (processTarget_showAll _ _ _ _ _ E) as (P1 & P2 & P3).
    repeat split.
    + auto.
    + intros (tok & [<-|Hin] & Hc); auto. apply H2. eauto.
    + intros H. destruct (H3 H); auto.
Qed.

Lemma insertSorted_length (x : string) (l : list string) :
  List.length (JS.insertSorted x l) = S (List.length l).
Proof.
  induction l as [|y l IH]; simpl; auto.
  destruct (String.leb x y); simpl; auto.
Qed.

Lemma sort_length (l : list string) : List.length (JS.sort l) = List.length l.
Proof.
  induction l as [|x l IH]; simpl; auto.
  now rewrite insertSorted_length, IH.
Qed.

(** X7: a query that contains the keyword all never gets the shortened
    reply of ten names and a count. *)
Theorem all_keyword_never_sampled
    (T : Tools) (randomize : list string -> list string)
    (broadcasting : bool) (fuel : nat) (target tok : string)
    (sample : list string) (more : Z) :
  In tok (JS.split "," target) ->
  classify T tok = AllKeyword ->
  dexsearch T randomize broadcasting fuel target
  <> Returns (SendReplyBox (Sample sample more)).
Proof.
  intros Hin Hc. unfold dexsearch.
  destruct (JS.truthy target); cbn [negb]; [|discriminate].
  destruct (loop T broadcasting initialVars (JS.split "," target)) as [st|c] eqn:E.
  - assert (Hs : showAll st = true).
    { apply (loop_showAll _ _ _ _ _ E). eauto. }
    destruct (showAll st && _ && _ && _); [discriminate|].
    destruct (applyFilters T fuel st (scan T st)) as [dex|c] eqn:F.
    + unfold format. rewrite Hs. cbn [orb].
      destruct (0 <? _)%nat; discriminate.
    + apply applyFilters_abrupt in F.
      destruct F as [->|[->|[mv ->]]]; discriminate.
  - destruct (loop_abrupt _ _ _ _ _ E) as (m & -> & Hm).
    intros [= ->]. discriminate.
Qed.

Lemma all_keyword_never_sampled_witness :
  dexsearch Examples.elevenCatalog Examples.noShuffle false 0 "ou,all"
  <> Returns (SendReplyBox (Sample [] 0)).
Proof.
  apply (all_keyword_never_sampled Examples.elevenCatalog Examples.noShuffle
           false 0 "ou,all" "all").
  - simpl. auto.
  - reflexivity.
Defined.

(** X8: in a broadcast no reply shows more than ten names, whatever the
    query and the catalog. *)
Theorem broadcast_shows_at_most_ten
    (T : Tools) (randomize : list string -> list string)
    (fuel : nat) (target : string) (m : Message) :
  dexsearch T randomize true fuel target = Returns (SendReplyBox m) ->
  List.length (shown m) <= 10.
Proof.
  unfold dexsearch.
  destruct (JS.truthy target); cbn [negb]; [|discriminate].
  destruct (loop T true initialVars (JS.split "," target)) as [st|c] eqn:E.
  - assert (Hs : showAll st = false).
    { destruct (showAll st) eqn:Hs; auto.
      destruct (proj2 (proj2 (loop_showAll _ _ _ _ _ E)) Hs); discriminate. }
    rewrite Hs. cbn [andb].
    destruct (applyFilters T fuel st (scan T st)) as [dex|c] eqn:F.
    + intros [= <-]. unfold format. rewrite Hs. cbn [orb].
      destruct (0 <? _)%nat; [|simpl; lia].
      destruct (Z.leb_spec
                  (Z.of_nat (List.length (familyFilter T (names dex)))) output)
        as [Hle|Hgt]; cbn [shown].
      * rewrite sort_length. unfold output in Hle. lia.
      * rewrite length_firstn. lia.
    + intros ->. apply applyFilters_abrupt in F.
      destruct F as [F|[F|[mv F]]]; try discriminate.
      injection F as ->. simpl. lia.
  - intros ->. destruct (loop_abrupt _ _ _ _ _ E) as (m' & [= <-] & Hm).
    destruct m; try discriminate; simpl; lia.
Qed.

Lemma broadcast_shows_at_most_ten_witness :
  List.length
    (shown (Sample ["a"; "b"; "c"; "d"; "e"; "f"; "g"; "h"; "i"; "j"] 1)) <= 10.
Proof.
  apply (broadcast_shows_at_most_ten Examples.elevenCatalog Examples.noShuffle
           0 "ou").
  reflexivity.
Defined.

(** ** The candidates and the listing *)

Lemma filter_filter {A : Type} (f g : A -> bool) (l : list A) :
  filter f (filter g l) = filter (fun x => g x && f x) l.
Proof.
  induction l as [|x l IH]; simpl; auto.
  destruct (g x); simpl; [destruct (f x)|]; now rewrite IH.
Qed.

Lemma filter_all {A : Type} (f : A -> bool) (l : list A) :
  (forall x, In x l -> f x = true) -> filter f l = l.
Proof.
  induction l as [|x l IH]; simpl; intros H; auto.
  rewrite (H x (or_introl eq_refl)), IH; auto.
Qed.

Lemma pipeline_candidates (T : Tools) (fuel : nat) (st : Vars) (dex : Dex) :
  applyFilters T fuel st (scan T st) = Normal dex ->
  dex = candidates T fuel st.
Proof.
  unfold applyFilters, candidates, scan. fold (entries T).
  set (start := filter (fun entry => admitted st (snd entry)) (entries T)).
  assert (Hm : forall d,
             match s_moves (searches st) with
             | Some m => movesFilter T fuel m start
             | None => @Normal Dex start
             end = Normal d ->
             d = filter (fun entry =>
                           match s_moves (searches st) with
                           | Some m => movesKeepB T fuel m (snd entry)
                           | None => true
                           end) start).
  { destruct (s_moves (searches st)).
    - intros d. apply movesFilter_filter.
    - intros d [= <-]. symmetry. now apply filter_all. }
  destruct (match s_moves (searches st) with
            | Some m => movesFilter T fuel m start
            | None => @Normal Dex start
            end) as [d|]; simpl; [|discriminate].
  rewrite (Hm d eq_refl). intros [= <-].
  unfold start, filterDex, matches.
  destruct (s_types (searches st)), (s_ability (searches st)),
    (s_tier (searches st)), (s_gen (searches st)), (s_color (searches st));
    rewrite ?filter_filter; apply filter_ext; intros entry;
    rewrite ?andb_true_r, ?andb_assoc, ?andb_true_r; reflexivity.
Qed.

Lemma insertSorted_perm (x : string) (l : list string) :
  Permutation (JS.insertSorted x l) (x :: l).
Proof.
  induction l as [|y l IH]; simpl; auto.
  destruct (String.leb x y); auto.
  rewrite IH. apply perm_swap.
Qed.

Lemma sort_perm (l : list string) : Permutation (JS.sort l) l.
Proof.
  induction l as [|x l IH]; simpl; auto.
  rewrite insertSorted_perm. now constructor.
Qed.

Lemma insertSorted_sorted (x : string) (l : list string) :
  Sorted ascending l -> Sorted ascending (JS.insertSorted x l).
Proof.
  induction 1 as [|y l Hs IH Hhd]; simpl.
  - repeat constructor.
  - destruct (String.leb x y) eqn:E.
    + constructor; [now constructor|]. now constructor.
    + constructor; auto.
      assert (Hyx : ascending y x).
      { destruct (String.leb_total x y) as [H|H]; [congruence|exact H]. }
      destruct l as [|z l]; simpl.
      * now constructor.
      * inversion Hhd; subst.
        destruct (String.leb x z); now constructor.
Qed.

Lemma sort_sorted (l : list string) : Sorted ascending (JS.sort l).
Proof.
  induction l as [|x l IH]; simpl; [constructor|].
  now apply insertSorted_sorted.
Qed.

(** X9: a reply that is a listing shows exactly the names of the
    catalog entries that pass the scan and every category of the query,
    less the names removed by the family filter: each of them once for
    each entry, none besides them, in ascending order. *)
Theorem listing_is_the_sorted_candidates
    (T : Tools) (randomize : list string -> list string)
    (broadcasting : bool) (fuel : nat) (target : string) (l : list string) :
  dexsearch T randomize broadcasting fuel target
  = Returns (SendReplyBox (Listing l)) ->
  exists st,
    loop T broadcasting initialVars (JS.split "," target) = Normal st
    /\ Permutation l (familyFilter T (names (candidates T fuel st)))
    /\ Sorted ascending l.
Proof.
  unfold dexsearch.
  destruct (JS.truthy target); cbn [negb]; [|discriminate].
  destruct (loop T broadcasting initialVars (JS.split "," target)) as [st|c] eqn:E.
  - destruct (showAll st && _ && _ && _); [discriminate|].
    destruct (applyFilters T fuel st (scan T st)) as [dex|c] eqn:F.
    + apply pipeline_candidates in F. subst dex.
      unfold format.
      destruct (0 <? _)%nat; [|discriminate].
      destruct (_ || _); [|discriminate].
      intros [= <-]. exists st.
      split; auto. split; [apply sort_perm|apply sort_sorted].
    + intros ->. apply applyFilters_abrupt in F.
      destruct F as [F|[F|[mv F]]]; discriminate.
  - intros ->. destruct (loop_abrupt _ _ _ _ _ E) as (m' & [= <-] & Hm).
    discriminate.
Qed.

Lemma listing_is_the_sorted_candidates_witness :
  exists st,
    loop Examples.mixedCatalog false initialVars (JS.split "," "green, all")
    = Normal st
    /\ Permutation ["Bulbasaur"; "Ivysaur"]
         (familyFilter Examples.mixedCatalog
            (names (candidates Examples.mixedCatalog 5 st)))
    /\ Sorted ascending ["Bulbasaur"; "Ivysaur"].
Proof.
  apply (listing_is_the_sorted_candidates Examples.mixedCatalog
           Examples.noShuffle false 5 "green, all").
  reflexivity.
Defined.

(** X10: whatever the reply, a name it shows is the name of an entry of
    the catalog that passes the scan and every category of the query,
    the moves included. *)
Theorem shown_names_are_candidates
    (T : Tools) (randomize : list string -> list string)
    (broadcasting : bool) (fuel : nat) (target : string)
    (m : Message) (name : string) :
  (forall l x, In x (randomize l) -> In x l) ->
  dexsearch T randomize broadcasting fuel target = Returns (SendReplyBox m) ->
  In name (shown m) ->
  exists st pokemon,
    loop T broadcasting initialVars (JS.split "," target) = Normal st
    /\ In pokemon (Pokedex T)
    /\ Template.species (getTemplate T pokemon) = name
    /\ matches T fuel st (getTemplate T pokemon) = true.
Proof.
  intros Hr. unfold dexsearch.
  destruct (JS.truthy target); cbn [negb]; [|discriminate].
  destruct (loop T broadcasting initialVars (JS.split "," target)) as [st|c] eqn:E.
  - destruct (showAll st && _ && _ && _).
    { intros [= <-] []. }
    destruct (applyFilters T fuel st (scan T st)) as [dex|c] eqn:F.
    + apply pipeline_candidates in F. subst dex.
      intros [= <-] Hin. apply format_shown in Hin; auto.
      unfold familyFilter in Hin. apply filter_In in Hin as [Hin _].
      unfold names in Hin. apply in_map_iff in Hin as (entry & <- & Hin).
      unfold candidates in Hin. apply filter_In in Hin as [Hin Hm].
      unfold entries in Hin. apply in_map_iff in Hin as (pokemon & <- & Hp).
      exists st, pokemon. auto.
    + intros -> Hin. apply applyFilters_abrupt in F.
      destruct F as [F|[F|[mv F]]]; try discriminate.
      injection F as ->. destruct Hin.
  - intros -> Hin.
    destruct (loop_abrupt _ _ _ _ _ E) as (m' & [= <-] & Hm).
    destruct m; try discriminate; destruct Hin.
Qed.

Lemma shown_names_are_candidates_witness :
  exists st pokemon,
    loop Samples.tools false initialVars (JS.split "," "levitate, !dark type")
    = Normal st
    /\ In pokemon (Pokedex Samples.tools)
    /\ Template.species (getTemplate Samples.tools pokemon) = "Rotom"
    /\ matches Samples.tools 5 st (getTemplate Samples.tools pokemon) = true.
Proof.
  apply (shown_names_are_candidates Samples.tools Examples.noShuffle false 5
           "levitate, !dark type" (Listing ["Azelf"; "Rotom"]) "Rotom").
  - intros l x H. exact H.
  - reflexivity.
  - simpl. auto.
Defined.

(** ** The family filter *)

Lemma familyFilter_In (T : Tools) (l : list string) (s : string) :
  In s (familyFilter T l)
  <-> In s l
      /\ (s = Template.baseSpecies (getTemplate T s)
          \/ ~ In (Template.baseSpecies (getTemplate T s)) l).
Proof.
  unfold familyFilter. rewrite filter_In.
  rewrite negb_true_iff, andb_false_iff, negb_false_iff, String.eqb_eq.
  rewrite <- not_true_iff_false, includes_In. tauto.
Qed.

(** X11: the family filter is idempotent: applied to its own result it
    removes nothing more. *)
Theorem familyFilter_idempotent (T : Tools) (l : list string) :
  familyFilter T (familyFilter T l) = familyFilter T l.
Proof.
  unfold familyFilter at 1. apply filter_all.
  intros s Hs. apply familyFilter_In in Hs as [_ Hs].
  rewrite negb_true_iff, andb_false_iff, negb_false_iff, String.eqb_eq.
  destruct Hs as [Hs|Hs]; [now left|right].
  rewrite <- not_true_iff_false, includes_In.
  intros Hin. apply familyFilter_In in Hin as [Hin _]. contradiction.
Qed.

(** X12: when the base species of a base species is that base species,
    the family filter keeps, for every name it is given, that name or
    the name of its base species: no family disappears from the reply. *)
Theorem familyFilter_keeps_each_family
    (T : Tools) (l : list string) (s : string) :
  (forall name,
      Template.baseSpecies
        (getTemplate T (Template.baseSpecies (getTemplate T name)))
      = Template.baseSpecies (getTemplate T name)) ->
  In s l ->
  In s (familyFilter T l)
  \/ In (Template.baseSpecies (getTemplate T s)) (familyFilter T l).
Proof.
  intros Hbase Hin.
  destruct (in_dec string_dec (Template.baseSpecies (getTemplate T s)) l)
    as [Hb|Hb].
  - right. apply familyFilter_In. split; [assumption|].
    left. now rewrite Hbase.
  - left. apply familyFilter_In. auto.
Qed.

Lemma find_cases (l : list Template.t) (name : string) :
  Examples.find name l = Examples.unknown name \/ In (Examples.find name l) l.
Proof.
  induction l as [|t l IH]; cbn [Examples.find]; auto.
  destruct ((Template.id t =? name) || (Template.species t =? name)).
  - right. now left.
  - destruct IH; auto. right. now right.
Qed.

Lemma familyFilter_keeps_each_family_witness :
  In "Floette-Eternal-Flower"
    (familyFilter
       (Examples.tools [Examples.floette; Examples.single "Floette"])
       ["Floette-Eternal-Flower"; "Floette"])
  \/ In (Template.baseSpecies
           (getTemplate
              (Examples.tools [Examples.floette; Examples.single "Floette"])
              "Floette-Eternal-Flower"))
       (familyFilter
          (Examples.tools [Examples.floette; Examples.single "Floette"])
          ["Floette-Eternal-Flower"; "Floette"]).
Proof.
  apply (familyFilter_keeps_each_family
           (Examples.tools [Examples.floette; Examples.single "Floette"])
           ["Floette-Eternal-Flower"; "Floette"] "Floette-Eternal-Flower").
  - intros name. cbn [getTemplate Examples.tools].
    set (l := [Examples.floette; Examples.single "Floette"]).
    destruct (find_cases l name) as [E|[E|[E|[]]]].
    + rewrite E. cbn [Template.baseSpecies Examples.unknown Examples.template].
      now rewrite E.
    + rewrite <- E. reflexivity.
    + rewrite <- E. reflexivity.
  - simpl. auto.
Defined.

(** ** The tier filter *)

Lemma tierKeep_lc (T : Tools) (m : Obj) (template : Template.t)
    (required : bool) :
  lookup m "lc" = Some required ->
  tierKeep T m template = true ->
  isLC T template = required.
Proof.
  unfold tierKeep, hasKey. intros ->.
  destruct required, (isLC T template); simpl; auto; discriminate.
Qed.

Lemma isLC_spec (T : Tools) (template : Template.t) :
  isLC T template = true
  <-> 0 < List.length (Template.evos template)
      /\ Template.prevo template = ""
      /\ ~ In (Template.species template) (lcBanlist T).
Proof.
  unfold isLC.
  rewrite !andb_true_iff, !negb_true_iff, Nat.ltb_lt, truthy_false.
  rewrite <- not_true_iff_false, includes_In. tauto.
Qed.

(** X13: when a token of a query in ASCII text is lc, every name in
    the reply is the name of a catalog entry that has an evolution, has
    no prevolution and is not on the ban list of LC; when a token is
    !lc, every name is the name of an entry that fails one of the
    three. *)
Theorem lc_polarity_decides_legality
    (T : Tools) (randomize : list string -> list string)
    (broadcasting : bool) (fuel : nat) (target tok : string)
    (required : bool) (m : Message) (name : string) :
  (forall l x, In x (randomize l) -> In x l) ->
  JS.isAscii target = true ->
  In tok (JS.split "," target) ->
  classify T tok = Constrains (InCategory CatTier "lc") (negb required) ->
  dexsearch T randomize broadcasting fuel target = Returns (SendReplyBox m) ->
  In name (shown m) ->
  exists pokemon,
    In pokemon (Pokedex T)
    /\ Template.species (getTemplate T pokemon) = name
    /\ ((0 < List.length (Template.evos (getTemplate T pokemon))
         /\ Template.prevo (getTemplate T pokemon) = ""
         /\ ~ In (Template.species (getTemplate T pokemon)) (lcBanlist T))
        <-> required = true).
Proof.
  intros Hr _ Htok Hc. unfold dexsearch.
  destruct (JS.truthy target); cbn [negb]; [|discriminate].
  destruct (loop T broadcasting initialVars (JS.split "," target)) as [st|c] eqn:E.
  - destruct (showAll st && _ && _ && _).
    { intros [= <-] []. }
    destruct (applyFilters T fuel st (scan T st)) as [dex|c] eqn:F.
    + intros [= <-] Hin. apply format_shown in Hin; auto.
      unfold familyFilter in Hin. apply filter_In in Hin as [Hin _].
      unfold names in Hin. apply in_map_iff in Hin as (entry & <- & Hin).
      apply (applyFilters_In _ _ _ _ _ F) in Hin
        as (Hscan & _ & _ & _ & Htier & _).
      unfold scan in Hscan. apply filter_In in Hscan as [Hscan _].
      apply in_map_iff in Hscan as (pokemon & <- & Hp).
      exists pokemon. split; auto. split; auto. cbn [snd] in *.
      pose proof (loop_stores _ _ _ _ _ _ _ E Htok Hc) as Hlc.
      rewrite negb_involutive in Hlc. cbn [polarity category] in Hlc.
      unfold keptBy in Htier. cbn [category] in Htier.
      destruct (s_tier (searches st)) as [obj|];
        [|specialize (Hlc ltac:(discriminate)); discriminate].
      specialize (Hlc ltac:(discriminate)).
      rewrite <- (tierKeep_lc _ _ _ _ Hlc Htier).
      symmetry. apply isLC_spec.
    + intros -> Hin. apply applyFilters_abrupt in F.
      destruct F as [F|[F|[mv F]]]; try discriminate.
      injection F as ->. destruct Hin.
  - intros -> Hin.
    destruct (loop_abrupt _ _ _ _ _ E) as (m' & [= <-] & Hm).
    destruct m; try discriminate; destruct Hin.
Qed.

Lemma lc_polarity_decides_legality_witness :
  exists pokemon,
    In pokemon (Pokedex Examples.steelCatalog)
    /\ Template.species (getTemplate Examples.steelCatalog pokemon)
       = "Ferrothorn"
    /\ ((0 < List.length
               (Template.evos (getTemplate Examples.steelCatalog pokemon))
         /\ Template.prevo (getTemplate Examples.steelCatalog pokemon) = ""
         /\ ~ In (Template.species (getTemplate Examples.steelCatalog pokemon))
                (lcBanlist Examples.steelCatalog))
        <-> false = true).
Proof.
  apply (lc_polarity_decides_legality Examples.steelCatalog Examples.noShuffle
           false 0 "ou, !lc" " !lc" false (Listing ["Ferrothorn"])
           "Ferrothorn").
  - intros l x H. exact H.
  - reflexivity.
  - simpl. auto.
  - reflexivity.
  - reflexivity.
  - simpl. auto.
Defined.

(** ** When the moves filter ends the command *)

Lemma classify_moves_key (T : Tools) (raw key : string) (n : bool) :
  classify T raw = Constrains (InCategory CatMoves key) n ->
  exists target,
    Move.exists_ (getMove T target) = true
    /\ key = Move.name (getMove T target).
Proof.
  unfold classify.
  repeat match goal with
         | |- context [match JS.indexOf ?a ?b with _ => _ end] =>
             destruct (JS.indexOf a b)
         | |- context [if ?c then _ else _] => destruct c eqn:?
         end; try discriminate.
  all: intros [= <- _]; eauto.
Qed.

Lemma store_keys (m : Obj) (k : string) (v : bool) (x : string) :
  In x (map fst (store m k v)) -> x = k \/ In x (map fst m).
Proof.
  unfold store. destruct (k =? "__proto__"); [auto|apply set_keys].
Qed.

Lemma processTarget_movesNamed (T : Tools) (broadcasting : bool)
    (st st' : Vars) (raw : string) :
  processTarget T broadcasting st raw = Normal st' ->
  movesNamed T st -> movesNamed T st'.
Proof.
  rewrite processTarget_classify.
  destruct (classify T raw) as [s n| |target] eqn:C.
  - destruct s as [c key| |]; simpl.
    + unfold addSearch.
      destruct (capReached c _ n); [discriminate|].
      destruct (clash _ n); [discriminate|].
      intros [= <-] Hn m k. simpl.
      destruct c; simpl; try apply Hn.
      intros [= <-] Hin. apply store_keys in Hin as [->|Hin].
      * eapply classify_moves_key; eauto.
      * destruct (s_moves (searches st)) as [m0|] eqn:E; [|destruct Hin].
        eapply Hn; eauto.
    + destruct (clash _ n); [discriminate|]. intros [= <-] Hn. exact Hn.
    + destruct (clash _ n); [discriminate|]. intros [= <-] Hn. exact Hn.
  - destruct broadcasting; [discriminate|]. intros [= <-] Hn. exact Hn.
  - discriminate.
Qed.

Lemma loop_movesNamed (T : Tools) (broadcasting : bool) (l : list string)
    (st st' : Vars) :
  loop T broadcasting st l = Normal st' -> movesNamed T st -> movesNamed T st'.
Proof.
  revert st. induction l as [|raw l IH]; simpl; intros st.
  - now intros [= <-].
  - destruct (processTarget T broadcasting st raw) as [st1|] eqn:E; simpl;
      [|discriminate].
    intros Hl Hn. apply (IH st1 Hl). eapply processTarget_movesNamed; eauto.
Qed.

Lemma checkMoves_known (T : Tools) (fuel : nat) (template : Template.t)
    (m : Obj) (kept : bool) (c : Completion) :
  (forall key, In key (map fst m) -> Move.exists_ (getMove T key) = true) ->
  checkMoves T fuel template m kept = Abrupt c ->
  c = Throws TypeError \/ c = NoFuel.
Proof.
  revert kept. induction m as [|[i polarity] m IH]; simpl; intros kept Hk.
  - discriminate.
  - unfold checkMove at 1. rewrite (Hk i (or_introl eq_refl)). cbn [negb].
    destruct (walk T fuel _ _) as [prevoTemp|]; simpl; [|intros [= <-]; auto].
    destruct (Template.learnset prevoTemp); simpl; [|intros [= <-]; auto].
    apply IH. intros key Hin. apply Hk. now right.
Qed.

Lemma movesFilter_known (T : Tools) (fuel : nat) (m : Obj) (dex : Dex)
    (c : Completion) :
  (forall key, In key (map fst m) -> Move.exists_ (getMove T key) = true) ->
  movesFilter T fuel m dex = Abrupt c ->
  c = Throws TypeError \/ c = NoFuel.
Proof.
  intros Hk. induction dex as [|entry dex IH]; simpl; [discriminate|].
  destruct (movesKeep T fuel m (snd entry)) as [keep|c'] eqn:E; simpl.
  - destruct (movesFilter T fuel m dex) as [rest|c'']; simpl; [discriminate|].
    intros [= <-]. now apply IH.
  - intros [= <-]. unfold movesKeep in E.
    destruct (Template.learnset (learnsetTemplate T (snd entry)));
      [|discriminate].
    eapply checkMoves_known; eauto.
Qed.

(** X14: when the lookup of moves finds a move under the name of every
    move it knows, the command never answers that a move is not known:
    every key of the moves object is the name of a move that a token
    found. *)
Theorem known_moves_stay_known
    (T : Tools) (randomize : list string -> list string)
    (broadcasting : bool) (fuel : nat) (target : string) (move : Move.t) :
  movesStable T ->
  dexsearch T randomize broadcasting fuel target
  <> Returns (SendReplyBox (NotAKnownMove move)).
Proof.
  intros Hstable. unfold dexsearch.
  destruct (JS.truthy target); cbn [negb]; [|discriminate].
  destruct (loop T broadcasting initialVars (JS.split "," target)) as [st|c] eqn:E.
  - destruct (showAll st && _ && _ && _); [discriminate|].
    destruct (applyFilters T fuel st (scan T st)) as [dex|c] eqn:F.
    + unfold format. destruct (0 <? _)%nat; [destruct (_ || _)|]; discriminate.
    + unfold applyFilters in F.
      destruct (s_moves (searches st)) as [m|] eqn:Em; [|discriminate].
      destruct (movesFilter T fuel m (scan T st)) as [d|c'] eqn:G;
        simpl in F; [discriminate|].
      injection F as <-.
      apply movesFilter_known in G.
      * destruct G as [-> | ->]; discriminate.
      * intros key Hin.
        assert (Hn : movesNamed T st).
        { apply (loop_movesNamed _ _ _ _ _ E). intros m0 k. discriminate. }
        destruct (Hn m key Em Hin) as (t & Ht & ->). now apply Hstable.
  - destruct (loop_abrupt _ _ _ _ _ E) as (m & -> & Hm).
    intros [= ->]. discriminate.
Qed.

Lemma examples_movesStable (l : list Template.t) : movesStable (Examples.tools l).
Proof.
  intros target. cbn [getMove Examples.tools]. unfold Examples.moveNamed.
  cbn [filter fst snd].
  destruct (("tackle" =? target) || ("Tackle" =? target)); [reflexivity|].
  destruct (("spore" =? target) || ("Spore" =? target)); [reflexivity|].
  discriminate.
Qed.

Lemma known_moves_stay_known_witness :
  dexsearch Examples.mixedCatalog Examples.noShuffle false 5 "tackle"
  <> Returns (SendReplyBox
                (NotAKnownMove
                   {| Move.exists_ := false; Move.id := "tackle";
                      Move.name := "Tackle" |})).
Proof.
  apply (known_moves_stay_known Examples.mixedCatalog Examples.noShuffle
           false 5 "tackle").
  apply examples_movesStable.
Defined.

Lemma processTarget_no_moves (T : Tools) (broadcasting : bool)
    (st st' : Vars) (raw : string) :
  (forall key n, classify T raw <> Constrains (InCategory CatMoves key) n) ->
  processTarget T broadcasting st raw = Normal st' ->
  s_moves (searches st) = None -> s_moves (searches st') = None.
Proof.
  intros Hno. rewrite processTarget_classify.
  destruct (classify T raw) as [s n| |target] eqn:C.
  - destruct s as [c key| |]; simpl.
    + unfold addSearch.
      destruct (capReached c _ n); [discriminate|].
      destruct (clash _ n); [discriminate|].
      intros [= <-]. simpl. destruct c; simpl; auto.
      exfalso. exact (Hno key n eq_refl).
    + destruct (clash _ n); [discriminate|]. now intros [= <-].
    + destruct (clash _ n); [discriminate|]. now intros [= <-].
  - destruct broadcasting; [discriminate|]. now intros [= <-].
  - discriminate.
Qed.

Lemma loop_no_moves (T : Tools) (broadcasting : bool) (l : list string)
    (st st' : Vars) :
  (forall tok key n,
      In tok l -> classify T tok <> Constrains (InCategory CatMoves key) n) ->
  loop T broadcasting st l = Normal st' ->
  s_moves (searches st) = None -> s_moves (searches st') = None.
Proof.
  revert st. induction l as [|raw l IH]; simpl; intros st Hno.
  - now intros [= <-].
  - destruct (processTarget T broadcasting st raw) as [st1|] eqn:E; simpl;
      [|discriminate].
    intros Hl Hs. apply (IH st1).
    + intros tok key n Hin. apply Hno. now right.
    + exact Hl.
    + refine (processTarget_no_moves T broadcasting st st1 raw _ E Hs).
      intros key n. apply Hno. now left.
Qed.

(** X15: a query without a move token always ends with a reply: it
    throws nothing and needs no fuel, whatever the catalog. *)
Theorem query_without_moves_returns
    (T : Tools) (randomize : list string -> list string)
    (broadcasting : bool) (fuel : nat) (target : string) :
  (forall tok key n,
      In tok (JS.split "," target) ->
      classify T tok <> Constrains (InCategory CatMoves key) n) ->
  exists r, dexsearch T randomize broadcasting fuel target = Returns r.
Proof.
  intros Hno. unfold dexsearch.
  destruct (JS.truthy target); cbn [negb]; [|eauto].
  destruct (loop T broadcasting initialVars (JS.split "," target)) as [st|c] eqn:E.
  - destruct (showAll st && _ && _ && _); [eauto|].
    unfold applyFilters.
    rewrite (loop_no_moves _ _ _ _ _ Hno E eq_refl). cbn [bind]. eauto.
  - destruct (loop_abrupt _ _ _ _ _ E) as (m & -> & Hm). eauto.
Qed.

Lemma query_without_moves_returns_witness :
  exists r,
    dexsearch Examples.fossilCatalog Examples.noShuffle false 0 "dark type, !lc"
    = Returns r.
Proof.
  apply (query_without_moves_returns Examples.fossilCatalog
           Examples.noShuffle false 0 "dark type, !lc").
  intros tok key n [<-|[<-|[]]]; discriminate.
Defined.

Section SafeCatalog.

Variable T : Tools.
Hypothesis Hcomplete : learnsetsComplete T.

Lemma walk_keeps_learnset (fuel : nat) (moveid k : string) (last : Template.t) :
  walk T fuel moveid (getTemplate T k) = Some last ->
  Template.learnset (getTemplate T k) <> None ->
  Template.learnset last <> None.
Proof.
  revert k. induction fuel as [|fuel IH]; simpl; intros k; [discriminate|].
  destruct (keepsWalking moveid (getTemplate T k)) eqn:E.
  - intros Hw Hl. apply (IH _ Hw).
    apply andb_true_iff in E as [E _]. now apply (proj1 Hcomplete).
  - now intros [= <-].
Qed.

Variable universe : list string.
Hypothesis Hacyclic : acyclic T.
Hypothesis Hwithin : chainsWithin T universe.

Lemma checkMoves_safe (fuel : nat) (k : string) (m : Obj) (kept : bool) :
  List.length universe < fuel ->
  Template.learnset (getTemplate T k) <> None ->
  (forall key, In key (map fst m) -> Move.exists_ (getMove T key) = true) ->
  exists r, checkMoves T fuel (getTemplate T k) m kept = Normal r.
Proof.
  intros Hfuel Hls. revert kept.
  induction m as [|[i polarity] m IH]; simpl; intros kept Hk; [eauto|].
  unfold checkMove. rewrite (Hk i (or_introl eq_refl)). cbn [negb].
  destruct (walk_bounded T (Move.id (getMove T i)) (List.length universe)
              Hacyclic universe (Template.id (getTemplate T k)) (le_n _)
              (Hwithin k))
    as [last Hlast].
  rewrite (walk_mono T _ _ fuel _ _ Hlast) by lia.
  assert (Hl : Template.learnset last <> None).
  { apply (walk_keeps_learnset _ _ _ _ Hlast).
    now apply (proj2 Hcomplete). }
  destruct (Template.learnset last); [|congruence]. cbn [bind].
  apply IH. intros key Hin. apply Hk. now right.
Qed.

Lemma movesFilter_safe (fuel : nat) (m : Obj) (dex : Dex) :
  List.length universe < fuel ->
  (forall key, In key (map fst m) -> Move.exists_ (getMove T key) = true) ->
  exists dex', movesFilter T fuel m dex = Normal dex'.
Proof.
  intros Hfuel Hk. induction dex as [|entry dex [rest IH]]; simpl; [eauto|].
  assert (Hkeep : exists keep, movesKeep T fuel m (snd entry) = Normal keep).
  { unfold movesKeep.
    destruct (Template.learnset (learnsetTemplate T (snd entry))) eqn:E;
      [|eauto].
    unfold learnsetTemplate in *.
    destruct (Template.learnset (getTemplate T (Template.id (snd entry))));
      apply checkMoves_safe; auto; congruence. }
  destruct Hkeep as [keep ->]. rewrite IH. simpl. eauto.
Qed.

End SafeCatalog.

(** X16: on a catalog without a prevolution cycle, in which the
    prevolution of every template that has a learnset has a learnset
    and the lookups are stable, the command always ends with a reply
    once the fuel exceeds the number of keys that have a prevolution in
    the families of the ids of the templates: it does not throw. *)
Theorem safe_catalog_always_replies
    (T : Tools) (randomize : list string -> list string)
    (broadcasting : bool) (fuel : nat) (target : string)
    (universe : list string) :
  acyclic T ->
  chainsWithin T universe ->
  learnsetsComplete T ->
  movesStable T ->
  List.length universe < fuel ->
  exists r, dexsearch T randomize broadcasting fuel target = Returns r.
Proof.
  intros Hacyclic Hwithin Hcomplete Hstable Hfuel. unfold dexsearch.
  destruct (JS.truthy target); cbn [negb]; [|eauto].
  destruct (loop T broadcasting initialVars (JS.split "," target)) as [st|c] eqn:E.
  - destruct (showAll st && _ && _ && _); [eauto|].
    unfold applyFilters.
    destruct (s_moves (searches st)) as [m|] eqn:Em; cbn [bind]; [|eauto].
    destruct (movesFilter_safe T Hcomplete universe Hacyclic Hwithin fuel m
                (scan T st) Hfuel) as [dex' ->]; cbn [bind]; [|eauto].
    intros key Hin.
    assert (Hn : movesNamed T st).
    { apply (loop_movesNamed _ _ _ _ _ E). intros m0 k. discriminate. }
    destruct (Hn m key Em Hin) as (t & Ht & ->). now apply Hstable.
  - destruct (loop_abrupt _ _ _ _ _ E) as (m & -> & Hm). eauto.
Qed.

Lemma family_learnsetsComplete : learnsetsComplete Examples.mixedCatalog.
Proof.
  split.
  - intros k _ Hk.
    remember (Template.prevo (getTemplate Examples.mixedCatalog k)) as p eqn:Ep.
    assert (Hp : In p [""; "bulbasaur"; ""; ""; ""]).
    { rewrite Ep in Hk. rewrite Ep. exact (proj1 (find_prevo _ k Hk)). }
    cbn [In] in Hp.
    destruct Hp as [Hp|[Hp|[Hp|[Hp|[Hp|[]]]]]]; rewrite <- Hp in *;
      discriminate.
  - intros k Hk. cbn [getTemplate Examples.mixedCatalog Examples.tools] in *.
    set (l := [Examples.bulbasaur; Examples.ivysaur; Examples.syclant;
               Examples.missingno; Examples.floette]) in *.
    destruct (find_cases l k) as [E|E].
    + rewrite E in Hk. now contradiction Hk.
    + revert E Hk. generalize (Examples.find k l). intros t Ht _.
      destruct Ht as [<-|[<-|[<-|[<-|[<-|[]]]]]]; discriminate.
Qed.

Lemma family_chains : chainsWithin Examples.mixedCatalog ["ivysaur"].
Proof.
  intros x. cbn [getTemplate Examples.mixedCatalog Examples.tools].
  set (l := [Examples.bulbasaur; Examples.ivysaur; Examples.syclant;
             Examples.missingno; Examples.floette]).
  destruct (find_cases l x) as [E|E].
  - rewrite E. change (Template.id (Examples.unknown x)) with x.
    intros [|i] k' H Ht.
    + injection H as <-.
      cbn [getTemplate Examples.mixedCatalog Examples.tools] in Ht.
      fold l in Ht. rewrite E in Ht. discriminate.
    + cbn [ancestor getTemplate Examples.mixedCatalog Examples.tools] in H.
      fold l in H. rewrite E in H. discriminate.
  - revert E. generalize (Examples.find x l). intros t Ht.
    destruct Ht as [<-|[<-|[<-|[<-|[<-|[]]]]]]; intros [|[|i]] k' H Ht;
      try (vm_compute in H; discriminate);
      injection H as <-; try (vm_compute in Ht; discriminate).
    now left.
Qed.

Lemma safe_catalog_always_replies_witness :
  exists r,
    dexsearch Examples.mixedCatalog Examples.noShuffle false 2 "tackle, !spore"
    = Returns r.
Proof.
  apply (safe_catalog_always_replies Examples.mixedCatalog Examples.noShuffle
           false 2 "tackle, !spore" ["ivysaur"]).
  - exact family_acyclic.
  - exact family_chains.
  - exact family_learnsetsComplete.
  - apply examples_movesStable.
  - simpl. lia.
Defined.

(** ** The exclamation mark *)

Lemma trimRight_cons (c : ascii) (s : string) :
  JS.isWhiteSpace c = false ->
  JS.trimRight (String c s) = String c (JS.trimRight s).
Proof. intros H. simpl. rewrite H. now destruct (JS.trimRight s). Qed.

Lemma substring_all (s : string) : substring 0 (String.length s) s = s.
Proof. induction s as [|c s IH]; simpl; auto. now rewrite IH. Qed.

Lemma lowerChar_bang (c : ascii) :
  c <> "!"%char -> JS.lowerChar c <> "!"%char.
Proof.
  destruct c as [[] [] [] [] [] [] [] []]; vm_compute; congruence.
Qed.

(** X17: for a token in ASCII text that starts with neither white
    space nor an exclamation mark, and when the lookup of abilities
    finds an ability with the mark put before the token exactly when it
    finds one without it, the same one, the mark does nothing but flip
    the polarity: the token is classified as before, into the same
    slot, as the same keyword or as the same unknown text. *)
Theorem bang_only_flips_polarity (T : Tools) (c : ascii) (rest : string) :
  JS.isAscii (String c rest) = true ->
  JS.isWhiteSpace c = false ->
  c <> "!"%char ->
  Ability.exists_ (getAbility T (String "!" (String c rest)))
  = Ability.exists_ (getAbility T (String c rest)) ->
  (Ability.exists_ (getAbility T (String c rest)) = true ->
   Ability.name (getAbility T (String "!" (String c rest)))
   = Ability.name (getAbility T (String c rest))) ->
  classify T (String "!" (String c rest))
  = negated (classify T (String c rest)).
Proof.
  intros _ Hw Hb Hex Hname.
  assert (Hplain : JS.toLowerCase (JS.trim (String c rest))
                   = String (JS.lowerChar c)
                       (JS.toLowerCase (JS.trimRight rest))).
  { unfold JS.trim. cbn [JS.trimLeft]. rewrite Hw.
    now rewrite trimRight_cons. }
  assert (Hmark : JS.toLowerCase (JS.trim (String "!" (String c rest)))
                  = String "!" (String (JS.lowerChar c)
                                  (JS.toLowerCase (JS.trimRight rest)))).
  { unfold JS.trim. cbn [JS.trimLeft].
    change (JS.isWhiteSpace "!") with false. cbn iota.
    rewrite trimRight_cons by reflexivity.
    now rewrite trimRight_cons. }
  unfold classify. rewrite Hex, Hplain, Hmark.
  set (t := String (JS.lowerChar c) (JS.toLowerCase (JS.trimRight rest))).
  assert (H1 : (JS.slice 0 1 (String "!" t) =? "!") = true).
  { unfold JS.slice. cbn [Nat.sub substring]. now destruct t. }
  assert (H2 : JS.sliceFrom 1 (String "!" t) = t).
  { unfold JS.sliceFrom. cbn [String.length Nat.sub substring].
    rewrite Nat.sub_0_r. apply substring_all. }
  assert (H3 : (JS.slice 0 1 t =? "!") = false).
  { unfold JS.slice, t. cbn [Nat.sub substring].
    replace (substring 0 0 (JS.toLowerCase (JS.trimRight rest)))
      with EmptyString by now destruct (JS.toLowerCase (JS.trimRight rest)).
    apply String.eqb_neq. intros [= H]. now apply (lowerChar_bang c). }
  rewrite H1, H2, H3.
  destruct (Ability.exists_ (getAbility T (String c rest))) eqn:Ea.
  { now rewrite (Hname eq_refl). }
  repeat match goal with
         | |- context [match JS.indexOf ?a ?b with _ => _ end] =>
             destruct (JS.indexOf a b)
         | |- context [if ?b then _ else _] => destruct b
         end; reflexivity.
Qed.

Lemma bang_only_flips_polarity_witness :
  classify Examples.mixedCatalog "!Grass Type "
  = negated (classify Examples.mixedCatalog "Grass Type ")
  /\ classify Examples.mixedCatalog "Grass Type "
     = Constrains (InCategory CatTypes "Grass") false.
Proof.
  split; [|reflexivity].
  apply (bang_only_flips_polarity Examples.mixedCatalog "G" "rass Type ");
    [reflexivity|reflexivity|discriminate|reflexivity|discriminate].
Defined.

Example bang_flips_examples :
  classify Samples.tools "!Levitate " = negated (classify Samples.tools "Levitate ")
  /\ classify Examples.mixedCatalog "!nfe"
     = Constrains FullyEvolvedFlag false
  /\ classify Examples.mixedCatalog "!ghost type" = Unrecognised "Ghost"
  /\ classify Examples.mixedCatalog "ghost type" = Unrecognised "Ghost".
Proof. repeat split; reflexivity. Qed.

(** * Other commands *)

(** ** Decimal text of an integer *)

Lemma digits_acc (d : Decimal.uint) (acc : positive) :
  JS.digits 10 (Some (Zpos acc)) (NilEmpty.string_of_uint d)
  = Some (Zpos (Pos.of_uint_acc d acc)).
Proof.
  revert acc. induction d; intros acc; cbn [NilEmpty.string_of_uint JS.digits];
    try reflexivity;
    match goal with
    | |- context [JS.digitValue 10 ?c] =>
        let v := eval vm_compute in (JS.digitValue 10 c) in
        change (JS.digitValue 10 c) with v; cbv iota
    end;
    cbn [Pos.of_uint_acc];
    match goal with
    | |- JS.digits 10 (Some ?z) _ = Some (Zpos (Pos.of_uint_acc _ ?p)) =>
        replace z with (Zpos p) by lia
    end; apply IHd.
Qed.

Lemma digits_zero (d : Decimal.uint) :
  JS.digits 10 (Some 0%Z) (NilEmpty.string_of_uint d)
  = Some (Z.of_N (Pos.of_uint d)).
Proof.
  induction d; cbn [NilEmpty.string_of_uint JS.digits]; try reflexivity;
    match goal with
    | |- context [JS.digitValue 10 ?c] =>
        let v := eval vm_compute in (JS.digitValue 10 c) in
        change (JS.digitValue 10 c) with v; cbv iota
    end;
    cbn [Pos.of_uint Z.mul Z.add]; try exact IHd; apply digits_acc.
Qed.

Lemma digits_uint (d : Decimal.uint) :
  d <> Decimal.Nil ->
  JS.digits 10 None (NilEmpty.string_of_uint d)
  = Some (Z.of_N (Pos.of_uint d)).
Proof.
  destruct d; intros Hd; try contradiction;
    cbn [NilEmpty.string_of_uint JS.digits];
    match goal with
    | |- context [JS.digitValue 10 ?c] =>
        let v := eval vm_compute in (JS.digitValue 10 c) in
        change (JS.digitValue 10 c) with v; cbv iota
    end;
    cbn [Pos.of_uint]; try apply digits_zero; apply digits_acc.
Qed.

Lemma string_of_uint_decimal (d : Decimal.uint) :
  allDecimal (NilEmpty.string_of_uint d) = true.
Proof. induction d; simpl; auto. Qed.

(** The radix test of parseInt on a decimal text. *)
Lemma decimal_radix (c : ascii) (r : string) :
  isDecimal c = true ->
  allDecimal r = true ->
  (let '(radix, s) :=
     match String c r with
     | String "0"%char (String x r') =>
         if (Ascii.eqb x "x" || Ascii.eqb x "X")%bool
         then (16%Z, r') else (10%Z, String c r)
     | _ => (10%Z, String c r)
     end in
   JS.digits radix None s) = JS.digits 10 None (String c r).
Proof.
  intros Hc Hr.
  destruct c as [[] [] [] [] [] [] [] []]; try discriminate Hc; try reflexivity.
  destruct r as [|x r']; [reflexivity|].
  cbn [allDecimal] in Hr. apply andb_true_iff in Hr as [Hx _].
  destruct x as [[] [] [] [] [] [] [] []]; try discriminate Hx; reflexivity.
Qed.

Lemma parseInt_decimal (c : ascii) (r : string) :
  isDecimal c = true ->
  allDecimal r = true ->
  JS.parseInt (String c r)
  = option_map (Z.mul 1) (JS.digits 10 None (String c r)).
Proof.
  intros Hc Hr. rewrite <- (decimal_radix c r Hc Hr).
  destruct c as [[] [] [] [] [] [] [] []]; try discriminate Hc;
    try reflexivity.
  destruct r as [|x r']; [reflexivity|].
  unfold JS.parseInt. cbn [JS.trimLeft].
  change (JS.isWhiteSpace "0") with false. cbv iota.
  destruct ((x =? "x")%char || (x =? "X")%char); reflexivity.
Qed.

Lemma parseInt_minus_decimal (c : ascii) (r : string) :
  isDecimal c = true ->
  allDecimal r = true ->
  JS.parseInt (String "-" (String c r))
  = option_map (Z.mul (-1)) (JS.digits 10 None (String c r)).
Proof.
  intros Hc Hr. rewrite <- (decimal_radix c r Hc Hr).
  destruct c as [[] [] [] [] [] [] [] []]; try discriminate Hc;
    try reflexivity.
  destruct r as [|x r']; [reflexivity|].
  unfold JS.parseInt. cbn [JS.trimLeft].
  change (JS.isWhiteSpace "-") with false. cbv iota.
  destruct ((x =? "x")%char || (x =? "X")%char); reflexivity.
Qed.

Lemma decimal_text (p : positive) :
  exists c r,
    NilZero.string_of_uint (Pos.to_uint p) = String c r
    /\ isDecimal c = true /\ allDecimal r = true
    /\ JS.digits 10 None (String c r) = Some (Zpos p).
Proof.
  pose proof (DecimalPos.Unsigned.to_uint_nonnil p) as Hn.
  pose proof (digits_uint _ Hn) as Hd.
  rewrite DecimalPos.Unsigned.of_to in Hd. cbn [Z.of_N] in Hd.
  pose proof (string_of_uint_decimal (Pos.to_uint p)) as Ha.
  assert (Hs : NilZero.string_of_uint (Pos.to_uint p)
               = NilEmpty.string_of_uint (Pos.to_uint p)).
  { unfold NilZero.string_of_uint. destruct (Pos.to_uint p); auto.
    contradiction. }
  rewrite Hs.
  destruct (NilEmpty.string_of_uint (Pos.to_uint p)) as [|c r] eqn:E.
  - destruct (Pos.to_uint p); try contradiction; discriminate.
  - cbn [allDecimal] in Ha. apply andb_true_iff in Ha as [Hc Hr].
    exists c, r. auto.
Qed.

(** Parsing the decimal text of an integer gives the integer back. *)
Lemma parseInt_ofNumber (n : Z) : JS.parseInt (JS.ofNumber n) = Some n.
Proof.
  unfold JS.ofNumber. destruct n as [|p|p]; cbn [Z.to_int].
  - reflexivity.
  - cbn [NilZero.string_of_int].
    destruct (decimal_text p) as (c & r & -> & Hc & Hr & Hd).
    rewrite parseInt_decimal, Hd by assumption. reflexivity.
  - cbn [NilZero.string_of_int].
    destruct (decimal_text p) as (c & r & -> & Hc & Hr & Hd).
    rewrite parseInt_minus_decimal, Hd by assumption. reflexivity.
Qed.

(** ** Colour codes *)

Lemma bytes_checked :
  forallb
    (fun k =>
       let e := Z.of_nat k in
       let s := (JS.charAt (Z.to_nat ((e - Z.rem e 16) / 16)) "0123456789ABCDEF"
                 ++ JS.charAt (Z.to_nat (Z.rem e 16)) "0123456789ABCDEF")%string in
       (String.length s =? 2)%nat && Colours.allHexDigits s
       && match JS.parseInt ("0x" ++ s) with
          | Some v => (v =? e)%Z
          | None => false
          end)
    (seq 0 256) = true.
Proof. vm_compute. reflexivity. Qed.

Lemma toHex_format (e : option Z) :
  String.length (Colours.toHex e) = 2
  /\ Colours.allHexDigits (Colours.toHex e) = true
  /\ JS.parseInt ("0x" ++ Colours.toHex e)
     = Some (match e with Some n => Colours.clamp n | None => 0%Z end).
Proof.
  destruct e as [n|]; [|repeat split; reflexivity].
  unfold Colours.toHex. rewrite parseInt_ofNumber.
  destruct (Z.eqb_spec n 0) as [->|Hn]; [repeat split; reflexivity|].
  fold (Colours.clamp n).
  assert (Hrange : (0 <= Colours.clamp n <= 255)%Z)
    by (unfold Colours.clamp; lia).
  pose proof bytes_checked as Hall. rewrite forallb_forall in Hall.
  specialize (Hall (Z.to_nat (Colours.clamp n))).
  rewrite Z2Nat.id in Hall by lia.
  assert (Hin : In (Z.to_nat (Colours.clamp n)) (seq 0 256)).
  { apply in_seq. lia. }
  specialize (Hall Hin). cbv zeta in Hall.
  apply andb_true_iff in Hall as [Hall Hdec].
  apply andb_true_iff in Hall as [Hlen Hhex].
  apply Nat.eqb_eq in Hlen.
  repeat split; auto.
  destruct (JS.parseInt _) as [v|]; [|discriminate].
  apply Z.eqb_eq in Hdec. now subst.
Qed.

(** X18: for an integer below 10^21 in absolute value, toHex gives two
    digits of 0123456789ABCDEF, and read back as a hexadecimal number
    they give the integer clamped to the range from 0 to 255. *)
Theorem toHex_decodes_to_clamped (n : Z) :
  (Z.abs n < 10 ^ 21)%Z ->
  String.length (Colours.toHex (Some n)) = 2
  /\ Colours.allHexDigits (Colours.toHex (Some n)) = true
  /\ JS.parseInt ("0x" ++ Colours.toHex (Some n))
     = Some (Z.min (Z.max 0 n) 255).
Proof. intros _. exact (toHex_format (Some n)). Qed.

Lemma toHex_decodes_to_clamped_witness :
  String.length (Colours.toHex (Some 300%Z)) = 2
  /\ Colours.allHexDigits (Colours.toHex (Some 300%Z)) = true
  /\ JS.parseInt ("0x" ++ Colours.toHex (Some 300%Z))
     = Some (Z.min (Z.max 0 300) 255).
Proof.
  apply (toHex_decodes_to_clamped 300). vm_compute. reflexivity.
Defined.

Lemma allHexDigits_app (s t : string) :
  Colours.allHexDigits (s ++ t) = Colours.allHexDigits s && Colours.allHexDigits t.
Proof.
  induction s as [|c s IH]; simpl; auto. now rewrite IH, andb_assoc.
Qed.

Lemma length_append (s t : string) :
  String.length (s ++ t) = String.length s + String.length t.
Proof. induction s as [|c s IH]; simpl; auto. Qed.

(** X19: a colour code made of a number sign and rgbToHex of three
    components is always accepted by the hex command, which shows it. *)
Theorem colour_code_accepted (ownCode : string) (r g b : option Z) :
  Colours.hex ownCode ("#" ++ Colours.rgbToHex r g b)
  = Colours.ShowColour ("#" ++ Colours.rgbToHex r g b).
Proof.
  unfold Colours.hex.
  change ("#" ++ Colours.rgbToHex r g b)%string
    with (String "#" (Colours.rgbToHex r g b)).
  assert (Hv : Colours.verify (String "#" (Colours.rgbToHex r g b)) = true).
  { cbn [Colours.verify]. unfold Colours.rgbToHex.
    destruct (toHex_format r) as (Lr & Hr & _).
    destruct (toHex_format g) as (Lg & Hg & _).
    destruct (toHex_format b) as (Lb & Hb & _).
    rewrite !length_append, !allHexDigits_app, Lr, Lg, Lb, Hr, Hg, Hb.
    reflexivity. }
  rewrite Hv.
  cbn [JS.truthy String.eqb negb].
  unfold JS.indexOf. cbn [index prefix].
  destruct (ascii_dec "#" "#"); [|contradiction].
  replace (prefix "" (Colours.rgbToHex r g b)) with true
    by now destruct (Colours.rgbToHex r g b).
  reflexivity.
Qed.

(** ** The smogdex command *)

(** X20: the generation of smogdex is a normal form.  Whatever the
    text, the number chosen is between 1 and 6, and the code chosen,
    given as the text, chooses the same code and number again; a
    second part that is a digit from 1 to 6 chooses the generation with
    that number. *)
Theorem generation_is_normalised (text : string) :
  (1 <= snd (Smogdex.generation text) <= 6)%Z
  /\ Smogdex.generation (fst (Smogdex.generation text))
     = Smogdex.generation text
  /\ (forall n,
        (1 <= n <= 6)%Z ->
        snd (Smogdex.generation
               (Smogdex.generationText (Some (JS.ofNumber n)))) = n).
Proof.
  assert (Hcases : In (Smogdex.generation text)
                     [("xy", 6%Z); ("bw", 5%Z); ("dp", 4%Z); ("rs", 3%Z);
                      ("gs", 2%Z); ("rb", 1%Z)]).
  { unfold Smogdex.generation.
    repeat match goal with
           | |- context [if ?c then _ else _] => destruct c
           end; simpl; auto 10. }
  split; [|split].
  - cbn [In] in Hcases.
    destruct Hcases as [H|[H|[H|[H|[H|[H|[]]]]]]]; rewrite <- H; simpl; lia.
  - cbn [In] in Hcases.
    destruct Hcases as [H|[H|[H|[H|[H|[H|[]]]]]]]; rewrite <- H; reflexivity.
  - intros n H.
    assert (Hn : (n = 1 \/ n = 2 \/ n = 3 \/ n = 4 \/ n = 5 \/ n = 6)%Z) by lia.
    destruct Hn as [-> | [-> | [-> | [-> | [-> | ->]]]]]; reflexivity.
Qed.

Lemma removeOthers_link (s : string) :
  Smogdex.allLinkChars (Smogdex.removeOthers s) = true.
Proof.
  induction s as [|c s IH]; simpl; auto.
  destruct (Smogdex.isLinkChar c) eqn:E; simpl; auto. now rewrite E.
Qed.

Lemma removeOthers_fixed (s : string) :
  Smogdex.allLinkChars s = true -> Smogdex.removeOthers s = s.
Proof.
  induction s as [|c s IH]; simpl; auto.
  intros H. apply andb_true_iff in H as [Hc Hs]. now rewrite Hc, IH.
Qed.

Lemma isLinkChar_lower (c : ascii) :
  Smogdex.isLinkChar c = true ->
  JS.lowerChar c = c /\ Ascii.eqb c " " = false.
Proof.
  destruct c as [[] [] [] [] [] [] [] []]; vm_compute; intros H;
    try discriminate H; auto.
Qed.

Lemma link_fixed (s : string) :
  Smogdex.allLinkChars s = true ->
  Smogdex.replaceSpaces (JS.toLowerCase s) = s.
Proof.
  induction s as [|c s IH]; cbn [JS.toLowerCase Smogdex.replaceSpaces
                                  Smogdex.allLinkChars]; auto.
  intros H. apply andb_true_iff in H as [Hc Hs].
  destruct (isLinkChar_lower c Hc) as [-> ->]. now rewrite IH.
Qed.

(** X21: the link name of a species holds only lower case letters,
    digits, hyphens and underscores, and it is its own link name. *)
Theorem pokemonLink_is_clean_and_stable (name : string) :
  Smogdex.allLinkChars (Smogdex.pokemonLink name) = true
  /\ Smogdex.pokemonLink (Smogdex.pokemonLink name) = Smogdex.pokemonLink name.
Proof.
  assert (H : Smogdex.allLinkChars (Smogdex.pokemonLink name) = true)
    by apply removeOthers_link.
  split; auto.
  unfold Smogdex.pokemonLink at 1.
  now rewrite (link_fixed _ H), (removeOthers_fixed _ H).
Qed.

Lemma lowerChar_space (c : ascii) :
  Ascii.eqb (JS.lowerChar c) " " = Ascii.eqb c " ".
Proof. destruct c as [[] [] [] [] [] [] [] []]; reflexivity. Qed.

Lemma spaces_lower (s : string) :
  Smogdex.spaces (JS.toLowerCase s) = Smogdex.spaces s.
Proof.
  induction s as [|c s IH]; simpl; auto. now rewrite lowerChar_space, IH.
Qed.

(** X22: the link name of an item, an ability or a move has one space
    less than the name: only the first space becomes an underscore, so
    a name with several spaces keeps the others in its link. *)
Theorem nameLink_replaces_one_space (name : string) :
  Smogdex.spaces (Smogdex.nameLink name) = Smogdex.spaces name - 1.
Proof.
  unfold Smogdex.nameLink. rewrite <- (spaces_lower name).
  induction (JS.toLowerCase name) as [|c s IH]; simpl; auto.
  destruct (Ascii.eqb c " ") eqn:E; simpl.
  - lia.
  - now rewrite E, IH.
Qed.

(** ** The rules command *)

Lemma trimLeft_length (s : string) :
  String.length (JS.trimLeft s) <= String.length s.
Proof.
  induction s as [|c s IH]; simpl; auto.
  destruct (JS.isWhiteSpace c); simpl; lia.
Qed.

Lemma trimRight_length (s : string) :
  String.length (JS.trimRight s) <= String.length s.
Proof.
  induction s as [|c s IH]; simpl; auto.
  destruct (JS.trimRight s); simpl in *.
  - destruct (JS.isWhiteSpace c); simpl; lia.
  - lia.
Qed.

Lemma trim_length (s : string) : String.length (JS.trim s) <= String.length s.
Proof.
  unfold JS.trim.
  pose proof (trimRight_length (JS.trimLeft s)).
  pose proof (trimLeft_length s). lia.
Qed.

Lemma trimRight_idempotent (s : string) :
  JS.trimRight (JS.trimRight s) = JS.trimRight s.
Proof.
  induction s as [|c s IH]; simpl; auto.
  destruct (JS.trimRight s) as [|c' r] eqn:E.
  - destruct (JS.isWhiteSpace c) eqn:W; simpl; auto. now rewrite W.
  - cbn [JS.trimRight]. fold JS.trimRight.
    change (match JS.trimRight (String c' r) with
            | EmptyString =>
                if JS.isWhiteSpace c then EmptyString else String c EmptyString
            | String a b => String c (String a b)
            end = String c (String c' r)).
    now rewrite IH.
Qed.

Lemma trimLeft_head (s : string) :
  JS.trimLeft s = EmptyString
  \/ exists c r, JS.trimLeft s = String c r /\ JS.isWhiteSpace c = false.
Proof.
  induction s as [|c s IH]; simpl; auto.
  destruct (JS.isWhiteSpace c) eqn:W; auto. right. eauto.
Qed.

Lemma trim_idempotent (s : string) : JS.trim (JS.trim s) = JS.trim s.
Proof.
  unfold JS.trim.
  assert (H : JS.trimLeft (JS.trimRight (JS.trimLeft s))
              = JS.trimRight (JS.trimLeft s)).
  { destruct (trimLeft_head s) as [->|(c & r & -> & W)]; [reflexivity|].
    rewrite trimRight_cons by assumption. simpl. now rewrite W. }
  rewrite H. apply trimRight_idempotent.
Qed.

(** X23: the rules command keeps the room consistent: the rules link
    never exceeds 80 characters, and the chat room data, when the room
    has them, always hold the same link. *)
Theorem rules_keeps_room_consistent
    (canBroadcast canRoommod : bool) (r : Rules.Room) (target : string) :
  Rules.consistent r ->
  Rules.consistent (Rules.room (Rules.rules canBroadcast canRoommod r target)).
Proof.
  intros Hc. unfold Rules.rules.
  destruct (negb (JS.truthy target)); [destruct (negb canBroadcast); exact Hc|].
  destruct (negb canRoommod); [exact Hc|].
  destruct (Nat.ltb_spec 80 (String.length target)) as [Hlong|Hshort];
    [exact Hc|].
  pose proof (trim_length target).
  destruct (Rules.chatRoomData r); split; simpl; try lia.
  - now intros saved [= <-].
  - discriminate.
Qed.

Lemma rules_keeps_room_consistent_witness :
  Rules.consistent
    (Rules.room
       (Rules.rules false true
          {| Rules.rulesLink := ""; Rules.title := "Lobby";
             Rules.chatRoomData := Some "" |}
          "  http://example.org/rules ")).
Proof.
  apply (rules_keeps_room_consistent false true).
  split; simpl; [lia|]. now intros saved [= <-].
Defined.

(** X24: a link set by the rules command is the one it shows
    afterwards.  After a target of at most 80 characters is accepted,
    the room holds the trimmed target, which is its own trim, and the
    command without a target shows that link with the title of the
    room; a target of white space alone leaves no room link to show. *)
Theorem rules_shows_what_was_set
    (canBroadcast canRoommod : bool) (r : Rules.Room) (target : string) :
  target <> "" ->
  String.length target <= 80 ->
  let r' := Rules.room (Rules.rules canBroadcast true r target) in
  Rules.rulesLink r' = JS.trim target
  /\ JS.trim (Rules.rulesLink r') = Rules.rulesLink r'
  /\ Rules.reply (Rules.rules true canRoommod r' "")
     = Some (Rules.PleaseFollow
               (if JS.truthy (JS.trim target)
                then Some (JS.trim target, Rules.title r) else None)).
Proof.
  intros Hne Hlen. cbv zeta.
  assert (Hr : Rules.room (Rules.rules canBroadcast true r target)
               = {| Rules.rulesLink := JS.trim target;
                    Rules.title := Rules.title r;
                    Rules.chatRoomData :=
                      match Rules.chatRoomData r with
                      | Some _ => Some (JS.trim target)
                      | None => None
                      end |}).
  { unfold Rules.rules.
    rewrite (truthy_of_nonempty _ Hne). cbn [negb].
    destruct (Nat.ltb_spec 80 (String.length target)) as [Hlong|_]; [lia|].
    now destruct (Rules.chatRoomData r). }
  rewrite Hr. cbn [Rules.rulesLink].
  split; [reflexivity|]. split; [apply trim_idempotent|reflexivity].
Qed.

Lemma rules_shows_what_was_set_witness :
  Rules.rulesLink
    (Rules.room
       (Rules.rules false true
          {| Rules.rulesLink := ""; Rules.title := "Lobby";
             Rules.chatRoomData := None |} " http://example.org/r "))
  = JS.trim " http://example.org/r "
  /\ JS.trim
       (Rules.rulesLink
          (Rules.room
             (Rules.rules false true
                {| Rules.rulesLink := ""; Rules.title := "Lobby";
                   Rules.chatRoomData := None |} " http://example.org/r ")))
     = Rules.rulesLink
         (Rules.room
            (Rules.rules false true
               {| Rules.rulesLink := ""; Rules.title := "Lobby";
                  Rules.chatRoomData := None |} " http://example.org/r "))
  /\ Rules.reply
       (Rules.rules true false
          (Rules.room
             (Rules.rules false true
                {| Rules.rulesLink := ""; Rules.title := "Lobby";
                   Rules.chatRoomData := None |} " http://example.org/r "))
          "")
     = Some (Rules.PleaseFollow
               (if JS.truthy (JS.trim " http://example.org/r ")
                then Some (JS.trim " http://example.org/r ",
                           Rules.title
                             {| Rules.rulesLink := ""; Rules.title := "Lobby";
                                Rules.chatRoomData := None |})
                else None)).
Proof.
  apply (rules_shows_what_was_set false false
           {| Rules.rulesLink := ""; Rules.title := "Lobby";
              Rules.chatRoomData := None |} " http://example.org/r ").
  - discriminate.
  - simpl. lia.
Defined.

(** ** The data command *)

(** X25: the power shown for weight based moves never decreases when
    the weight grows, and it is between 20 and 120. *)
Theorem weighthit_monotone (w1 w2 : QArith_base.Q) :
  QArith_base.Qle w1 w2 ->
  (Data.weighthit (Some w1) <= Data.weighthit (Some w2))%Z
  /\ (20 <= Data.weighthit (Some w1) <= 120)%Z.
Proof.
  intros Hle. unfold Data.weighthit.
  assert (Hup : forall b,
             QArith_base.Qle_bool (QArith_base.inject_Z b) w1 = true ->
             QArith_base.Qle_bool (QArith_base.inject_Z b) w2 = true).
  { intros b H. apply QArith_base.Qle_bool_iff in H.
    apply QArith_base.Qle_bool_iff.
    eapply QArith_base.Qle_trans; eauto. }
  repeat match goal with
         | |- context [if QArith_base.Qle_bool (QArith_base.inject_Z ?b) w1
                       then _ else _] =>
             let E := fresh "E" in
             destruct (QArith_base.Qle_bool (QArith_base.inject_Z b) w1) eqn:E;
             [rewrite ?(Hup b E)|]
         end;
    repeat match goal with
           | |- context [if ?c then _ else _] => destruct c
           end; lia.
Qed.

Lemma weighthit_monotone_witness :
  (Data.weighthit (Some (QArith_base.Qmake 69 10))
   <= Data.weighthit (Some (QArith_base.Qmake 2100 10)))%Z
  /\ (20 <= Data.weighthit (Some (QArith_base.Qmake 69 10)) <= 120)%Z.
Proof.
  apply (weighthit_monotone (QArith_base.Qmake 69 10)
           (QArith_base.Qmake 2100 10)).
  unfold QArith_base.Qle. simpl. lia.
Defined.

(** ** The effectiveness command *)

Lemma splitParts_not_nil (s : string) : Effectiveness.splitParts s <> [].
Proof.
  destruct s as [|c s]; cbn [Effectiveness.splitParts]; [discriminate|].
  destruct (Ascii.eqb c "," || Ascii.eqb c "/")%bool; [discriminate|].
  destruct (Effectiveness.splitParts s); discriminate.
Qed.

Lemma splitParts_one (a : string) :
  Effectiveness.onePart a = true -> Effectiveness.splitParts a = [a].
Proof.
  induction a as [|c a IH]; cbn [Effectiveness.onePart Effectiveness.splitParts];
    [reflexivity|].
  intros H. apply andb_true_iff in H as [Hc Ha].
  apply negb_true_iff in Hc. rewrite Hc, (IH Ha). reflexivity.
Qed.

Lemma splitParts_comma (a rest : string) :
  Effectiveness.onePart a = true ->
  Effectiveness.splitParts (a ++ String "," rest)
  = a :: Effectiveness.splitParts rest.
Proof.
  induction a as [|c a IH];
    cbn [Effectiveness.onePart Effectiveness.splitParts String.append];
    [reflexivity|].
  intros H. apply andb_true_iff in H as [Hc Ha].
  apply negb_true_iff in Hc. rewrite Hc, (IH Ha). reflexivity.
Qed.

Lemma effectiveness_two (L : Effectiveness.Lookups) (canBroadcast : bool)
    (a b : string) :
  Effectiveness.onePart a = true -> Effectiveness.onePart b = true ->
  Effectiveness.effectiveness L canBroadcast (a ++ String "," b)
  = Effectiveness.onParts L canBroadcast [a; b].
Proof.
  intros Ha Hb. unfold Effectiveness.effectiveness.
  rewrite (splitParts_comma a b Ha), (splitParts_one b Hb). reflexivity.
Qed.

(** After one round that goes on, the attacker or the defender is set, and
    an unset attacker leaves the lookups of attackers to be tried. *)
Lemma round_initial (L : Effectiveness.Lookups) (name : string)
    (st : Effectiveness.Vars) :
  Effectiveness.round L Effectiveness.initial name = Some st ->
  (Effectiveness.source st <> None
   /\ Effectiveness.methods st = Effectiveness.targetMethods)
  \/ (Effectiveness.source st = None
      /\ Effectiveness.defender st <> None
      /\ Effectiveness.methods st = Effectiveness.sourceMethods).
Proof.
  unfold Effectiveness.round, Effectiveness.initial.
  cbn [Effectiveness.methods Effectiveness.source Effectiveness.defender
       Effectiveness.atkName Effectiveness.defName Effectiveness.searchMethods
       Effectiveness.search Effectiveness.call Effectiveness.exists_
       Effectiveness.sourceTruthy negb andb].
  destruct (Effectiveness.t_exists (Effectiveness.getType L name)) eqn:Et;
    [|destruct (Effectiveness.m_exists (Effectiveness.getMove L name)) eqn:Em;
      [|destruct (Effectiveness.s_exists (Effectiveness.getTemplate L name))
          eqn:Es]];
    cbn [Effectiveness.exists_ Effectiveness.methodIn existsb orb negb
         Effectiveness.sourceMethods Effectiveness.targetMethods];
    rewrite ?Et, ?Em, ?Es; cbn [negb]; try discriminate;
    try destruct (JS.truthy _);
    intros E; injection E as <-;
    cbn [Effectiveness.methods Effectiveness.source Effectiveness.defender];
    solve [ left; split; [discriminate|reflexivity]
          | right; split; [reflexivity|]; split; [discriminate|reflexivity] ].
Qed.

Lemma round_sets_source (L : Effectiveness.Lookups) (name : string)
    (st st' : Effectiveness.Vars) :
  Effectiveness.source st = None ->
  Effectiveness.methods st = Effectiveness.sourceMethods ->
  Effectiveness.round L st name = Some st' ->
  Effectiveness.source st' <> None.
Proof.
  intros Hs Hm. unfold Effectiveness.round. rewrite Hs, Hm.
  cbn [Effectiveness.sourceMethods Effectiveness.search Effectiveness.call
       Effectiveness.exists_ Effectiveness.sourceTruthy negb andb].
  destruct (Effectiveness.t_exists (Effectiveness.getType L name)) eqn:Et;
    [|destruct (Effectiveness.m_exists (Effectiveness.getMove L name)) eqn:Em];
    cbn [Effectiveness.exists_ Effectiveness.methodIn existsb orb negb
         Effectiveness.sourceMethods];
    rewrite ?Et, ?Em; cbn [negb]; try discriminate;
    try destruct (JS.truthy _);
    intros E; injection E as <-; cbn [Effectiveness.source]; discriminate.
Qed.

Lemma round_keeps_source (L : Effectiveness.Lookups) (name : string)
    (st st' : Effectiveness.Vars) :
  Effectiveness.source st <> None ->
  Effectiveness.round L st name = Some st' ->
  Effectiveness.source st' <> None.
Proof.
  intros Hs. unfold Effectiveness.round.
  destruct (Effectiveness.search L (Effectiveness.methods st) name None)
    as [[method foundData]|]; [|discriminate].
  destruct (negb (Effectiveness.exists_ foundData)); [discriminate|].
  destruct (negb (Effectiveness.sourceTruthy (Effectiveness.source st))
            && Effectiveness.methodIn method Effectiveness.sourceMethods).
  { destruct foundData as [t|m|p]; [| destruct (JS.truthy _) |];
      intros E; injection E as <-; cbn; discriminate. }
  destruct (match Effectiveness.defender st with None => true | Some _ => false end
            && Effectiveness.methodIn method Effectiveness.targetMethods).
  { destruct foundData as [t|m|p]; intros E; injection E as <-; cbn; exact Hs. }
  intros E. injection E as <-. exact Hs.
Qed.

(** X26: The effectiveness command never reads a field of an undefined
    attacker: whenever both names are found, one of them has been taken as
    the attacker before the factor is computed, so the command never throws
    a TypeError, whatever the lookups answer. *)
Theorem effectiveness_never_throws (L : Effectiveness.Lookups)
    (canBroadcast : bool) (target : string) :
  Effectiveness.effectiveness L canBroadcast target
  <> Effectiveness.ThrowsTypeError.
Proof.
  unfold Effectiveness.effectiveness.
  destruct (firstn 2 (Effectiveness.splitParts target)) as [|a [|b [|c l]]];
    cbn [Effectiveness.onParts]; try discriminate.
  destruct (Effectiveness.round L Effectiveness.initial a) as [st|] eqn:E1;
    [|discriminate].
  destruct (Effectiveness.round L st b) as [st'|] eqn:E2; [|discriminate].
  destruct canBroadcast; cbn [negb]; [|discriminate].
  assert (Hs : Effectiveness.source st' <> None).
  { destruct (round_initial L a st E1) as [[Hs _]|[Hs [_ Hm]]].
    - exact (round_keeps_source L b st st' Hs E2).
    - exact (round_sets_source L b st st' Hs Hm E2). }
  unfold Effectiveness.factor.
  destruct (Effectiveness.source st'); [discriminate|congruence].
Qed.

(** X27: Only the first two parts of the target are read: whatever follows
    a second comma changes nothing in the reply. *)
Theorem effectiveness_ignores_further_parts (L : Effectiveness.Lookups)
    (canBroadcast : bool) (a b rest : string) :
  Effectiveness.onePart a = true ->
  Effectiveness.onePart b = true ->
  Effectiveness.effectiveness L canBroadcast
    (a ++ String "," (b ++ String "," rest))
  = Effectiveness.effectiveness L canBroadcast (a ++ String "," b).
Proof.
  intros Ha Hb. rewrite (effectiveness_two L canBroadcast a b Ha Hb).
  unfold Effectiveness.effectiveness.
  rewrite (splitParts_comma a _ Ha), (splitParts_comma b rest Hb).
  reflexivity.
Qed.

(** X28: A name known only as a Pokemon (neither a type nor a move) is
    taken as the defender wherever it stands: swapping it with the other
    name gives the same reply. *)
Theorem effectiveness_species_either_side (L : Effectiveness.Lookups)
    (canBroadcast : bool) (a b : string) :
  Effectiveness.onePart a = true ->
  Effectiveness.onePart b = true ->
  Effectiveness.speciesOnly L a ->
  Effectiveness.effectiveness L canBroadcast (a ++ String "," b)
  = Effectiveness.effectiveness L canBroadcast (b ++ String "," a).
Proof.
  intros Ha Hb [Ht [Hm Hs]].
  rewrite (effectiveness_two L canBroadcast a b Ha Hb),
          (effectiveness_two L canBroadcast b a Hb Ha).
  unfold Effectiveness.onParts, Effectiveness.round, Effectiveness.initial.
  destruct (Effectiveness.t_exists (Effectiveness.getType L b)) eqn:Etb;
    [|destruct (Effectiveness.m_exists (Effectiveness.getMove L b)) eqn:Emb;
      [destruct (JS.truthy (Effectiveness.m_type (Effectiveness.getMove L b)))
         eqn:Eyb
      |destruct (Effectiveness.s_exists (Effectiveness.getTemplate L b))
         eqn:Esb]];
    repeat (cbn -[JS.truthy String.append];
            rewrite ?Ht, ?Hm, ?Hs, ?Etb, ?Emb, ?Esb, ?Eyb, ?andb_false_r);
    reflexivity.
Qed.

Lemma effectiveness_ignores_further_parts_witness :
  Effectiveness.effectiveness Chart.lookups true "water,fire,grass"
  = Effectiveness.effectiveness Chart.lookups true "water,fire"
  /\ Effectiveness.effectiveness Chart.lookups true "water,fire"
     = Effectiveness.Effective "water" (Some 1%Z) "fire".
Proof.
  split; [|reflexivity].
  apply (effectiveness_ignores_further_parts Chart.lookups true
           "water" "fire" "grass"); reflexivity.
Defined.

Lemma effectiveness_species_either_side_witness :
  Effectiveness.effectiveness Chart.lookups true "vulpix,water"
  = Effectiveness.effectiveness Chart.lookups true "water,vulpix"
  /\ Effectiveness.effectiveness Chart.lookups true "water,vulpix"
     = Effectiveness.Effective "water" (Some 1%Z)
         "Vulpix (not counting abilities)".
Proof.
  split; [|reflexivity].
  apply (effectiveness_species_either_side Chart.lookups true
           "vulpix" "water"); [reflexivity|reflexivity|].
  repeat split; reflexivity.
Defined.
